(** * Asteroids on FreeRTOS: a shallow embedding of [asteroids.c]

    The game state of [asteroids.c] (the ship, the bullet list, the asteroid
    list) and the loop bodies of its four tasks are embedded as functions on
    an explicit [world].  Linked lists of [object] nodes become Rocq lists
    (the [next] pointer is the tail), [float] values become exact rationals
    ([Q]: rounding is not modelled), the fixed-width integer fields are
    integers with their wrap-around written out, and every call into the
    display module, the allocator or the scheduler is recorded in a trace.
    A pass of a task is run from its start to its end without another task
    in between: taking and giving [usartMutex] is not part of the model. *)

From Stdlib Require Import String ZArith QArith Qround List Bool Lia Lqa.
From Stdlib Require Import Permutation.
Import ListNotations.
Open Scope Z_scope.
Open Scope list_scope.

(** ** Machine arithmetic *)

Definition u8 (z : Z) : Z := z mod 256.
Definition i8 (z : Z) : Z := (z + 128) mod 256 - 128.
Definition u16 (z : Z) : Z := z mod 65536.
Definition i16 (z : Z) : Z := (z + 32768) mod 65536 - 32768.

(** Conversion of a floating value to an integer type drops the fraction. *)
Definition Qtrunc (q : Q) : Z := Z.quot (Qnum q) (Zpos (Qden q)).

(** The comparisons [<] and [>] of the source on floating values. *)
Definition Qltb (a b : Q) : bool := negb (Qle_bool b a).
Definition Qgtb (a b : Q) : bool := Qltb b a.

(** ** Constants of [asteroids.c] *)

Definition INITIAL_ASTEROIDS : Z := 5.
Definition SCREEN_W : Z := 800.
Definition SCREEN_H : Z := 600.
Definition DEAD_ZONE_OVER_2 : Z := 120.

Definition FRAME_DELAY_MS : Z := 10.
Definition BULLET_DELAY_MS : Z := 500.
Definition BULLET_LIFE_MS : Z := 1000.

Definition SHIP_SIZE : Z := 24.
Definition BULLET_SIZE : Z := 6.
Definition AST_SIZE_3 : Z := 100.
Definition AST_SIZE_2 : Z := 40.
Definition AST_SIZE_1 : Z := 15.

Definition BULLET_VEL : Q := 6.
Definition SHIP_MAX_VEL : Q := 8.
Definition SHIP_ACCEL : Q := 1 # 10.
Definition SHIP_AVEL : Q := 6.

Definition AST_MAX_VEL_3 : Q := 2.
Definition AST_MAX_VEL_2 : Q := 3.
Definition AST_MAX_VEL_1 : Q := 4.
Definition AST_MAX_AVEL_3 : Q := 3.
Definition AST_MAX_AVEL_2 : Q := 6.
Definition AST_MAX_AVEL_1 : Q := 9.

(** Bit numbers of port B, as wired in the header comment of the file
    (SW7 left, SW6 right, SW1 accelerate, SW0 shoot). *)
Definition PB7 : Z := 7.
Definition PB6 : Z := 6.
Definition PB1 : Z := 1.
Definition PB0 : Z := 0.
Definition _BV (bit : Z) : Z := Z.shiftl 1 bit.

(** The buttons are active low: [!(PINB & _BV(PBn))]. *)
Definition LEFT_BUTTON (pinb : Z) : bool := Z.land pinb (_BV PB7) =? 0.
Definition RIGHT_BUTTON (pinb : Z) : bool := Z.land pinb (_BV PB6) =? 0.
Definition ACCEL_BUTTON (pinb : Z) : bool := Z.land pinb (_BV PB1) =? 0.
Definition SHOOT_BUTTON (pinb : Z) : bool := Z.land pinb (_BV PB0) =? 0.

(** ** Object model *)

Record point : Type := mkPoint { px : Q; py : Q }.

(** [struct object_s] without its [next] field. *)
Record object : Type := mkObject {
  handle : Z;
  pos : point;
  vel : point;
  accel : Q;
  angle : Z;
  a_vel : Z;
  size : Z;
  life : Z
}.

Definition set_handle (v : Z) (o : object) : object :=
  mkObject v (pos o) (vel o) (accel o) (angle o) (a_vel o) (size o) (life o).
Definition set_pos (v : point) (o : object) : object :=
  mkObject (handle o) v (vel o) (accel o) (angle o) (a_vel o) (size o) (life o).
Definition set_vel (v : point) (o : object) : object :=
  mkObject (handle o) (pos o) v (accel o) (angle o) (a_vel o) (size o) (life o).
Definition set_accel (v : Q) (o : object) : object :=
  mkObject (handle o) (pos o) (vel o) v (angle o) (a_vel o) (size o) (life o).
Definition set_angle (v : Z) (o : object) : object :=
  mkObject (handle o) (pos o) (vel o) (accel o) v (a_vel o) (size o) (life o).
Definition set_a_vel (v : Z) (o : object) : object :=
  mkObject (handle o) (pos o) (vel o) (accel o) (angle o) v (size o) (life o).
Definition set_life (v : Z) (o : object) : object :=
  mkObject (handle o) (pos o) (vel o) (accel o) (angle o) (a_vel o) (size o) v.

(** ** Calls that leave the program *)

Inductive task : Type := InputTask | BulletTask | UpdateTask.

Inductive event : Type :=
| SpriteCreate (img : string) (x y : Q) (rot w h depth : Z) (result : Z)
| SpriteDelete (h : Z)
| SpriteSetPosition (h x y : Z)
| SpriteSetRotation (h a : Z)
| GroupCreate (result : Z)
| GroupAddSprite (g h : Z)
| GroupDelete (g : Z)
| PortFree (node : object)
| TaskSuspend (t : task)
| TaskResume (t : task)
| TaskDelay (ticks : Z).

(** ** The globals *)

Record world : Type := mkWorld {
  ship : object;
  bullets : list object;
  asteroids : list object;
  astGroup : Z;
  background : Z;
  next_handle : Z;      (* the handle the display module hands out next *)
  rng : nat -> Z;       (* the values [rand()] is going to return *)
  trace : list event    (* newest first *)
}.

Definition set_ship (v : object) (w : world) : world :=
  mkWorld v (bullets w) (asteroids w) (astGroup w) (background w)
          (next_handle w) (rng w) (trace w).
Definition set_bullets (v : list object) (w : world) : world :=
  mkWorld (ship w) v (asteroids w) (astGroup w) (background w)
          (next_handle w) (rng w) (trace w).
Definition set_asteroids (v : list object) (w : world) : world :=
  mkWorld (ship w) (bullets w) v (astGroup w) (background w)
          (next_handle w) (rng w) (trace w).
Definition set_astGroup (v : Z) (w : world) : world :=
  mkWorld (ship w) (bullets w) (asteroids w) v (background w)
          (next_handle w) (rng w) (trace w).
Definition set_background (v : Z) (w : world) : world :=
  mkWorld (ship w) (bullets w) (asteroids w) (astGroup w) v
          (next_handle w) (rng w) (trace w).
Definition set_next_handle (v : Z) (w : world) : world :=
  mkWorld (ship w) (bullets w) (asteroids w) (astGroup w) (background w)
          v (rng w) (trace w).
Definition set_rng (v : nat -> Z) (w : world) : world :=
  mkWorld (ship w) (bullets w) (asteroids w) (astGroup w) (background w)
          (next_handle w) v (trace w).
Definition set_trace (v : list event) (w : world) : world :=
  mkWorld (ship w) (bullets w) (asteroids w) (astGroup w) (background w)
          (next_handle w) (rng w) v.

(** ** A state monad over the globals *)

Definition M (A : Type) : Type := world -> A * world.

Definition ret {A : Type} (a : A) : M A := fun w => (a, w).
Definition bind {A B : Type} (c : M A) (k : A -> M B) : M B :=
  fun w => let (a, w1) := c w in k a w1.
Definition get {A : Type} (f : world -> A) : M A := fun w => (f w, w).
Definition modify (f : world -> world) : M unit := fun w => (tt, f w).
Definition exec {A : Type} (c : M A) (w : world) : world := snd (c w).

Declare Scope game_scope.
Delimit Scope game_scope with game.
Notation "x <- c ;; k" := (bind c (fun x => k))
  (at level 61, c at next level, right associativity) : game_scope.
Notation "c ;; k" := (bind c (fun _ => k))
  (at level 61, right associativity) : game_scope.
Open Scope game_scope.

Definition emit (e : event) : M unit :=
  modify (fun w => set_trace (e :: trace w) w).

(** [rand()] of the C library: the head of the stream. *)
Definition rand : M Z :=
  fun w => (rng w 0%nat, set_rng (fun n => rng w (S n)) w).

(** The display module ([graphics.h]) is outside the program: a sprite or
    group creation returns the next unused handle and is logged with it. *)
Definition xSpriteCreate (img : string) (x y : Q) (rot w h depth : Z) : M Z :=
  fun s =>
    let r := next_handle s in
    (r, set_trace (SpriteCreate img x y rot w h depth r :: trace s)
          (set_next_handle (r + 1) s)).
Definition xGroupCreate : M Z :=
  fun s =>
    let r := next_handle s in
    (r, set_trace (GroupCreate r :: trace s) (set_next_handle (r + 1) s)).
Definition vSpriteDelete (h : Z) : M unit := emit (SpriteDelete h).
Definition vSpriteSetPosition (h x y : Z) : M unit :=
  emit (SpriteSetPosition h x y).
Definition vSpriteSetRotation (h a : Z) : M unit :=
  emit (SpriteSetRotation h a).
Definition vGroupAddSprite (g h : Z) : M unit := emit (GroupAddSprite g h).
Definition vGroupDelete (g : Z) : M unit := emit (GroupDelete g).
Definition vPortFree (node : object) : M unit := emit (PortFree node).
Definition vTaskSuspend (t : task) : M unit := emit (TaskSuspend t).
Definition vTaskResume (t : task) : M unit := emit (TaskResume t).
Definition vTaskDelay (ms : Z) : M unit := emit (TaskDelay ms).

(** ** Constructors of game objects *)

Definition astImages (i : Z) : string :=
  if i =? 0 then "a1.png"%string
  else if i =? 1 then "a2.png"%string
  else "a3.png"%string.

Definition sizeToPix (size : Z) : Z :=
  if size =? 3 then AST_SIZE_3
  else if size =? 2 then AST_SIZE_2
  else if size =? 1 then AST_SIZE_1
  else Z.shiftl AST_SIZE_3 2.

(** [createAsteroid]: the arguments arrive converted to the parameter types
    ([int16_t angle], [int8_t avel], [int8_t size]).  The new node is linked
    in front of the global [asteroids] (the [nxt] argument is not used by
    the source), so the pointer returned is that list with the node in
    front.  [accel] and [life] are not written by the source. *)
Definition createAsteroid (x y velx vely : Q) (angle avel size : Z)
    (nxt : list object) : M (list object) :=
  r <- rand ;;
  h <- xSpriteCreate (astImages (Z.rem r 3)) x y angle
         (sizeToPix size) (sizeToPix size) 1 ;;
  g <- get astGroup ;;
  rest <- get asteroids ;;
  vGroupAddSprite g h ;;
  ret (mkObject h (mkPoint x y) (mkPoint velx vely) 0 angle avel (u8 size) 0
         :: rest).

(** [createBullet]: [accel], [angle] and [a_vel] are not written. *)
Definition createBullet (x y velx vely : Q) (nxt : list object)
    : M (list object) :=
  h <- xSpriteCreate "bullet.png" x y 0 BULLET_SIZE BULLET_SIZE 1 ;;
  ret (mkObject h (mkPoint x y) (mkPoint velx vely) 0 0 0 BULLET_SIZE 0
         :: nxt).

(** ** [spawnAsteroid] *)

(** The [switch (size - 1)] that picks the [int] locals [vel] and [accel]. *)
Definition spawn_limits (size : Z) : Z * Z :=
  if size - 1 =? 2 then (Qtrunc AST_MAX_VEL_2, Qtrunc AST_MAX_AVEL_2)
  else if size - 1 =? 1 then (Qtrunc AST_MAX_VEL_1, Qtrunc AST_MAX_AVEL_1)
  else (Qtrunc AST_MAX_VEL_3, Qtrunc AST_MAX_AVEL_3).

(** [(r % (int8_t)(m * 10)) / 5.0 - m] for an [int] bound [m].  The
    quotient and the difference are exact here, where the source rounds
    each to [float]: a bound stated on the value is to leave a margin for
    that. *)
Definition spread (m r : Z) : Q :=
  (inject_Z (Z.rem r (i8 (m * 10))) / 5 - inject_Z m)%Q.

Definition rand_spread (m : Z) : M Q :=
  r <- rand ;;
  ret (spread m r).

(** One round of the [for] loop: the arguments are evaluated in the order
    they are written. *)
Definition spawn_one (p : point) (size vel accel : Z) : M unit :=
  vx <- rand_spread vel ;;
  vy <- rand_spread vel ;;
  r <- rand ;;
  av <- rand_spread accel ;;
  nxt <- get asteroids ;;
  l <- createAsteroid (px p) (py p) vx vy (i16 (Z.rem r 360))
         (i8 (Qtrunc av)) (i8 (size - 1)) nxt ;;
  modify (set_asteroids l).

Fixpoint repeatM (n : nat) (c : M unit) : M unit :=
  match n with
  | O => ret tt
  | S k => c ;; repeatM k c
  end.

Definition spawnAsteroid (p : point) (size : Z) : M unit :=
  if 1 <? size then
    let (vel, accel) := spawn_limits size in
    repeatM 3 (spawn_one p size vel accel)
  else ret tt.

(** ** The tasks

    Each task is an endless loop; what is embedded is one pass of its body.
    The parts of the platform the source only names are parameters: the
    sine and cosine of an angle given in whole degrees
    ([sin(a * DEG_TO_RAD)]), the answer of the display module to a
    collision query (it depends on the commands sent so far), the stream
    [rand()] produces after [srand(seed)], and [portTICK_RATE_MS]. *)

Section Tasks.

Variable sin_deg cos_deg : Z -> Q.
Variable uCollide : list event -> Z -> Z -> option Z.
Variable seeded : Z -> nat -> Z.
Variable portTICK_RATE_MS : Z.

Definition srand (seed : Z) : M unit := modify (set_rng (seeded seed)).

(** *** [inputTask] *)

Definition inputTask_pass (pinb : Z) : M unit :=
  s <- get ship ;;
  let s1 :=
    if LEFT_BUTTON pinb then set_a_vel (i8 (Qtrunc SHIP_AVEL)) s
    else if RIGHT_BUTTON pinb then set_a_vel (i8 (Qtrunc (- SHIP_AVEL))) s
    else set_a_vel 0 s in
  let s2 :=
    if ACCEL_BUTTON pinb then set_accel SHIP_ACCEL s1
    else set_accel 0 s1 in
  modify (set_ship s2).

(** *** [bulletTask] *)

(** One pass; the value returned is the number of ticks the task then
    sleeps. *)
Definition bulletTask_pass (pinb : Z) : M Z :=
  if SHOOT_BUTTON pinb then
    s <- get ship ;;
    nxt <- get bullets ;;
    l <- createBullet (px (pos s)) (py (pos s))
           (- sin_deg (angle s) * BULLET_VEL)%Q
           (- cos_deg (angle s) * BULLET_VEL)%Q nxt ;;
    modify (set_bullets l) ;;
    vTaskDelay (Z.quot BULLET_DELAY_MS portTICK_RATE_MS) ;;
    ret (Z.quot BULLET_DELAY_MS portTICK_RATE_MS)
  else
    vTaskDelay (Z.quot FRAME_DELAY_MS portTICK_RATE_MS) ;;
    ret (Z.quot FRAME_DELAY_MS portTICK_RATE_MS).

(** The task on a clock in milliseconds: a pass runs at [now], samples the
    port there and the next pass runs when the delay is over.  Passes take
    no time.  The result lists the instants at which a bullet was made,
    for the passes that start no later than [till]. *)
Fixpoint bulletTask_run (fuel : nat) (pinb : Z -> Z) (now till : Z)
    : M (list Z) :=
  match fuel with
  | O => ret []
  | S k =>
    if till <? now then ret []
    else
      d <- bulletTask_pass (pinb now) ;;
      later <- bulletTask_run k pinb (now + d * portTICK_RATE_MS) till ;;
      ret (if SHOOT_BUTTON (pinb now) then now :: later else later)
  end.

(** *** [updateTask] *)

Definition spin (s : object) : object :=
  let a := i16 (angle s + a_vel s) in
  if 360 <=? a then set_angle (i16 (a - 360)) s
  else if a <? 0 then set_angle (i16 (a + 360)) s
  else set_angle a s.

(** Lines 204 to 210.  The sum of the squares, its test against
    [SHIP_MAX_VEL] and the scaling are exact here, where the source rounds
    each step to [float]. *)
Definition thrust (s : object) : object :=
  let vx := (px (vel s) + accel s * - sin_deg (angle s))%Q in
  let vy := (py (vel s) + accel s * - cos_deg (angle s))%Q in
  let v := (vx * vx + vy * vy)%Q in
  if Qgtb v SHIP_MAX_VEL then
    set_vel (mkPoint (vx * (SHIP_MAX_VEL / v)) (vy * (SHIP_MAX_VEL / v))) s
  else set_vel (mkPoint vx vy) s.

(** The wrap of one coordinate against [SCREEN_W] or [SCREEN_H]. *)
Definition wrap (limit : Z) (c : Q) : Q :=
  if Qltb c 0 then (c + inject_Z limit)%Q
  else if Qgtb c (inject_Z limit) then (c - inject_Z limit)%Q
  else c.

(** [pos += vel] followed by the two wraps: the same lines serve the ship,
    the bullets and the asteroids. *)
Definition integrate (o : object) : object :=
  set_pos (mkPoint (wrap SCREEN_W (px (pos o) + px (vel o)))
                   (wrap SCREEN_H (py (pos o) + py (vel o)))) o.

(** [objIter->life += FRAME_DELAY_MS] on the [uint16_t] field. *)
Definition age (b : object) : object :=
  set_life (u16 (life b + FRAME_DELAY_MS)) b.

(** The loop over the bullets; its value is the list that is left. *)
Fixpoint update_bullets (l : list object) : M (list object) :=
  match l with
  | [] => ret []
  | b :: rest =>
    let b1 := age b in
    if BULLET_LIFE_MS <=? life b1 then
      vSpriteDelete (handle b1) ;;
      vPortFree b1 ;;
      update_bullets rest
    else
      rest' <- update_bullets rest ;;
      ret (integrate b1 :: rest')
  end.

Definition updateTask_pass : M unit :=
  s <- get ship ;;
  modify (set_ship (integrate (thrust (spin s)))) ;;
  bs <- get bullets ;;
  bs' <- update_bullets bs ;;
  modify (set_bullets bs') ;;
  asts <- get asteroids ;;
  modify (set_asteroids (map integrate asts)) ;;
  vTaskDelay (Z.quot FRAME_DELAY_MS portTICK_RATE_MS).

(** *** [init] and [reset] *)

Definition getRandStartPosVal (dimOver2 : Z) : M Z :=
  r1 <- rand ;;
  r2 <- rand ;;
  ret (i16 (Z.rem r1 (dimOver2 - DEAD_ZONE_OVER_2)
            + Z.rem r2 2 * (dimOver2 + DEAD_ZONE_OVER_2))).

(** [(r % (int8_t)(m * 10)) / 5.0 - m] for a floating bound [m]. *)
Definition spreadQ (m : Q) (r : Z) : Q :=
  (inject_Z (Z.rem r (i8 (Qtrunc (m * 10)))) / 5 - m)%Q.

Definition rand_spreadQ (m : Q) : M Q :=
  r <- rand ;;
  ret (spreadQ m r).

Definition init_one : M unit :=
  x <- getRandStartPosVal (Z.shiftr SCREEN_W 1) ;;
  y <- getRandStartPosVal (Z.shiftr SCREEN_H 1) ;;
  vx <- rand_spreadQ AST_MAX_VEL_3 ;;
  vy <- rand_spreadQ AST_MAX_VEL_3 ;;
  r <- rand ;;
  av <- rand_spreadQ AST_MAX_AVEL_3 ;;
  nxt <- get asteroids ;;
  l <- createAsteroid (inject_Z x) (inject_Z y) vx vy (i16 (Z.rem r 360))
         (i8 (Qtrunc av)) 3 nxt ;;
  modify (set_asteroids l).

(** [tcnt0] is the value read from the timer register [TCNT0].  The store
    of [ERROR_HANDLE] into [astGroup] is overwritten before it is read and
    is left out. *)
Definition init (tcnt0 : Z) : M unit :=
  modify (set_bullets []) ;;
  modify (set_asteroids []) ;;
  bg <- xSpriteCreate "stars.png" (inject_Z (Z.shiftr SCREEN_W 1))
          (inject_Z (Z.shiftr SCREEN_H 1)) 0 SCREEN_W SCREEN_H 0 ;;
  modify (set_background bg) ;;
  srand tcnt0 ;;
  g <- xGroupCreate ;;
  modify (set_astGroup g) ;;
  repeatM (Z.to_nat INITIAL_ASTEROIDS) init_one ;;
  h <- xSpriteCreate "ship.png" (inject_Z (Z.shiftr SCREEN_W 1))
         (inject_Z (Z.shiftr SCREEN_H 1)) 0 SHIP_SIZE SHIP_SIZE 1 ;;
  s <- get ship ;;
  modify (set_ship
    (set_a_vel 0 (set_angle 0 (set_accel 0 (set_vel (mkPoint 0 0)
      (set_pos (mkPoint (inject_Z (Z.shiftr SCREEN_W 1))
                        (inject_Z (Z.shiftr SCREEN_H 1)))
        (set_handle h s))))))).

(** The two [while] loops of [reset]. *)
Fixpoint free_all (l : list object) : M unit :=
  match l with
  | [] => ret tt
  | o :: rest => vSpriteDelete (handle o) ;; vPortFree o ;; free_all rest
  end.

Definition reset : M unit :=
  asts <- get asteroids ;;
  free_all asts ;;
  modify (set_asteroids []) ;;
  g <- get astGroup ;;
  vGroupDelete g ;;
  bs <- get bullets ;;
  free_all bs ;;
  modify (set_bullets []) ;;
  s <- get ship ;;
  vSpriteDelete (handle s) ;;
  bg <- get background ;;
  vSpriteDelete bg.

(** *** [drawTask] *)

Definition collide (h g : Z) : M (option Z) :=
  fun w => (uCollide (trace w) h g, w).

(** The scan for the asteroid that was hit.  [before] holds the nodes
    already passed ([astPrev] is its last one), [l] starts at [astIter].
    Unlinking leaves [before ++ rest] as the global list in both branches
    of the source. *)
Fixpoint scan_asteroids (hit : Z) (before l : list object) : M unit :=
  match l with
  | [] => ret tt
  | a :: rest =>
    if handle a =? hit then
      vSpriteDelete (handle a) ;;
      modify (set_asteroids (before ++ rest)) ;;
      vPortFree a ;;
      spawnAsteroid (pos a) (size a)
    else scan_asteroids hit (before ++ [a]) rest
  end.

(** Lines 320 and 321: the bullet is moved on the display and the display
    is asked whether it touches an asteroid; [Some h] stands for a count
    above 0 with [h] stored in [hit]. *)
Definition bullet_query (b : object) : M (option Z) :=
  vSpriteSetPosition (handle b) (u16 (Qtrunc (px (pos b))))
                     (u16 (Qtrunc (py (pos b)))) ;;
  g <- get astGroup ;;
  collide (handle b) g.

(** The loop over the bullets; its value is the list that is left. *)
Fixpoint draw_bullets (l : list object) : M (list object) :=
  match l with
  | [] => ret []
  | b :: rest =>
    hit <- bullet_query b ;;
    match hit with
    | Some h =>
      vSpriteDelete (handle b) ;;
      vPortFree b ;;
      asts <- get asteroids ;;
      scan_asteroids h [] asts ;;
      draw_bullets rest
    | None =>
      rest' <- draw_bullets rest ;;
      ret (b :: rest')
    end
  end.

Fixpoint draw_asteroids (l : list object) : M unit :=
  match l with
  | [] => ret tt
  | a :: rest =>
    vSpriteSetPosition (handle a) (u16 (Qtrunc (px (pos a))))
                       (u16 (Qtrunc (py (pos a)))) ;;
    vSpriteSetRotation (handle a) (angle a) ;;
    draw_asteroids rest
  end.

(** Lines 315 and 316. *)
Definition draw_ship : M unit :=
  s <- get ship ;;
  vSpriteSetRotation (handle s) (u16 (angle s)) ;;
  vSpriteSetPosition (handle s) (u16 (Qtrunc (px (pos s))))
                     (u16 (Qtrunc (py (pos s)))).

(** Lines 314 to 367: everything of a pass before the end-of-game test. *)
Definition drawTask_sync : M unit :=
  draw_ship ;;
  bs <- get bullets ;;
  bs' <- draw_bullets bs ;;
  modify (set_bullets bs') ;;
  asts <- get asteroids ;;
  draw_asteroids asts.

(** The body of the [if] at line 369. *)
Definition game_over (tcnt0 : Z) : M unit :=
  vTaskSuspend UpdateTask ;;
  vTaskSuspend BulletTask ;;
  vTaskSuspend InputTask ;;
  asts <- get asteroids ;;
  h <- match asts with
       | [] => xSpriteCreate "win.png" (inject_Z (Z.shiftr SCREEN_W 1))
                 (inject_Z (Z.shiftr SCREEN_H 1)) 20
                 (Z.shiftr SCREEN_W 1) (Z.shiftr SCREEN_H 1) 100
       | _ :: _ => xSpriteCreate "lose.png" (inject_Z (Z.shiftr SCREEN_W 1))
                 (inject_Z (Z.shiftr SCREEN_H 1)) 0
                 (Z.shiftr SCREEN_W 1) (Z.shiftr SCREEN_H 1) 100
       end ;;
  vTaskDelay (Z.quot 3000 portTICK_RATE_MS) ;;
  vSpriteDelete h ;;
  reset ;;
  init tcnt0 ;;
  vTaskResume UpdateTask ;;
  vTaskResume BulletTask ;;
  vTaskResume InputTask.

(** The query of line 369. *)
Definition ship_query : M (option Z) :=
  s <- get ship ;;
  g <- get astGroup ;;
  collide (handle s) g.

(** Lines 369 to 391. *)
Definition drawTask_check (tcnt0 : Z) : M unit :=
  hit <- ship_query ;;
  asts <- get asteroids ;;
  (match hit, asts with
   | Some _, _ | None, [] => game_over tcnt0
   | None, _ :: _ => ret tt
   end) ;;
  vTaskDelay (Z.quot FRAME_DELAY_MS portTICK_RATE_MS).

Definition drawTask_pass (tcnt0 : Z) : M unit :=
  drawTask_sync ;; drawTask_check tcnt0.

(** Lines 305 to 311: what [drawTask] does before its loop. *)
Definition drawTask_start (tcnt0 : Z) : M unit :=
  vTaskSuspend UpdateTask ;;
  vTaskSuspend BulletTask ;;
  vTaskSuspend InputTask ;;
  init tcnt0 ;;
  vTaskResume UpdateTask ;;
  vTaskResume BulletTask ;;
  vTaskResume InputTask.

End Tasks.

(** ** Vocabulary of the statements *)

(** [rand()] returns values from 0 to [RAND_MAX]. *)
Definition rng_ok (w : world) : Prop := forall n : nat, 0 <= rng w n.

(** The screen with its far edges, and without them. *)
Definition on_screen (p : point) : Prop :=
  (0 <= px p <= inject_Z SCREEN_W /\ 0 <= py p <= inject_Z SCREEN_H)%Q.
Definition inside_screen (p : point) : Prop :=
  (0 <= px p < inject_Z SCREEN_W /\ 0 <= py p < inject_Z SCREEN_H)%Q.

(** A velocity smaller than the screen on each axis. *)
Definition slow (v : point) : Prop :=
  (- inject_Z SCREEN_W < px v < inject_Z SCREEN_W
   /\ - inject_Z SCREEN_H < py v < inject_Z SCREEN_H)%Q.

Definition placed (o : object) : Prop := on_screen (pos o) /\ slow (vel o).
Definition placed_inside (o : object) : Prop :=
  inside_screen (pos o) /\ slow (vel o).

Definition world_on_screen (w : world) : Prop :=
  on_screen (pos (ship w))
  /\ Forall placed (bullets w) /\ Forall placed (asteroids w).
Definition world_inside_screen (w : world) : Prop :=
  inside_screen (pos (ship w))
  /\ Forall placed_inside (bullets w) /\ Forall placed_inside (asteroids w).

(** The loop over the bullets seen on lists: which bullets it takes out,
    what it leaves, and what it tells the display and the allocator. *)
Definition expired (b : object) : bool := BULLET_LIFE_MS <=? life (age b).

Definition survivors (l : list object) : list object :=
  map (fun b => integrate (age b)) (filter (fun b => negb (expired b)) l).

Fixpoint expiry_events (l : list object) : list event :=
  match l with
  | [] => []
  | b :: rest =>
    expiry_events rest
    ++ (if expired b then [PortFree (age b); SpriteDelete (handle b)]
        else [])
  end.

(** What [reset] tells the display and the allocator for a list. *)
Fixpoint free_events (l : list object) : list event :=
  match l with
  | [] => []
  | o :: rest => free_events rest ++ [PortFree o; SpriteDelete (handle o)]
  end.

(** The sleep after a shot on the scheduler's clock, in ms: 500 ms cut
    down to a whole number of ticks, as [vTaskDelay] is given
    [BULLET_DELAY_MS / portTICK_RATE_MS] ticks. *)
Definition cooldown_ms (tick : Z) : Z := Z.quot BULLET_DELAY_MS tick * tick.

(** Instants that are at least [d] apart, in increasing order. *)
Fixpoint spaced (d : Z) (l : list Z) : Prop :=
  match l with
  | a :: (b :: _) as rest => a + d <= b /\ spaced d rest
  | _ => True
  end.

(** The trace of [w'] continues the trace of [w]. *)
Definition extends (w w' : world) : Prop :=
  exists evs : list event, trace w' = evs ++ trace w.

(** [w'] is [w] with more events in its trace and nothing else changed. *)
Definition only_trace (w w' : world) : Prop :=
  exists evs : list event, w' = set_trace (evs ++ trace w) w.

(** ** Sample states *)

Definition ship0 : object :=
  mkObject 1 (mkPoint 400 300) (mkPoint 0 0) 0 0 0 0 0.

Definition world0 : world :=
  mkWorld ship0 [] [] 2 0 10 (fun n => Z.of_nat n * 7 + 11) [].

(** Asteroids: one of size 3 in the middle of the screen, two others, the
    last of them with the handle of the first. *)
Definition rock3 : object :=
  mkObject 3 (mkPoint 400 300) (mkPoint 0 0) 0 0 0 3 0.
Definition rock4 : object :=
  mkObject 4 (mkPoint 100 100) (mkPoint 1 1) 0 0 0 2 0.
Definition rock3' : object :=
  mkObject 3 (mkPoint 700 500) (mkPoint 1 0) 0 0 0 1 0.

(** Bullets: a fresh one, one a tick before its end and one two ticks
    before. *)
Definition shot7 : object :=
  mkObject 7 (mkPoint 400 300) (mkPoint 0 (-6)) 0 0 0 BULLET_SIZE 0.
Definition shot_old : object :=
  mkObject 8 (mkPoint 400 100) (mkPoint 0 (-6)) 0 0 0 BULLET_SIZE 990.
Definition shot_young : object :=
  mkObject 9 (mkPoint 400 106) (mkPoint 0 (-6)) 0 0 0 BULLET_SIZE 980.

(** A bullet meets the asteroid in the middle; [rand()] returns 0. *)
Definition world_hit : world :=
  set_rng (fun _ => 0) (set_asteroids [rock3] (set_bullets [shot7] world0)).
Definition display_hit : list event -> Z -> Z -> option Z :=
  fun _ h _ => if h =? 7 then Some 3 else None.

(** The same meeting with [rand()] returning 29. *)
Definition world_hit_high : world :=
  set_rng (fun _ => 29) (set_asteroids [rock3] (set_bullets [shot7] world0)).

(** The ship meets an asteroid while two asteroids are left. *)
Definition world_crash : world :=
  set_asteroids [rock4; rock3] (set_bullets [shot_young] world0).
Definition display_crash : list event -> Z -> Z -> option Z :=
  fun _ h _ => if h =? 1 then Some 3 else None.

(** Ship, bullet and asteroid one step from the right edge. *)
Definition edge_ship : object :=
  mkObject 1 (mkPoint 799 300) (mkPoint 1 0) 0 0 0 0 0.
Definition edge_shot : object :=
  mkObject 7 (mkPoint 799 300) (mkPoint 1 0) 0 0 0 BULLET_SIZE 0.
Definition edge_rock : object :=
  mkObject 3 (mkPoint 799 300) (mkPoint 1 0) 0 0 0 3 0.
Definition world_edge : world :=
  set_ship edge_ship
    (set_asteroids [edge_rock] (set_bullets [edge_shot] world0)).

Definition world_shots : world := set_bullets [shot_old; shot_young] world0.

Definition world_rocks : world :=
  set_asteroids [rock4; rock3; rock3'] (set_bullets [shot7] world0).

(** A platform for the samples: a flat sine and cosine table, a stream
    that counts, and a 1 ms tick. *)
Definition flat : Z -> Q := fun _ => 0%Q.
Definition counting : Z -> nat -> Z := fun seed n => seed + Z.of_nat n.

Definition left_and_thrust : Z := 125.

(** ** More vocabulary *)

(** The events that only move or turn a sprite, or put the task to sleep. *)
Definition is_draw (e : event) : Prop :=
  match e with
  | SpriteSetPosition _ _ _ | SpriteSetRotation _ _ | TaskDelay _ => True
  | _ => False
  end.

(** The events that make a sprite or put one into a group. *)
Definition is_make (e : event) : Prop :=
  match e with
  | SpriteCreate _ _ _ _ _ _ _ _ | GroupAddSprite _ _ => True
  | _ => False
  end.

(** The number of bullet hits it takes to clear an asteroid of a given
    size together with everything it breaks into. *)
Definition hits_to_clear (size : Z) : Z :=
  if size =? 3 then 13 else if size =? 2 then 4 else 1.

Definition hits_left (l : list object) : Z :=
  fold_right (fun a n => hits_to_clear (size a) + n) 0 l.

Definition valid_size (s : Z) : Prop := 1 <= s <= 3.

(** Velocity components from [-V] to [V - 0.2], a heading from 0 to 359
    and a turn rate from [-A] to [A - 1]. *)
Definition kinematics_ok (V A : Z) (k : object) : Prop :=
  (- inject_Z V <= px (vel k) <= inject_Z V - (1 # 5))%Q
  /\ (- inject_Z V <= py (vel k) <= inject_Z V - (1 # 5))%Q
  /\ 0 <= angle k < 360
  /\ - A <= a_vel k <= A - 1.

(** The same with a margin on the velocity: components from [-V] to [V]. *)
Definition kinematics_within (V A : Z) (k : object) : Prop :=
  (- inject_Z V <= px (vel k) <= inject_Z V)%Q
  /\ (- inject_Z V <= py (vel k) <= inject_Z V)%Q
  /\ 0 <= angle k < 360
  /\ - A <= a_vel k <= A - 1.

(** The trace of [w'] shows the sprite of [k] being made, square with the
    given side, at the position and heading of [k], from one of the three
    asteroid images, and being put into the group [g]. *)
Definition sprite_made (w' : world) (g side : Z) (k : object) : Prop :=
  (exists img : string,
     (img = "a1.png"%string \/ img = "a2.png"%string
      \/ img = "a3.png"%string)
     /\ In (SpriteCreate img (px (pos k)) (py (pos k)) (angle k) side side 1
              (handle k)) (trace w'))
  /\ In (GroupAddSprite g (handle k)) (trace w').

(** A start coordinate on an axis of half length [half]: on the screen and
    at least [DEAD_ZONE_OVER_2] away from the middle. *)
Definition start_ok (half c : Z) : Prop :=
  0 <= c < half - DEAD_ZONE_OVER_2 \/ half + DEAD_ZONE_OVER_2 <= c < 2 * half.

Definition placed_start (k : object) : Prop :=
  exists x y : Z,
    pos k = mkPoint (inject_Z x) (inject_Z y)
    /\ start_ok (Z.shiftr SCREEN_W 1) x /\ start_ok (Z.shiftr SCREEN_H 1) y.

(** ** What a whole pass keeps

    The passes are taken one at a time, each from its start to its end:
    what a task does when another one runs inside its pass is not part of
    these statements. *)

Definition asteroid_ok (a : object) : Prop :=
  valid_size (size a) /\ on_screen (pos a)
  /\ (-4 <= px (vel a) <= 4)%Q /\ (-4 <= py (vel a) <= 4)%Q.

Definition bullet_ok (b : object) : Prop :=
  on_screen (pos b)
  /\ (-6 <= px (vel b) <= 6)%Q /\ (-6 <= py (vel b) <= 6)%Q
  /\ 0 <= life b < BULLET_LIFE_MS.

Definition ship_ok (s : object) : Prop :=
  on_screen (pos s) /\ 0 <= angle s < 360
  /\ (a_vel s = 6 \/ a_vel s = -6 \/ a_vel s = 0)
  /\ (accel s = SHIP_ACCEL \/ accel s = 0%Q)
  /\ (px (vel s) * px (vel s) + py (vel s) * py (vel s)
      <= SHIP_MAX_VEL * SHIP_MAX_VEL)%Q.

Definition game_ok (w : world) : Prop :=
  ship_ok (ship w) /\ Forall bullet_ok (bullets w)
  /\ Forall asteroid_ok (asteroids w) /\ rng_ok w.

(** ** More sample states *)

(** The ship about to pass heading 360. *)
Definition world_turning : world :=
  set_ship (set_a_vel 6 (set_angle 358 ship0)) world0.

(** The cosine of heading 0. *)
Definition plus_one : Z -> Q := fun _ => 1%Q.

(** A stream for each seed with values from 0 on. *)
Definition counting_up : Z -> nat -> Z := fun seed n => Z.abs seed + Z.of_nat n.

(** The fire button held for the first 700 ms only. *)
Definition held_700 : Z -> Z := fun t => if t <? 700 then 0 else 1.

(** A display that never reports a collision. *)
Definition display_none : list event -> Z -> Z -> option Z :=
  fun _ _ _ => None.

Definition pebble3 : object :=
  mkObject 3 (mkPoint 400 300) (mkPoint 0 0) 0 0 0 1 0.
Definition world_last : world :=
  set_asteroids [pebble3] (set_bullets [shot7] world0).

Definition world_shot : world := set_bullets [shot7] world0.

(** Three bullets in flight, the middle one being the bullet the sample
    display reports, with three asteroids and with one. *)
Definition world_volley : world :=
  set_bullets [shot_young; shot7; shot_old] world_rocks.

(** ** Sprites on the display *)

(** The sprite handles the game holds: the ship, the background, the
    bullets and the asteroids. *)
Definition held (w : world) : list Z :=
  handle (ship w) :: background w
    :: map handle (bullets w) ++ map handle (asteroids w).

(** Whether the sprite [h] is on the display after the calls of a trace
    (newest first): it was made and has not been deleted since. *)
Fixpoint alive (tr : list event) (h : Z) : bool :=
  match tr with
  | [] => false
  | SpriteCreate _ _ _ _ _ _ _ r :: t => (r =? h) || alive t h
  | SpriteDelete d :: t => negb (d =? h) && alive t h
  | _ :: t => alive t h
  end.

(** Every call of a trace that names a sprite named one that was on the
    display at the time: each deletion, move, turn and entry into a group
    is of a sprite made and not deleted before, so no sprite is deleted
    twice or used after its deletion, and each creation returns a handle
    no sprite on the display has. *)
Fixpoint tidy (tr : list event) : Prop :=
  match tr with
  | [] => True
  | e :: t =>
    tidy t
    /\ match e with
       | SpriteCreate _ _ _ _ _ _ _ r => alive t r = false
       | SpriteDelete h | SpriteSetPosition h _ _ | SpriteSetRotation h _
       | GroupAddSprite _ h => alive t h = true
       | _ => True
       end
  end.

(** An event that makes and deletes no sprite and names only sprites
    among [hs]. *)
Definition harmless (hs : list Z) (e : event) : Prop :=
  match e with
  | SpriteCreate _ _ _ _ _ _ _ _ | SpriteDelete _ | GroupCreate _ => False
  | SpriteSetPosition h _ _ | SpriteSetRotation h _ | GroupAddSprite _ h =>
    In h hs
  | _ => True
  end.

(** The handles [hs] are one for each sprite on the display, the display
    has handed out none from [n] on, and the trace is tidy. *)
Definition book (hs : list Z) (tr : list event) (n : Z) : Prop :=
  NoDup hs
  /\ (forall h : Z, In h hs <-> alive tr h = true)
  /\ (forall h : Z, alive tr h = true -> h < n)
  /\ tidy tr.

Definition sprites_ok (w : world) : Prop :=
  book (held w) (trace w) (next_handle w).

(** The same with the asteroid list as the global has it and the other
    handles given: [ship], [background] and [bullets] are as in [w0]. *)
Definition rocks_book (others : list Z) (w0 w : world) : Prop :=
  book (others ++ map handle (asteroids w)) (trace w) (next_handle w)
  /\ ship w = ship w0 /\ background w = background w0
  /\ bullets w = bullets w0.

(** ** The serial driver of [usart.c]

    The driver is embedded on a state of its own: the registers of the
    USART it writes, the queue behind [xUsartQueue] and the bytes stored
    into [UDR0].  The queue is the FreeRTOS queue as its interface
    describes it: a fixed number of slots, items taken out in the order
    they were put in, a send with block time 0 that gives up when no slot
    is free and a receive with [portMAX_DELAY] that waits for an item.
    The status bits of [UCSR0A] are set by the hardware: what the polling
    loops read is a parameter, as are the bit numbers of [avr/io.h].
    [USART_Write_Task] hands its handle to [xQueueReceive] without a test
    and does not look at the result: what the call does when the handle
    is null is a parameter too. *)

Definition u32 (z : Z) : Z := z mod 4294967296.

(** The number of slots given to [xQueueCreate]. *)
Definition USART_QUEUE_LENGTH : Z := 150.

Record usart : Type := mkUsart {
  UBRR0H : Z;
  UBRR0L : Z;
  UCSR0A : Z;
  UCSR0B : Z;
  UCSR0C : Z;
  xUsartQueue : option (list Z);  (* [None] is the null handle; oldest first *)
  UDR0 : list Z;                  (* the bytes stored into [UDR0], newest first *)
  polls : nat                     (* reads of [UCSR0A] by the loops so far *)
}.

(** Why a call does not return. *)
Inductive stop : Type :=
| DivisionByZero   (* [baudin] is 0 *)
| NullQueue        (* the queue has not been created *)
| QueueEmpty       (* the receive waits for an item *)
| StillWaiting.    (* the polling loop has not seen its bit yet *)

Inductive result (A : Type) : Type :=
| Ok (a : A)
| Stopped (why : stop).
Arguments Ok {A} a.
Arguments Stopped {A} why.

(** [xQueueSendToBack] with block time 0. *)
Definition xQueueSendToBack (q : list Z) (item : Z) : list Z :=
  if Z.of_nat (length q) <? USART_QUEUE_LENGTH then q ++ [item] else q.

Section Usart.

Variable RXEN0 TXEN0 UCSZ01 UCSZ00 U2X0 UDRE0 RXC0 : Z.
Variable status : nat -> Z.     (* the value of [UCSR0A] at each read *)
Variable received : nat -> Z.   (* the value of [UDR0] after that many reads *)

(** [xQueueReceive] handed the null handle: whether it returns, and if it
    does, the value [uart_data] holds then and the state it leaves. *)
Variable null_receive : usart -> result (Z * usart).

(** [baudin] is a [uint16_t] and [clk_speedin] a [uint32_t]; the
    arithmetic is that of [unsigned long].  [xQueueCreate] is taken to
    find the memory it asks for. *)
Definition USART_Init (baudin clk_speedin : Z) (s : usart) : result usart :=
  if baudin =? 0 then Stopped DivisionByZero
  else
    let ubrr := u32 (clk_speedin / 16 / baudin - 1) in
    Ok (mkUsart (u8 (Z.shiftr ubrr 8)) (u8 ubrr)
          (u8 (Z.land (UCSR0A s) (Z.lnot (Z.shiftl 1 U2X0))))
          (u8 (Z.lor (Z.shiftl 1 RXEN0) (Z.shiftl 1 TXEN0)))
          (u8 (Z.lor (Z.shiftl 1 UCSZ01) (Z.shiftl 1 UCSZ00)))
          (Some []) (UDR0 s) (polls s)).

Definition USART_Write (data : Z) (s : usart) : result usart :=
  match xUsartQueue s with
  | None => Stopped NullQueue
  | Some q =>
    Ok (mkUsart (UBRR0H s) (UBRR0L s) (UCSR0A s) (UCSR0B s) (UCSR0C s)
          (Some (xQueueSendToBack q data)) (UDR0 s) (polls s))
  end.

(** [while (!(UCSR0A & (1 << bit)));] started after [n] reads: the number
    of reads when the loop is left. *)
Fixpoint wait_bit (bit : Z) (fuel n : nat) : result nat :=
  match fuel with
  | O => Stopped StillWaiting
  | S k =>
    if Z.land (status n) (Z.shiftl 1 bit) =? 0 then wait_bit bit k (S n)
    else Ok (S n)
  end.

Definition USART_Write_Unprotected (fuel : nat) (data : Z) (s : usart)
    : result usart :=
  match wait_bit UDRE0 fuel (polls s) with
  | Stopped why => Stopped why
  | Ok n =>
    Ok (mkUsart (UBRR0H s) (UBRR0L s) (UCSR0A s) (UCSR0B s) (UCSR0C s)
          (xUsartQueue s) (data :: UDR0 s) n)
  end.

Definition USART_Read (fuel : nat) (s : usart) : result (Z * usart) :=
  match wait_bit RXC0 fuel (polls s) with
  | Stopped why => Stopped why
  | Ok n =>
    Ok (u8 (received n),
        mkUsart (UBRR0H s) (UBRR0L s) (UCSR0A s) (UCSR0B s) (UCSR0C s)
          (xUsartQueue s) (UDR0 s) n)
  end.

(** One pass of the loop of [USART_Write_Task]: the receive, the result
    of which is not looked at, and the write of [uart_data]. *)
Definition USART_Write_Task_pass (fuel : nat) (s : usart) : result usart :=
  match xUsartQueue s with
  | None =>
    match null_receive s with
    | Stopped why => Stopped why
    | Ok (uart_data, s1) => USART_Write_Unprotected fuel uart_data s1
    end
  | Some [] => Stopped QueueEmpty
  | Some (uart_data :: q) =>
    USART_Write_Unprotected fuel uart_data
      (mkUsart (UBRR0H s) (UBRR0L s) (UCSR0A s) (UCSR0B s) (UCSR0C s)
         (Some q) (UDR0 s) (polls s))
  end.

Fixpoint USART_Write_Task_run (passes fuel : nat) (s : usart)
    : result usart :=
  match passes with
  | O => Ok s
  | S k =>
    match USART_Write_Task_pass fuel s with
    | Stopped why => Stopped why
    | Ok s1 => USART_Write_Task_run k fuel s1
    end
  end.

(** Calls of [USART_Write], one for each byte of a list. *)
Fixpoint USART_Write_all (l : list Z) (s : usart) : result usart :=
  match l with
  | [] => Ok s
  | d :: rest =>
    match USART_Write d s with
    | Stopped why => Stopped why
    | Ok s1 => USART_Write_all rest s1
    end
  end.

End Usart.

(** The transmitter shows its buffer empty within [K] reads of the
    status register, whenever the reading starts. *)
Definition ready_within (status : nat -> Z) (UDRE0 : Z) (K : nat) : Prop :=
  forall n : nat,
  exists k : nat,
    (k < K)%nat /\ Z.land (status (n + k)%nat) (Z.shiftl 1 UDRE0) <> 0.

(** Samples: a state before [USART_Init] in which double speed is on, and
    a status register whose bits come up at every third read. *)
Definition usart0 : usart := mkUsart 0 0 34 0 6 None [] 0.
Definition status_slow : nat -> Z :=
  fun n => if (n mod 3 =? 2)%nat then 255 else 0.

(** A receive that does not return on the null handle. *)
Definition null_receive_stuck : usart -> result (Z * usart) :=
  fun _ => Stopped NullQueue.

(** The driver after [USART_Init], with two bytes queued, and with the
    older of them sent. *)
Definition usart_open : usart := mkUsart 0 103 32 24 6 (Some []) [] 0.
Definition usart_queued : usart :=
  mkUsart 0 103 32 24 6 (Some [72; 105]) [] 0.
Definition usart_sent : usart :=
  mkUsart 0 103 32 24 6 (Some [105]) [72] 3.

(** * Properties *)

Ltac unfold_m :=
  unfold exec, bind, get, modify, ret, emit, rand, rand_spread, xSpriteCreate,
    xGroupCreate, vSpriteDelete, vSpriteSetPosition, vSpriteSetRotation,
    vGroupAddSprite, vGroupDelete, vPortFree, vTaskSuspend, vTaskResume,
    vTaskDelay, emit, modify in *.

Ltac world_simpl :=
  cbn [fst snd ship bullets asteroids astGroup background next_handle rng
       trace set_ship set_bullets set_asteroids set_astGroup set_background
       set_next_handle set_rng set_trace] in *.

(** ** Sequencing *)

Lemma exec_bind {A B : Type} (c : M A) (k : A -> M B) (w : world) :
  exec (bind c k) w = exec (k (fst (c w))) (exec c w).
Proof. unfold exec, bind. destruct (c w). reflexivity. Qed.

Lemma exec_seq {B : Type} (c : M unit) (k : M B) (w : world) :
  exec (c ;; k) w = exec k (exec c w).
Proof. apply exec_bind. Qed.

Lemma exec_emit {B : Type} (e : event) (k : unit -> M B) (w : world) :
  exec (bind (emit e) k) w = exec (k tt) (set_trace (e :: trace w) w).
Proof. reflexivity. Qed.

Lemma exec_xSpriteCreate {B : Type} (img : string) (x y : Q)
    (rot wd ht depth : Z) (k : Z -> M B) (w : world) :
  exec (bind (xSpriteCreate img x y rot wd ht depth) k) w
  = exec (k (next_handle w))
      (set_trace (SpriteCreate img x y rot wd ht depth (next_handle w)
                    :: trace w)
         (set_next_handle (next_handle w + 1) w)).
Proof. reflexivity. Qed.

Lemma exec_xGroupCreate {B : Type} (k : Z -> M B) (w : world) :
  exec (bind xGroupCreate k) w
  = exec (k (next_handle w))
      (set_trace (GroupCreate (next_handle w) :: trace w)
         (set_next_handle (next_handle w + 1) w)).
Proof. reflexivity. Qed.

Lemma exec_get {A B : Type} (f : world -> A) (k : A -> M B) (w : world) :
  exec (bind (get f) k) w = exec (k (f w)) w.
Proof. reflexivity. Qed.

Lemma exec_modify {B : Type} (f : world -> world) (k : unit -> M B)
    (w : world) :
  exec (bind (modify f) k) w = exec (k tt) (f w).
Proof. reflexivity. Qed.

Lemma exec_ret {A : Type} (a : A) (w : world) : exec (ret a) w = w.
Proof. reflexivity. Qed.

(** ** Machine arithmetic *)

Lemma i8_small (z : Z) : -128 <= z < 128 -> i8 z = z.
Proof. intros H. unfold i8. rewrite Z.mod_small; lia. Qed.

Lemma u8_small (z : Z) : 0 <= z < 256 -> u8 z = z.
Proof. intros H. unfold u8. apply Z.mod_small; lia. Qed.

Lemma u16_small (z : Z) : 0 <= z < 65536 -> u16 z = z.
Proof. intros H. unfold u16. apply Z.mod_small; lia. Qed.

Lemma u8_i8 (z : Z) : u8 (i8 z) = u8 z.
Proof.
  unfold u8, i8.
  rewrite Zminus_mod, Zmod_mod, <- Zminus_mod.
  replace (z + 128 - 128) with z by lia. reflexivity.
Qed.

Lemma Qltb_true (a b : Q) : Qltb a b = true <-> (a < b)%Q.
Proof.
  unfold Qltb. rewrite negb_true_iff, <- not_true_iff_false, Qle_bool_iff.
  split; [apply Qnot_le_lt | apply Qlt_not_le].
Qed.

Lemma Qltb_false (a b : Q) : Qltb a b = false <-> (b <= a)%Q.
Proof.
  unfold Qltb. rewrite negb_false_iff. apply Qle_bool_iff.
Qed.

(** The random offsets of [spawnAsteroid] lie in [-m, m - 1/5]. *)
Lemma spread_bounds (m r : Z) :
  0 <= r -> 0 < m <= 12 ->
  (- inject_Z m <= spread m r <= inject_Z m - (1 # 5))%Q.
Proof.
  intros Hr Hm. unfold spread. rewrite i8_small by lia.
  pose proof (Z.rem_bound_pos r (m * 10) Hr ltac:(lia)) as Hb.
  set (k := Z.rem r (m * 10)) in *.
  assert (Hk : (inject_Z k / 5 == k # 5)%Q).
  { unfold Qdiv, Qeq, inject_Z. cbn. lia. }
  rewrite Hk. unfold Qle, Qminus, Qplus, Qopp, inject_Z. cbn. lia.
Qed.

(** ** Decomposition of an asteroid *)

(** One round of the loop of [spawnAsteroid] puts one node in front of the
    asteroid list and touches neither the ship nor the bullets. *)
Lemma spawn_one_spec (p : point) (s v a : Z) (w : world) :
  let w' := exec (spawn_one p s v a) w in
  exists kid,
    asteroids w' = kid :: asteroids w
    /\ pos kid = p /\ size kid = u8 (s - 1)
    /\ vel kid = mkPoint (spread v (rng w 0%nat)) (spread v (rng w 1%nat))
    /\ handle kid = next_handle w
    /\ bullets w' = bullets w /\ ship w' = ship w
    /\ astGroup w' = astGroup w
    /\ next_handle w' = next_handle w + 1
    /\ (rng_ok w -> rng_ok w').
Proof.
  unfold spawn_one, createAsteroid. unfold_m. world_simpl.
  eexists. split; [reflexivity|]. cbn [pos size vel handle].
  rewrite u8_i8. destruct p. repeat split.
  intros H n. apply H.
Qed.

Lemma spawnAsteroid_spec (p : point) (s : Z) (w : world) :
  let w' := exec (spawnAsteroid p s) w in
  exists kids,
    asteroids w' = kids ++ asteroids w
    /\ length kids = (if 1 <? s then 3%nat else 0%nat)
    /\ Forall (fun k => pos k = p /\ size k = u8 (s - 1)
                 /\ (rng_ok w -> exists r1 r2, 0 <= r1 /\ 0 <= r2 /\
                       vel k = mkPoint (spread (fst (spawn_limits s)) r1)
                                       (spread (fst (spawn_limits s)) r2)))
              kids
    /\ bullets w' = bullets w /\ ship w' = ship w
    /\ astGroup w' = astGroup w
    /\ (rng_ok w -> rng_ok w').
Proof.
  unfold spawnAsteroid. destruct (1 <? s) eqn:Hs.
  - destruct (spawn_limits s) as [v a] eqn:Hl. cbn [fst repeatM].
    rewrite !exec_seq, exec_ret.
    set (w1 := exec (spawn_one p s v a) w).
    set (w2 := exec (spawn_one p s v a) w1).
    set (w3 := exec (spawn_one p s v a) w2).
    pose proof (spawn_one_spec p s v a w) as H1.
    pose proof (spawn_one_spec p s v a w1) as H2.
    pose proof (spawn_one_spec p s v a w2) as H3.
    cbv zeta in H1, H2, H3. fold w1 in H1. fold w2 in H2. fold w3 in H3.
    clearbody w1 w2 w3.
    destruct H1 as (k1 & A1 & P1 & S1 & V1 & _ & B1 & Sh1 & G1 & _ & R1).
    destruct H2 as (k2 & A2 & P2 & S2 & V2 & _ & B2 & Sh2 & G2 & _ & R2).
    destruct H3 as (k3 & A3 & P3 & S3 & V3 & _ & B3 & Sh3 & G3 & _ & R3).
    exists [k3; k2; k1].
    repeat split; try congruence.
    + rewrite A3, A2, A1. reflexivity.
    + assert (K : forall k u, rng_ok u ->
                vel k = mkPoint (spread v (rng u 0%nat))
                                (spread v (rng u 1%nat)) ->
                exists r1 r2, 0 <= r1 /\ 0 <= r2 /\
                  vel k = mkPoint (spread v r1) (spread v r2)).
      { intros k u Hu Hv. exists (rng u 0%nat), (rng u 1%nat). auto. }
      repeat constructor; auto; intros Hok.
      * apply (K k3 w2); auto.
      * apply (K k2 w1); auto.
      * apply (K k1 w); auto.
    + auto.
  - exists []. unfold exec, ret. cbn. repeat split; auto.
Qed.

(** C1. Destroying an asteroid of size 1, 2 or 3: [spawnAsteroid] adds no
    asteroid when the size is 1 and exactly three when it is 2 or 3, each
    of size [s - 1] and at the position of the destroyed asteroid; the
    asteroids already in the list stay, and no asteroid of size 0 is
    made. *)
Theorem spawnAsteroid_decomposition (p : point) (s : Z) (w : world) :
  1 <= s <= 3 ->
  exists kids,
    asteroids (exec (spawnAsteroid p s) w) = kids ++ asteroids w
    /\ length kids = (if s =? 1 then 0%nat else 3%nat)
    /\ Forall (fun k => size k = s - 1 /\ pos k = p /\ size k <> 0) kids.
Proof.
  intros Hs.
  destruct (spawnAsteroid_spec p s w) as (kids & Ha & Hl & Hk & _).
  exists kids. split; [exact Ha|]. split.
  - rewrite Hl. destruct (s =? 1) eqn:E1; destruct (1 <? s) eqn:E2; lia.
  - destruct (1 <? s) eqn:E2.
    + eapply Forall_impl; [|exact Hk]. cbn. intros k (Hp & Hz & _).
      rewrite u8_small in Hz by lia. repeat split; auto; lia.
    + destruct kids; [constructor | discriminate].
Qed.

(** Whatever size the [uint8_t] argument has, no asteroid of size 0 is
    made. *)
Lemma spawnAsteroid_never_size0 (p : point) (s : Z) (w : world) :
  0 <= s < 256 ->
  exists kids : list object,
    asteroids (exec (spawnAsteroid p s) w) = kids ++ asteroids w
    /\ Forall (fun k => 1 <= size k) kids.
Proof.
  intros Hs.
  destruct (spawnAsteroid_spec p s w) as (kids & Ha & Hl & Hk & _).
  exists kids. split; [exact Ha|].
  destruct (1 <? s) eqn:E.
  - apply Z.ltb_lt in E. eapply Forall_impl; [|exact Hk]. cbn.
    intros k (_ & Hz & _). rewrite Hz, u8_small; lia.
  - destruct kids; [constructor | discriminate].
Qed.

(** ** The input sampler *)

(** C8. One pass of [inputTask]: the turn rate of the ship becomes +6 when
    left is pressed (also when right is pressed too), -6 when only right
    is pressed and 0 when neither is; the thrust becomes [SHIP_ACCEL]
    when the thrust button is pressed and 0 otherwise.  Nothing else of
    the game state changes. *)
Theorem inputTask_intent (pinb : Z) (w : world) (left right thrust fire : bool) :
  LEFT_BUTTON pinb = left -> RIGHT_BUTTON pinb = right ->
  ACCEL_BUTTON pinb = thrust -> SHOOT_BUTTON pinb = fire ->
  let w' := exec (inputTask_pass pinb) w in
  a_vel (ship w') = (if left then 6 else if right then -6 else 0)
  /\ accel (ship w') = (if thrust then SHIP_ACCEL else 0%Q)
  /\ pos (ship w') = pos (ship w) /\ vel (ship w') = vel (ship w)
  /\ angle (ship w') = angle (ship w)
  /\ bullets w' = bullets w /\ asteroids w' = asteroids w.
Proof.
  intros Hl Hr Ht _. unfold inputTask_pass. unfold_m. world_simpl.
  rewrite Hl, Hr, Ht.
  destruct left, right, thrust; cbn; repeat split; reflexivity.
Qed.

(** Every combination of the four inputs is a value of the port. *)
Lemma buttons_realisable (left right thrust fire : bool) :
  exists pinb, 0 <= pinb < 256
    /\ LEFT_BUTTON pinb = left /\ RIGHT_BUTTON pinb = right
    /\ ACCEL_BUTTON pinb = thrust /\ SHOOT_BUTTON pinb = fire.
Proof.
  exists ((if left then 0 else 128) + (if right then 0 else 64)
          + (if thrust then 0 else 2) + (if fire then 0 else 1)).
  destruct left, right, thrust, fire; cbn; repeat split; lia.
Qed.

(** ** The trace only grows *)

Lemma suffix_here {A : Type} (l : list A) : exists p : list A, l = p ++ l.
Proof. exists []. reflexivity. Qed.

Lemma suffix_cons {A : Type} (x : A) (l r : list A) :
  (exists p : list A, l = p ++ r) -> exists p : list A, x :: l = p ++ r.
Proof. intros [p H]. exists (x :: p). rewrite H. reflexivity. Qed.

Lemma suffix_app {A : Type} (q l r : list A) :
  (exists p : list A, l = p ++ r) -> exists p : list A, q ++ l = p ++ r.
Proof. intros [p H]. exists (q ++ p). rewrite H, app_assoc. reflexivity. Qed.

Ltac trace_suffix :=
  repeat first [apply suffix_here | apply suffix_cons | apply suffix_app].

Lemma extends_refl (w : world) : extends w w.
Proof. exists []. reflexivity. Qed.

Lemma extends_trans (w1 w2 w3 : world) :
  extends w1 w2 -> extends w2 w3 -> extends w1 w3.
Proof.
  intros [e1 H1] [e2 H2]. exists (e2 ++ e1).
  rewrite H2, H1, app_assoc. reflexivity.
Qed.

(** ** A bullet hits an asteroid *)

Lemma scan_asteroids_miss (hit : Z) (l before : list object) (w : world) :
  Forall (fun x => handle x <> hit) l ->
  scan_asteroids hit before l w = (tt, w).
Proof.
  revert before. induction l as [|a rest IH]; intros before H.
  - reflexivity.
  - inversion H as [|? ? Ha Hrest]; subst. cbn [scan_asteroids].
    destruct (handle a =? hit) eqn:E; [apply Z.eqb_eq in E; contradiction|].
    apply IH, Hrest.
Qed.

Lemma scan_asteroids_match (hit : Z) (pre suf before : list object)
    (a : object) (w : world) :
  Forall (fun x => handle x <> hit) pre -> handle a = hit ->
  exec (scan_asteroids hit before (pre ++ a :: suf)) w
  = exec (spawnAsteroid (pos a) (size a))
      (set_trace (PortFree a :: SpriteDelete (handle a) :: trace w)
         (set_asteroids (before ++ pre ++ suf) w)).
Proof.
  revert before. induction pre as [|x pre IH]; intros before Hpre Ha.
  - cbn [app scan_asteroids]. rewrite (proj2 (Z.eqb_eq _ _) Ha).
    rewrite !exec_bind. unfold_m. world_simpl. reflexivity.
  - inversion Hpre as [|? ? Hx Hrest]; subst. cbn [app scan_asteroids].
    destruct (handle x =? handle a) eqn:E;
      [apply Z.eqb_eq in E; contradiction|].
    rewrite IH by auto. rewrite <- !app_assoc. reflexivity.
Qed.

Lemma set_trace_same (w : world) : set_trace (trace w) w = w.
Proof. destruct w; reflexivity. Qed.

Lemma only_trace_refl (w : world) : only_trace w w.
Proof. exists []. symmetry. apply set_trace_same. Qed.

Lemma only_trace_trans (w1 w2 w3 : world) :
  only_trace w1 w2 -> only_trace w2 w3 -> only_trace w1 w3.
Proof.
  intros [e1 H1] [e2 H2]. exists (e2 ++ e1). subst.
  world_simpl. rewrite app_assoc. reflexivity.
Qed.

Lemma draw_ship_only_trace (w : world) : only_trace w (exec draw_ship w).
Proof.
  unfold draw_ship. unfold_m. world_simpl. eexists [_; _]. reflexivity.
Qed.

Lemma draw_asteroids_only_trace (l : list object) (w : world) :
  only_trace w (exec (draw_asteroids l) w).
Proof.
  revert w. induction l as [|a rest IH]; intros w.
  - apply only_trace_refl.
  - cbn [draw_asteroids]. rewrite !exec_bind.
    eapply only_trace_trans; [|apply IH].
    unfold_m. world_simpl. eexists [_; _]. reflexivity.
Qed.

(** ** The end of a session *)

Lemma free_all_spec (l : list object) (w : world) :
  free_all l w = (tt, set_trace (free_events l ++ trace w) w).
Proof.
  revert w. induction l as [|o rest IH]; intros w.
  - destruct w; reflexivity.
  - cbn [free_all free_events]. unfold_m. world_simpl. rewrite IH.
    world_simpl. rewrite <- app_assoc. reflexivity.
Qed.

Lemma In_free_events (l : list object) (o : object) :
  In o l ->
  In (SpriteDelete (handle o)) (free_events l)
  /\ In (PortFree o) (free_events l).
Proof.
  induction l as [|a rest IH]; intros Hin; [destruct Hin|].
  cbn [free_events]. rewrite !in_app_iff. destruct Hin as [-> | Hin].
  - split; right; cbn; auto.
  - split; left; apply IH; exact Hin.
Qed.

(** [reset]: every asteroid and bullet sprite is deleted and its node
    freed, then the sprites of the ship and of the background go. *)
Lemma reset_spec (w : world) :
  exec reset w
  = set_bullets [] (set_asteroids []
      (set_trace
         (SpriteDelete (background w) :: SpriteDelete (handle (ship w))
            :: free_events (bullets w)
            ++ GroupDelete (astGroup w) :: free_events (asteroids w)
            ++ trace w) w)).
Proof.
  unfold reset, exec, bind, get. rewrite free_all_spec.
  unfold modify, vGroupDelete, emit, modify. world_simpl.
  rewrite free_all_spec. unfold vSpriteDelete, emit, modify. world_simpl.
  reflexivity.
Qed.

Lemma init_one_spec (w : world) :
  let w' := exec init_one w in
  exists kid,
    asteroids w' = kid :: asteroids w /\ size kid = 3
    /\ bullets w' = bullets w /\ ship w' = ship w /\ extends w w'.
Proof.
  unfold init_one, getRandStartPosVal, rand_spreadQ, createAsteroid, extends.
  unfold_m. world_simpl. eexists. split; [reflexivity|].
  repeat split. eexists [_; _]. reflexivity.
Qed.

Lemma init_loop_spec (n : nat) (w : world) :
  let w' := exec (repeatM n init_one) w in
  exists kids : list object,
    asteroids w' = kids ++ asteroids w /\ length kids = n
    /\ Forall (fun k => size k = 3) kids
    /\ bullets w' = bullets w /\ ship w' = ship w /\ extends w w'.
Proof.
  revert w. induction n as [|n IH]; intros w.
  - exists []. repeat split; auto using extends_refl.
  - cbn [repeatM]. cbv zeta. rewrite exec_seq.
    destruct (init_one_spec w) as (kid & Ha & Hs & Hb & Hsh & He).
    set (w1 := exec init_one w) in *.
    destruct (IH w1) as (kids & Ha' & Hl & Hall & Hb' & Hsh' & He').
    exists (kids ++ [kid]). repeat split.
    + rewrite Ha', Ha, <- app_assoc. reflexivity.
    + rewrite length_app, Hl. cbn. lia.
    + apply Forall_app. split; [exact Hall|]. repeat constructor. exact Hs.
    + congruence.
    + congruence.
    + eapply extends_trans; eassumption.
Qed.

Lemma exec_modify_last (f : world -> world) (w : world) :
  exec (modify f) w = f w.
Proof. reflexivity. Qed.

Section Integrator.

Variable sin_deg cos_deg : Z -> Q.
Variable portTICK_RATE_MS : Z.

(** ** The thrust step *)

Lemma clamp_scale (vx vy v : Q) :
  (v == vx * vx + vy * vy)%Q -> (8 < v)%Q ->
  (vx * (8 / v) * (vx * (8 / v)) + vy * (8 / v) * (vy * (8 / v)) <= 8)%Q.
Proof.
  intros Hv Hlt.
  assert (Hnz : ~ (v == 0)%Q) by (intro H0; rewrite H0 in Hlt; lra).
  assert (Hk : ((8 / v) * v == 8)%Q) by (field; exact Hnz).
  assert (Hk1 : (8 / v <= 1)%Q).
  { apply Qle_shift_div_r; lra. }
  assert (Hk0 : (0 <= 8 / v)%Q).
  { apply Qle_shift_div_l; lra. }
  set (k := (8 / v)%Q) in *.
  assert (Heq : (vx * k * (vx * k) + vy * k * (vy * k) == k * (k * v))%Q)
    by (rewrite Hv; ring).
  rewrite Heq, Hk. lra.
Qed.

(** The velocity the thrust step leaves. *)
Lemma thrust_vel (s : object) :
  let vx := (px (vel s) + accel s * - sin_deg (angle s))%Q in
  let vy := (py (vel s) + accel s * - cos_deg (angle s))%Q in
  let v := (vx * vx + vy * vy)%Q in
  vel (thrust sin_deg cos_deg s)
  = if Qltb SHIP_MAX_VEL v
    then mkPoint (vx * (SHIP_MAX_VEL / v)) (vy * (SHIP_MAX_VEL / v))
    else mkPoint vx vy.
Proof.
  intros vx vy v. unfold thrust, Qgtb. fold vx vy v.
  destruct (Qltb SHIP_MAX_VEL v); reflexivity.
Qed.

(** The sum of the squared components is at most [SHIP_MAX_VEL] after the
    thrust step. *)
Lemma thrust_speed (s : object) :
  (px (vel (thrust sin_deg cos_deg s)) * px (vel (thrust sin_deg cos_deg s))
   + py (vel (thrust sin_deg cos_deg s)) * py (vel (thrust sin_deg cos_deg s))
   <= SHIP_MAX_VEL)%Q.
Proof.
  pose proof (thrust_vel s) as H1. cbv zeta in H1. rewrite H1.
  set (vx := (px (vel s) + accel s * - sin_deg (angle s))%Q).
  set (vy := (py (vel s) + accel s * - cos_deg (angle s))%Q).
  destruct (Qltb SHIP_MAX_VEL (vx * vx + vy * vy)) eqn:E; cbn [px py].
  - apply Qltb_true in E. unfold SHIP_MAX_VEL in *.
    apply clamp_scale; [reflexivity | exact E].
  - apply Qltb_false in E. exact E.
Qed.

(** C5. The thrust step of [updateTask]: the velocity grows by the thrust
    times [(-sin, -cos)] of the heading; the test compares the sum of the
    squared components with [SHIP_MAX_VEL] itself; when the sum is larger
    both components are multiplied by [SHIP_MAX_VEL] over that sum, and
    otherwise they are kept.  The squared sum that results is at most
    [SHIP_MAX_VEL], so the speed is below [SHIP_MAX_VEL]. *)
Theorem thrust_clamp (s : object) :
  let vx := (px (vel s) + accel s * - sin_deg (angle s))%Q in
  let vy := (py (vel s) + accel s * - cos_deg (angle s))%Q in
  let v := (vx * vx + vy * vy)%Q in
  let s' := thrust sin_deg cos_deg s in
  (vel s' = if Qltb SHIP_MAX_VEL v
            then mkPoint (vx * (SHIP_MAX_VEL / v)) (vy * (SHIP_MAX_VEL / v))
            else mkPoint vx vy)
  /\ (px (vel s') * px (vel s') + py (vel s') * py (vel s')
      <= SHIP_MAX_VEL)%Q
  /\ (px (vel s') * px (vel s') + py (vel s') * py (vel s')
      <= SHIP_MAX_VEL * SHIP_MAX_VEL)%Q.
Proof.
  intros vx vy v s'. pose proof (thrust_speed s) as H2. fold s' in H2.
  split; [apply thrust_vel|]. split; [exact H2|].
  unfold SHIP_MAX_VEL in *. lra.
Qed.

(** After the thrust step the ship is slower than 3 on each axis. *)
Lemma thrust_slow (s : object) : slow (vel (thrust sin_deg cos_deg s)).
Proof.
  pose proof (thrust_speed s) as H.
  set (x := px (vel (thrust sin_deg cos_deg s))) in *.
  set (y := py (vel (thrust sin_deg cos_deg s))) in *.
  unfold SHIP_MAX_VEL in H. unfold slow. fold x y.
  unfold SCREEN_W, SCREEN_H.
  assert (Hx : (-3 < x < 3)%Q) by (split; nra).
  assert (Hy : (-3 < y < 3)%Q) by (split; nra).
  change (inject_Z 800) with 800%Q. change (inject_Z 600) with 600%Q.
  lra.
Qed.

(** ** Integration and wrap *)

Lemma wrap_range (limit : Z) (c v : Q) :
  (0 <= c <= inject_Z limit)%Q ->
  (- inject_Z limit < v < inject_Z limit)%Q ->
  (0 <= wrap limit (c + v) <= inject_Z limit)%Q.
Proof.
  intros Hc Hv. unfold wrap, Qgtb.
  destruct (Qltb (c + v) 0) eqn:E1.
  - apply Qltb_true in E1. lra.
  - apply Qltb_false in E1.
    destruct (Qltb (inject_Z limit) (c + v)) eqn:E2.
    + apply Qltb_true in E2. lra.
    + apply Qltb_false in E2. lra.
Qed.

Lemma integrate_placed (o : object) : placed o -> placed (integrate o).
Proof.
  intros [[Hx Hy] [Hvx Hvy]]. unfold placed, integrate, on_screen.
  cbn [pos vel set_pos px py]. repeat split;
    try apply wrap_range; auto; try apply Hvx; try apply Hvy.
Qed.

Lemma age_placed (o : object) : placed o -> placed (age o).
Proof. intros H. exact H. Qed.

(** The list of bullets the loop of [updateTask] leaves, and the events it
    adds to the trace (newest first). *)
Lemma update_bullets_spec (l : list object) (w : world) :
  update_bullets l w
  = (survivors l, set_trace (expiry_events l ++ trace w) w).
Proof.
  revert w. induction l as [|b rest IH]; intros w.
  - destruct w; reflexivity.
  - cbn [update_bullets survivors expiry_events filter map].
    unfold expired. destruct (BULLET_LIFE_MS <=? life (age b)) eqn:E.
    + unfold_m. world_simpl. rewrite IH.
      cbn [negb]. world_simpl. rewrite <- app_assoc. reflexivity.
    + unfold bind. rewrite IH. cbn [negb map]. unfold ret.
      rewrite app_nil_r. reflexivity.
Qed.

Lemma survivors_app (l1 l2 : list object) :
  survivors (l1 ++ l2) = survivors l1 ++ survivors l2.
Proof. unfold survivors. rewrite filter_app, map_app. reflexivity. Qed.

Lemma survivors_placed (l : list object) :
  Forall placed l -> Forall placed (survivors l).
Proof.
  intros H. unfold survivors. apply Forall_map.
  apply Forall_forall. intros b Hb. apply filter_In in Hb as [Hb _].
  apply integrate_placed, age_placed.
  rewrite Forall_forall in H. auto.
Qed.

Lemma spin_pos (s : object) : pos (spin s) = pos s.
Proof.
  unfold spin. destruct (360 <=? _); [reflexivity|].
  destruct (_ <? 0); reflexivity.
Qed.

Lemma thrust_pos (s : object) : pos (thrust sin_deg cos_deg s) = pos s.
Proof. unfold thrust. destruct (Qgtb _ _); reflexivity. Qed.

(** A tick of [updateTask] as one step on the globals. *)
Lemma updateTask_pass_spec (w : world) :
  exec (updateTask_pass sin_deg cos_deg portTICK_RATE_MS) w
  = mkWorld (integrate (thrust sin_deg cos_deg (spin (ship w))))
            (survivors (bullets w))
            (map integrate (asteroids w))
            (astGroup w) (background w) (next_handle w) (rng w)
            (TaskDelay (Z.quot FRAME_DELAY_MS portTICK_RATE_MS)
               :: expiry_events (bullets w) ++ trace w).
Proof.
  unfold updateTask_pass, exec, bind, get, modify. world_simpl.
  rewrite update_bullets_spec. unfold vTaskDelay, emit, modify.
  world_simpl. reflexivity.
Qed.

Lemma updateTask_pass_on_screen (w : world) :
  world_on_screen w ->
  world_on_screen (exec (updateTask_pass sin_deg cos_deg portTICK_RATE_MS) w).
Proof.
  intros (Hs & Hb & Ha). rewrite updateTask_pass_spec.
  unfold world_on_screen. world_simpl. split; [|split].
  - apply (integrate_placed (thrust sin_deg cos_deg (spin (ship w)))).
    split; [|apply thrust_slow].
    rewrite thrust_pos, spin_pos. exact Hs.
  - apply survivors_placed, Hb.
  - apply Forall_map. eapply Forall_impl; [|exact Ha].
    intros a. apply integrate_placed.
Qed.

(** C2, as the code has it.  When the ship, the bullets and the asteroids
    are on the screen, far edges included (x from 0 to 800, y from 0 to
    600, both ends allowed), and every bullet and asteroid moves by less
    than the screen size per tick, they are all on the screen again
    after any number of ticks of [updateTask]. *)
Theorem wrap_keeps_on_screen (n : nat) (w : world) :
  world_on_screen w ->
  world_on_screen
    (Nat.iter n (exec (updateTask_pass sin_deg cos_deg portTICK_RATE_MS)) w).
Proof.
  intros H. induction n as [|n IH]; [exact H|].
  cbn [Nat.iter]. apply updateTask_pass_on_screen, IH.
Qed.

(** ** Bullet expiry *)

Lemma age_life (b : object) :
  0 <= life b < 65526 -> life (age b) = life b + FRAME_DELAY_MS.
Proof.
  intros H. unfold age. cbn [life set_life]. apply u16_small.
  unfold FRAME_DELAY_MS. lia.
Qed.

Lemma In_survivors (l : list object) (b' : object) :
  In b' (survivors l) <->
  exists b, In b l /\ expired b = false /\ b' = integrate (age b).
Proof.
  unfold survivors. rewrite in_map_iff. split.
  - intros (b & Hb & Hin). apply filter_In in Hin as [Hin He].
    exists b. rewrite negb_true_iff in He. auto.
  - intros (b & Hin & He & Hb). exists b. split; [auto|].
    apply filter_In. rewrite He. auto.
Qed.

Lemma In_expiry_events (l : list object) (e : event) :
  In e (expiry_events l) <->
  exists b, In b l /\ expired b = true
            /\ (e = PortFree (age b) \/ e = SpriteDelete (handle b)).
Proof.
  induction l as [|a rest IH]; cbn [expiry_events In].
  - split; [tauto | intros (b & [] & _)].
  - rewrite in_app_iff, IH. split.
    + intros [(b & Hin & He & Hb) | H].
      * exists b. auto.
      * destruct (expired a) eqn:Ea; [|destruct H].
        exists a. split; [auto|]. split; [auto|].
        destruct H as [H | [H | []]]; auto.
    + intros (b & [Hin | Hin] & He & Hb).
      * subst a. right. rewrite He. destruct Hb as [-> | ->]; cbn; auto.
      * left. exists b. auto.
Qed.

Lemma handle_determines (l : list object) (a b : object) :
  NoDup (map handle l) -> In a l -> In b l -> handle a = handle b -> a = b.
Proof.
  induction l as [|c rest IH]; cbn [map In]; intros Hnd Ha Hb Heq.
  - destruct Ha.
  - inversion Hnd as [|? ? Hnot Hnd']; subst.
    destruct Ha as [Ha | Ha], Hb as [Hb | Hb]; subst.
    + reflexivity.
    + exfalso. apply Hnot. rewrite Heq. apply in_map, Hb.
    + exfalso. apply Hnot. rewrite <- Heq. apply in_map, Ha.
    + apply IH; auto.
Qed.

(** C6. A tick of [updateTask] adds the tick length (10 ms) to the age of
    every bullet.  A bullet whose age reaches the time to live (1000 ms) on
    this tick is taken out on this tick: its sprite is deleted, it is no
    longer in the list and its node is freed.  A bullet whose age stays
    below, as one that is a tick younger, is still in the list afterwards
    and is not deleted. *)
Theorem bullet_expiry (w : world) (b : object) :
  In b (bullets w) ->
  NoDup (map handle (bullets w)) ->
  0 <= life b < BULLET_LIFE_MS ->
  let w' := exec (updateTask_pass sin_deg cos_deg portTICK_RATE_MS) w in
  life (age b) = life b + FRAME_DELAY_MS
  /\ (BULLET_LIFE_MS <= life b + FRAME_DELAY_MS ->
      ~ In (handle b) (map handle (bullets w'))
      /\ In (SpriteDelete (handle b)) (trace w')
      /\ In (PortFree (age b)) (trace w'))
  /\ (life b + FRAME_DELAY_MS < BULLET_LIFE_MS ->
      In (integrate (age b)) (bullets w')
      /\ handle (integrate (age b)) = handle b
      /\ ~ In (SpriteDelete (handle b)) (expiry_events (bullets w)))
  /\ trace w' = (TaskDelay (Z.quot FRAME_DELAY_MS portTICK_RATE_MS)
                   :: expiry_events (bullets w)) ++ trace w.
Proof.
  intros Hin Hnd Hlife w'.
  assert (Hage : life (age b) = life b + FRAME_DELAY_MS).
  { apply age_life. unfold BULLET_LIFE_MS in Hlife. lia. }
  subst w'. rewrite updateTask_pass_spec. world_simpl.
  split; [exact Hage|]. split; [|split].
  - intros Hexp.
    assert (He : expired b = true).
    { unfold expired. rewrite Hage. apply Z.leb_le. exact Hexp. }
    split; [|split].
    + rewrite in_map_iff. intros (b' & Hh & Hb').
      apply In_survivors in Hb' as (b0 & Hin0 & He0 & ->).
      cbn [handle integrate set_pos age set_life] in Hh.
      assert (b0 = b) by (eapply handle_determines; eauto).
      subst b0. congruence.
    + right. apply in_or_app. left. apply In_expiry_events.
      exists b. auto.
    + right. apply in_or_app. left. apply In_expiry_events.
      exists b. auto.
  - intros Hyoung.
    assert (He : expired b = false).
    { unfold expired. rewrite Hage. apply Z.leb_gt. exact Hyoung. }
    split; [|split].
    + apply In_survivors. exists b. auto.
    + reflexivity.
    + rewrite In_expiry_events. intros (b0 & Hin0 & He0 & [Hb0 | Hb0]).
      * discriminate.
      * injection Hb0 as Hh.
        assert (b = b0) by (eapply handle_determines; eauto).
        subst b0. congruence.
  - reflexivity.
Qed.

(** C10. On the tick on which a bullet expires, the node that is freed
    still holds the position and the velocity the bullet had before the
    tick, and the rest of the game ends the tick as it would have without
    that bullet in the list: the same bullets with the same positions,
    velocities and ages, the same ship and the same asteroids. *)
Theorem expiry_frame (w : world) (before after : list object) (b : object) :
  bullets w = before ++ b :: after ->
  BULLET_LIFE_MS <= life (age b) ->
  let pass := exec (updateTask_pass sin_deg cos_deg portTICK_RATE_MS) in
  In (PortFree (age b)) (trace (pass w))
  /\ pos (age b) = pos b /\ vel (age b) = vel b
  /\ bullets (pass w) = bullets (pass (set_bullets (before ++ after) w))
  /\ bullets (pass w)
     = map (fun o => integrate (age o))
           (filter (fun o => life (age o) <? BULLET_LIFE_MS)
                   (before ++ after))
  /\ ship (pass w) = ship (pass (set_bullets (before ++ after) w))
  /\ asteroids (pass w) = asteroids (pass (set_bullets (before ++ after) w)).
Proof.
  intros Hb Hexp pass. subst pass. rewrite !updateTask_pass_spec.
  world_simpl. rewrite Hb.
  assert (He : expired b = true) by (apply Z.leb_le; exact Hexp).
  assert (Hs : survivors (before ++ b :: after) = survivors (before ++ after)).
  { rewrite !survivors_app. f_equal. unfold survivors. cbn [filter].
    rewrite He. reflexivity. }
  repeat split.
  - right. apply in_or_app. left. apply In_expiry_events.
    exists b. split; [apply in_elt|]. auto.
  - exact Hs.
  - rewrite Hs. unfold survivors. f_equal. apply filter_ext.
    intros o. unfold expired. rewrite Z.ltb_antisym. reflexivity.
Qed.

(** A bullet alone in the list, made with age 0: it is in the list after
    each of the first 99 ticks, with the tick count times 10 ms as its
    age, and not from the 100th tick on. *)
Lemma bullet_lifetime (b : object) (w : world) (n : nat) :
  bullets w = [b] -> life b = 0 ->
  let w' :=
    Nat.iter n (exec (updateTask_pass sin_deg cos_deg portTICK_RATE_MS)) w in
  ((n < 100)%nat ->
   exists b', bullets w' = [b'] /\ handle b' = handle b
              /\ life b' = FRAME_DELAY_MS * Z.of_nat n)
  /\ ((100 <= n)%nat -> bullets w' = []).
Proof.
  intros Hb Hl. induction n as [|n IH]; cbv zeta in *.
  - split; [|lia]. intros _. exists b. unfold Nat.iter. cbn [nat_rect].
    repeat split; [exact Hb | rewrite Hl; reflexivity].
  - rewrite Nat.iter_succ, updateTask_pass_spec. world_simpl.
    revert IH.
    generalize (Nat.iter n
                  (exec (updateTask_pass sin_deg cos_deg portTICK_RATE_MS)) w).
    intros wn [IH1 IH2]. split.
    + intros Hlt. destruct IH1 as (b' & Hb' & Hh & Hlife); [lia|].
      assert (Hage : life (age b') = life b' + FRAME_DELAY_MS).
      { apply age_life. rewrite Hlife. unfold FRAME_DELAY_MS. lia. }
      assert (He : expired b' = false).
      { unfold expired. rewrite Hage, Hlife. apply Z.leb_gt.
        unfold BULLET_LIFE_MS, FRAME_DELAY_MS. lia. }
      rewrite Hb'. unfold survivors. cbn [filter]. rewrite He. cbn [negb map].
      exists (integrate (age b')). repeat split; [exact Hh|].
      change (life (integrate (age b'))) with (life (age b')).
      rewrite Hage, Hlife. unfold FRAME_DELAY_MS. lia.
    + intros Hge. destruct (Nat.eq_dec n 99) as [-> | Hn].
      * destruct IH1 as (b' & Hb' & Hh & Hlife); [lia|].
        assert (Hage : life (age b') = life b' + FRAME_DELAY_MS).
        { apply age_life. rewrite Hlife. unfold FRAME_DELAY_MS. lia. }
        assert (He : expired b' = true).
        { unfold expired. rewrite Hage, Hlife. reflexivity. }
        rewrite Hb'. unfold survivors. cbn [filter]. rewrite He. reflexivity.
      * rewrite IH2 by lia. reflexivity.
Qed.

(** ** The fire rate *)

Lemma bulletTask_pass_spec (pinb : Z) (w : world) :
  let r := bulletTask_pass sin_deg cos_deg portTICK_RATE_MS pinb w in
  fst r = (if SHOOT_BUTTON pinb
           then Z.quot BULLET_DELAY_MS portTICK_RATE_MS
           else Z.quot FRAME_DELAY_MS portTICK_RATE_MS)
  /\ bullets (snd r)
     = (if SHOOT_BUTTON pinb
        then mkObject (next_handle w) (pos (ship w))
               (mkPoint (- sin_deg (angle (ship w)) * BULLET_VEL)
                        (- cos_deg (angle (ship w)) * BULLET_VEL))
               0 0 0 BULLET_SIZE 0 :: bullets w
        else bullets w)
  /\ ship (snd r) = ship w /\ asteroids (snd r) = asteroids w.
Proof.
  unfold bulletTask_pass. destruct (SHOOT_BUTTON pinb).
  - unfold createBullet. unfold_m. world_simpl.
    destruct (pos (ship w)). repeat split.
  - unfold_m. world_simpl. repeat split.
Qed.

Lemma bulletTask_run_step (k : nat) (pinb : Z -> Z) (now till : Z) (w : world) :
  bulletTask_run sin_deg cos_deg portTICK_RATE_MS (S k) pinb now till w
  = if till <? now then ([], w)
    else
      let r := bulletTask_pass sin_deg cos_deg portTICK_RATE_MS (pinb now) w in
      let r' := bulletTask_run sin_deg cos_deg portTICK_RATE_MS k pinb
                  (now + fst r * portTICK_RATE_MS) till (snd r) in
      (if SHOOT_BUTTON (pinb now) then now :: fst r' else fst r', snd r').
Proof.
  cbn [bulletTask_run]. destruct (till <? now); [reflexivity|].
  unfold bind, ret.
  destruct (bulletTask_pass sin_deg cos_deg portTICK_RATE_MS (pinb now) w)
    as [d w1].
  cbn [fst snd].
  destruct (bulletTask_run sin_deg cos_deg portTICK_RATE_MS k pinb
              (now + d * portTICK_RATE_MS) till w1); reflexivity.
Qed.

(** The number of passes that fit between [now] and [till] when each one
    is followed by the cooldown. *)
Lemma cooldown_ticks :
  0 < portTICK_RATE_MS -> (portTICK_RATE_MS | BULLET_DELAY_MS) ->
  Z.quot BULLET_DELAY_MS portTICK_RATE_MS * portTICK_RATE_MS
  = BULLET_DELAY_MS.
Proof.
  intros Hpos [q Hq]. rewrite Hq.
  rewrite Z.quot_mul by lia. reflexivity.
Qed.

Lemma spaced_cons (d a : Z) (l : list Z) :
  Forall (fun t => a + d <= t) l -> spaced d l -> spaced d (a :: l).
Proof.
  intros Hall Hsp. destruct l as [|b l']; [exact I|].
  cbn [spaced]. split; [|exact Hsp]. inversion Hall; assumption.
Qed.

(** The cooldown for any tick length. *)
Lemma cooldown_ms_bounds :
  0 < portTICK_RATE_MS <= BULLET_DELAY_MS ->
  BULLET_DELAY_MS - portTICK_RATE_MS < cooldown_ms portTICK_RATE_MS
  /\ 0 < cooldown_ms portTICK_RATE_MS <= BULLET_DELAY_MS.
Proof.
  intros H. unfold cooldown_ms.
  rewrite Z.quot_div_nonneg by (unfold BULLET_DELAY_MS in *; lia).
  pose proof (Z.div_mod BULLET_DELAY_MS portTICK_RATE_MS ltac:(lia)) as H1.
  pose proof (Z.mod_pos_bound BULLET_DELAY_MS portTICK_RATE_MS ltac:(lia))
    as H2.
  assert (1 <= BULLET_DELAY_MS / portTICK_RATE_MS)
    by (apply Z.div_le_lower_bound; lia).
  nia.
Qed.

Lemma slots_after (d now till : Z) :
  0 < d ->
  (if till <? now + d then 0 else (till - (now + d)) / d + 1)
  <= (if till <? now then 0 else (till - now) / d + 1) - 1
  \/ till < now.
Proof.
  intros Hd.
  destruct (till <? now) eqn:E; [right; apply Z.ltb_lt; exact E|].
  left. apply Z.ltb_ge in E.
  destruct (till <? now + d) eqn:E2.
  - assert (0 <= (till - now) / d) by (apply Z.div_pos; lia).
    lia.
  - replace (till - now) with ((till - (now + d)) + 1 * d) by lia.
    rewrite Z.div_add by lia. lia.
Qed.

Lemma slots_mono (d now now' till : Z) :
  0 < d -> now <= now' ->
  (if till <? now' then 0 else (till - now') / d + 1)
  <= (if till <? now then 0 else (till - now) / d + 1).
Proof.
  intros Hd H. destruct (till <? now') eqn:E1, (till <? now) eqn:E2;
    try apply Z.ltb_lt in E1; try apply Z.ltb_ge in E1;
    try apply Z.ltb_lt in E2; try apply Z.ltb_ge in E2; try lia.
  - assert (0 <= (till - now) / d) by (apply Z.div_pos; lia).
    lia.
  - assert ((till - now') / d <= (till - now) / d)
      by (apply Z.div_le_mono; lia).
    lia.
Qed.


(** Whatever the port shows, at most one bullet per cooldown. *)
Lemma bulletTask_run_ceiling_ticks (pinb : Z -> Z) (till : Z) :
  0 < portTICK_RATE_MS <= BULLET_DELAY_MS ->
  forall (fuel : nat) (now : Z) (w : world),
    let d := cooldown_ms portTICK_RATE_MS in
    let r := bulletTask_run sin_deg cos_deg portTICK_RATE_MS fuel pinb
               now till w in
    Z.of_nat (length (fst r))
    <= (if till <? now then 0 else (till - now) / d + 1)
    /\ spaced d (fst r)
    /\ Forall (fun t => now <= t) (fst r).
Proof.
  intros Htick.
  destruct (cooldown_ms_bounds Htick) as (_ & Hd & _).
  cbv zeta. remember (cooldown_ms portTICK_RATE_MS) as d eqn:Ed.
  induction fuel as [|k IH]; intros now w.
  - cbn [bulletTask_run]. unfold ret. cbn [fst length].
    destruct (till <? now) eqn:E.
    + repeat split; try constructor. lia.
    + apply Z.ltb_ge in E.
      assert (0 <= (till - now) / d) by (apply Z.div_pos; lia).
      repeat split; try constructor. lia.
  - rewrite bulletTask_run_step.
    destruct (till <? now) eqn:E.
    + cbn [fst length]. repeat split; try constructor. lia.
    + destruct (bulletTask_pass_spec (pinb now) w) as (Hdl & _).
      cbv zeta in Hdl. cbv zeta. rewrite Hdl. cbn [fst snd].
      generalize (snd (bulletTask_pass sin_deg cos_deg portTICK_RATE_MS
                         (pinb now) w)).
      intros w1.
      destruct (SHOOT_BUTTON (pinb now)).
      * fold (cooldown_ms portTICK_RATE_MS). rewrite <- Ed.
        destruct (IH (now + d) w1) as (Hlen & Hsp & Hall).
        cbn [length]. repeat split.
        -- destruct (slots_after d now till Hd) as [Hp | Hp];
             [rewrite E in Hp | apply Z.ltb_ge in E]; lia.
        -- apply spaced_cons; assumption.
        -- constructor; [lia|]. eapply Forall_impl; [|exact Hall].
           cbn. intros; lia.
      * assert (Hle : now <= now + Z.quot FRAME_DELAY_MS portTICK_RATE_MS
                                 * portTICK_RATE_MS).
        { assert (0 <= Z.quot FRAME_DELAY_MS portTICK_RATE_MS)
            by (apply Z.quot_pos; unfold FRAME_DELAY_MS; lia).
          nia. }
        revert Hle.
        generalize (now + Z.quot FRAME_DELAY_MS portTICK_RATE_MS
                          * portTICK_RATE_MS).
        intros now' Hle.
        destruct (IH now' w1) as (Hlen & Hsp & Hall).
        repeat split.
        -- pose proof (slots_mono d now now' till Hd Hle) as Hm.
           rewrite E in Hm. lia.
        -- exact Hsp.
        -- eapply Forall_impl; [|exact Hall]. cbn. intros; lia.
Qed.

(** Whatever the port shows, the bullets made between [now] and [till] are
    at most one per cooldown, and a cooldown apart. *)
Lemma bulletTask_run_ceiling (pinb : Z -> Z) (till : Z) :
  0 < portTICK_RATE_MS -> (portTICK_RATE_MS | BULLET_DELAY_MS) ->
  forall (fuel : nat) (now : Z) (w : world),
    let r := bulletTask_run sin_deg cos_deg portTICK_RATE_MS fuel pinb
               now till w in
    Z.of_nat (length (fst r))
    <= (if till <? now then 0 else (till - now) / BULLET_DELAY_MS + 1)
    /\ spaced BULLET_DELAY_MS (fst r)
    /\ Forall (fun t => now <= t) (fst r).
Proof.
  intros Hpos Hdiv fuel now w.
  assert (Htick : 0 < portTICK_RATE_MS <= BULLET_DELAY_MS).
  { split; [exact Hpos|]. apply Z.divide_pos_le; [reflexivity | exact Hdiv]. }
  pose proof (bulletTask_run_ceiling_ticks pinb till Htick fuel now w) as H.
  cbv zeta in H. unfold cooldown_ms in H.
  rewrite (cooldown_ticks Hpos Hdiv) in H. exact H.
Qed.


End Integrator.

Section Coordinator.

Variable uCollide : list event -> Z -> Z -> option Z.
Variable seeded : Z -> nat -> Z.
Variable portTICK_RATE_MS : Z.

(** ** A pass of [drawTask] *)

Lemma bullet_query_spec (b : object) (w : world) :
  let ev := SpriteSetPosition (handle b) (u16 (Qtrunc (px (pos b))))
              (u16 (Qtrunc (py (pos b)))) in
  bullet_query uCollide b w
  = (uCollide (ev :: trace w) (handle b) (astGroup w),
     set_trace (ev :: trace w) w).
Proof. reflexivity. Qed.

(** A bullet that is reported to touch the sprite [h]: the bullet goes
    (sprite deleted, node freed), the asteroid list is scanned for [h],
    and the loop goes on with the next bullet. *)
Lemma draw_bullets_hit (b : object) (rest : list object) (h : Z) (w : world) :
  fst (bullet_query uCollide b w) = Some h ->
  draw_bullets uCollide (b :: rest) w
  = draw_bullets uCollide rest
      (exec (scan_asteroids h [] (asteroids w))
         (set_trace
            (PortFree b :: SpriteDelete (handle b)
               :: SpriteSetPosition (handle b) (u16 (Qtrunc (px (pos b))))
                    (u16 (Qtrunc (py (pos b)))) :: trace w) w)).
Proof.
  intros Hq. cbn [draw_bullets]. unfold bind at 1.
  rewrite bullet_query_spec in *. cbn [fst] in Hq. rewrite Hq.
  unfold_m. world_simpl.
  destruct (scan_asteroids h [] (asteroids w) _) as [[] w1].
  reflexivity.
Qed.

Lemma draw_bullets_miss (b : object) (rest : list object) (w : world) :
  fst (bullet_query uCollide b w) = None ->
  draw_bullets uCollide (b :: rest) w
  = let r := draw_bullets uCollide rest (snd (bullet_query uCollide b w)) in
    (b :: fst r, snd r).
Proof.
  intros Hq. cbn [draw_bullets]. unfold bind at 1.
  destruct (bullet_query uCollide b w) as [q w1]. cbn [fst snd] in *.
  subst q. unfold bind, ret.
  destruct (draw_bullets uCollide rest w1). reflexivity.
Qed.

(** What [drawTask] leaves of the asteroid list when the only bullet is
    reported to touch [h]. *)
Lemma drawTask_sync_one_hit (b : object) (h : Z) (w : world) :
  bullets w = [b] ->
  fst (bullet_query uCollide b (exec draw_ship w)) = Some h ->
  let w' := exec (drawTask_sync uCollide) w in
  exists w1,
    only_trace w w1
    /\ asteroids w' = asteroids (exec (scan_asteroids h [] (asteroids w)) w1)
    /\ bullets w' = [].
Proof.
  intros Hb Hq w'.
  destruct (draw_ship_only_trace w) as [e0 H0].
  set (w0 := exec draw_ship w) in *.
  assert (Hb0 : bullets w0 = [b]) by (rewrite H0; exact Hb).
  assert (Ha0 : asteroids w0 = asteroids w) by (rewrite H0; reflexivity).
  set (w1 := set_trace
               (PortFree b :: SpriteDelete (handle b)
                  :: SpriteSetPosition (handle b) (u16 (Qtrunc (px (pos b))))
                       (u16 (Qtrunc (py (pos b)))) :: trace w0) w0).
  set (w2 := exec (scan_asteroids h [] (asteroids w)) w1).
  assert (E : w' = exec (draw_asteroids (asteroids w2)) (set_bullets [] w2)).
  { subst w'. unfold drawTask_sync. rewrite exec_seq. fold w0.
    rewrite exec_get, Hb0, exec_bind. unfold exec at 2.
    rewrite (draw_bullets_hit b [] h w0 Hq).
    rewrite Ha0. fold w1. cbn [draw_bullets]. unfold ret at 1 2.
    cbn [fst snd]. fold w2.
    rewrite exec_modify, exec_get. reflexivity. }
  destruct (draw_asteroids_only_trace (asteroids w2) (set_bullets [] w2))
    as [e3 H3].
  rewrite E, H3. world_simpl.
  exists w1. split; [|split; reflexivity].
  subst w1. rewrite H0. world_simpl. eexists (_ :: _ :: _ :: e0).
  reflexivity.
Qed.

(** C3, as the code has it.  One bullet, one asteroid of size 3 at
    (400,300), and the bullet is reported to touch the asteroid: whatever
    [rand()] returns, the asteroid list then holds exactly 3 asteroids,
    each of size 2, each at (400,300), each with both velocity components
    between -3 and 3 (the bound the code takes is that of the new size 2,
    [AST_MAX_VEL_2 = 3.0]); the bullet is gone. *)
Theorem size3_hit_scenario (w : world) (a b : object) :
  bullets w = [b] -> asteroids w = [a] ->
  size a = 3 -> pos a = mkPoint 400 300 ->
  rng_ok w ->
  fst (bullet_query uCollide b (exec draw_ship w)) = Some (handle a) ->
  let w' := exec (drawTask_sync uCollide) w in
  length (asteroids w') = 3%nat
  /\ Forall (fun k => size k = 2 /\ pos k = mkPoint 400 300
               /\ (-3 <= px (vel k) <= 3)%Q
               /\ (-3 <= py (vel k) <= 3)%Q) (asteroids w')
  /\ bullets w' = [].
Proof.
  intros Hb Ha Hsize Hpos Hrng Hq w'.
  destruct (drawTask_sync_one_hit b (handle a) w Hb Hq)
    as (w1 & [e1 H1] & Hasts & Hbul).
  fold w' in Hasts, Hbul. rewrite Hasts, Ha.
  pose proof (scan_asteroids_match (handle a) [] [] [] a w1
                (Forall_nil _) eq_refl) as Hscan.
  cbn [app] in Hscan. rewrite Hscan, Hsize, Hpos.
  set (w2 := set_trace _ _).
  assert (Hrng2 : rng_ok w2).
  { subst w2. rewrite H1. exact Hrng. }
  destruct (spawnAsteroid_spec (mkPoint 400 300) 3 w2)
    as (kids & Hk & Hlen & Hall & _).
  rewrite Hk. replace (asteroids w2) with (@nil object)
    by (subst w2; reflexivity).
  rewrite app_nil_r. split; [exact Hlen|]. split; [|exact Hbul].
  eapply Forall_impl; [|exact Hall]. cbn beta.
  intros k (Hp & Hs & Hv). destruct (Hv Hrng2) as (r1 & r2 & Hr1 & Hr2 & Hvel).
  split; [exact Hs|]. split; [exact Hp|].
  rewrite Hvel. cbn [px py fst spawn_limits].
  change (fst (spawn_limits 3)) with 3.
  pose proof (spread_bounds 3 r1 Hr1 ltac:(lia)) as B1.
  pose proof (spread_bounds 3 r2 Hr2 ltac:(lia)) as B2.
  change (inject_Z 3) with 3%Q in B1, B2.
  split; lra.
Qed.

(** ** The end of the game *)

(** [init]: no bullets, [INITIAL_ASTEROIDS] asteroids of size 3, and the
    ship at rest in the middle of the screen, heading 0. *)
Lemma init_spec (tcnt0 : Z) (w : world) :
  let w' := exec (init seeded tcnt0) w in
  bullets w' = []
  /\ length (asteroids w') = Z.to_nat INITIAL_ASTEROIDS
  /\ Forall (fun k => size k = 3) (asteroids w')
  /\ pos (ship w') = mkPoint 400 300 /\ vel (ship w') = mkPoint 0 0
  /\ accel (ship w') = 0%Q /\ angle (ship w') = 0 /\ a_vel (ship w') = 0
  /\ extends w w'.
Proof.
  cbv zeta. unfold init.
  rewrite !exec_modify, exec_xSpriteCreate, exec_modify.
  unfold srand. rewrite exec_modify, exec_xGroupCreate, exec_modify, exec_seq.
  match goal with
  | |- context [exec (repeatM _ init_one) ?u] =>
    assert (Hb0 : bullets u = []) by reflexivity;
    assert (Ha0 : asteroids u = []) by reflexivity;
    assert (He0 : extends w u)
      by (unfold extends; world_simpl; eexists [_; _]; reflexivity);
    revert Hb0 Ha0 He0; generalize u
  end.
  intros w0 Hb0 Ha0 He0.
  pose proof (init_loop_spec (Z.to_nat INITIAL_ASTEROIDS) w0) as Hloop.
  cbv zeta in Hloop. revert Hloop.
  generalize (exec (repeatM (Z.to_nat INITIAL_ASTEROIDS) init_one) w0).
  intros w1 (kids & Ha & Hl & Hall & Hb & Hsh & He).
  rewrite exec_xSpriteCreate, exec_get, exec_modify_last. world_simpl.
  cbn [pos vel accel angle a_vel set_a_vel set_angle set_accel set_vel
       set_pos set_handle].
  rewrite Hb, Ha, Hb0, Ha0, app_nil_r.
  repeat split; try assumption.
  eapply extends_trans; [exact He0|].
  destruct He as [evs He]. rewrite He. eexists (_ :: evs). reflexivity.
Qed.

Lemma ship_query_world (w : world) : exec (ship_query uCollide) w = w.
Proof. reflexivity. Qed.

(** The body of the end-of-game branch when asteroids are left: the
    "lose" sprite. *)
Lemma game_over_lose (tcnt0 : Z) (w : world) :
  asteroids w <> [] ->
  exec (game_over seeded portTICK_RATE_MS tcnt0) w
  = exec (vTaskResume UpdateTask ;; vTaskResume BulletTask ;;
          vTaskResume InputTask)
      (exec (init seeded tcnt0)
         (exec reset
            (set_trace
               (SpriteDelete (next_handle w)
                  :: TaskDelay (Z.quot 3000 portTICK_RATE_MS)
                  :: SpriteCreate "lose.png" 400 300 0 400 300 100
                       (next_handle w)
                  :: TaskSuspend InputTask :: TaskSuspend BulletTask
                  :: TaskSuspend UpdateTask :: trace w)
               (set_next_handle (next_handle w + 1) w)))).
Proof.
  intros Hne. unfold game_over.
  unfold vTaskSuspend. rewrite !exec_emit, exec_get. world_simpl.
  destruct (asteroids w) as [|a rest]; [contradiction|].
  rewrite exec_xSpriteCreate.
  unfold vTaskDelay, vSpriteDelete. rewrite !exec_emit.
  world_simpl. rewrite !exec_seq. reflexivity.
Qed.

(** The same branch with no asteroid left: the "win" sprite. *)
Lemma game_over_win (tcnt0 : Z) (w : world) :
  asteroids w = [] ->
  exists evs : list event,
    trace (exec (game_over seeded portTICK_RATE_MS tcnt0) w)
    = evs ++ SpriteCreate "win.png" 400 300 20 400 300 100 (next_handle w)
          :: TaskSuspend InputTask :: TaskSuspend BulletTask
          :: TaskSuspend UpdateTask :: trace w.
Proof.
  intros He. unfold game_over.
  unfold vTaskSuspend. rewrite !exec_emit, exec_get. world_simpl.
  rewrite He, exec_xSpriteCreate.
  unfold vTaskDelay, vSpriteDelete. rewrite !exec_emit.
  world_simpl. rewrite !exec_seq, reset_spec. world_simpl.
  match goal with
  | |- context [exec (init seeded tcnt0) ?u] =>
    pose proof (init_spec tcnt0 u) as Hi; cbv zeta in Hi;
    revert Hi; generalize (exec (init seeded tcnt0) u)
  end.
  intros w3 (_ & _ & _ & _ & _ & _ & _ & _ & [e He2]).
  unfold vTaskResume, emit, exec, modify. world_simpl.
  rewrite He2. world_simpl.
  trace_suffix.
Qed.

Lemma drawTask_pass_hit (tcnt0 : Z) (w : world) (h : Z) :
  fst (ship_query uCollide (exec (drawTask_sync uCollide) w)) = Some h ->
  exec (drawTask_pass uCollide seeded portTICK_RATE_MS tcnt0) w
  = exec (vTaskDelay (Z.quot FRAME_DELAY_MS portTICK_RATE_MS))
      (exec (game_over seeded portTICK_RATE_MS tcnt0)
         (exec (drawTask_sync uCollide) w)).
Proof.
  intros Hq. unfold drawTask_pass. rewrite exec_seq.
  revert Hq. generalize (exec (drawTask_sync uCollide) w). intros w1 Hq.
  unfold drawTask_check. rewrite exec_bind, ship_query_world, Hq.
  rewrite exec_get, exec_seq. reflexivity.
Qed.

(** C4. A pass of [drawTask] on which the display reports that the ship
    touches a sprite of an asteroid in the list, however many asteroids
    are left: the three game tasks are suspended, the "lose" sprite is
    put in the middle of the screen, stays for the 3 s pause and is
    deleted; then every asteroid, every bullet and the ship are torn down
    and a fresh session is set up (no bullets, [INITIAL_ASTEROIDS]
    asteroids of size 3, the ship at rest in the middle). *)
Theorem lose_condition (tcnt0 : Z) (w : world) (h : Z) :
  let w1 := exec (drawTask_sync uCollide) w in
  fst (ship_query uCollide w1) = Some h ->
  In h (map handle (asteroids w1)) ->
  let w' := exec (drawTask_pass uCollide seeded portTICK_RATE_MS tcnt0) w in
  (exists evs : list event,
     trace w'
     = evs ++ SpriteDelete (next_handle w1)
           :: TaskDelay (Z.quot 3000 portTICK_RATE_MS)
           :: SpriteCreate "lose.png" 400 300 0 400 300 100 (next_handle w1)
           :: TaskSuspend InputTask :: TaskSuspend BulletTask
           :: TaskSuspend UpdateTask :: trace w1
     /\ (forall o, In o (asteroids w1) \/ In o (bullets w1) ->
                   In (SpriteDelete (handle o)) evs /\ In (PortFree o) evs)
     /\ In (SpriteDelete (handle (ship w1))) evs)
  /\ bullets w' = []
  /\ length (asteroids w') = Z.to_nat INITIAL_ASTEROIDS
  /\ Forall (fun a => size a = 3) (asteroids w')
  /\ pos (ship w') = mkPoint 400 300 /\ vel (ship w') = mkPoint 0 0
  /\ accel (ship w') = 0%Q /\ angle (ship w') = 0 /\ a_vel (ship w') = 0.
Proof.
  cbv zeta. intros Hq Hin. rewrite (drawTask_pass_hit tcnt0 w h Hq).
  revert Hq Hin. generalize (exec (drawTask_sync uCollide) w).
  intros w1 _ Hin.
  assert (Hne : asteroids w1 <> []).
  { intros He. rewrite He in Hin. destruct Hin. }
  rewrite game_over_lose by exact Hne. rewrite reset_spec. world_simpl.
  match goal with
  | |- context [exec (init seeded tcnt0) ?u] =>
    pose proof (init_spec tcnt0 u) as Hi; cbv zeta in Hi;
    revert Hi; generalize (exec (init seeded tcnt0) u)
  end.
  intros w3 (Hb & Hl & Hall & Hp & Hv & Hac & Han & Hav & [e He]).
  world_simpl. unfold vTaskResume, vTaskDelay.
  rewrite !exec_emit. unfold exec, ret, emit, modify. world_simpl.
  repeat split; try assumption.
  rewrite He.
  exists (TaskDelay (Z.quot FRAME_DELAY_MS portTICK_RATE_MS)
          :: TaskResume InputTask :: TaskResume BulletTask
          :: TaskResume UpdateTask
          :: e ++ SpriteDelete (background w1)
          :: SpriteDelete (handle (ship w1))
          :: free_events (bullets w1)
          ++ GroupDelete (astGroup w1) :: free_events (asteroids w1)).
  split; [|split].
  - cbn [app]. rewrite <- !app_assoc. cbn [app]. rewrite <- !app_assoc.
    reflexivity.
  - intros o Ho. repeat (rewrite ?in_app_iff; cbn [In]).
    destruct Ho as [Ho | Ho]; apply In_free_events in Ho as [H1 H2];
      split; auto 12.
  - repeat (rewrite ?in_app_iff; cbn [In]). auto 12.
Qed.

(** The other case of the same test: a hit reported while the asteroid
    list is empty shows the "win" sprite. *)
Lemma hit_without_asteroids (tcnt0 : Z) (w : world) (h : Z) :
  let w1 := exec (drawTask_sync uCollide) w in
  fst (ship_query uCollide w1) = Some h ->
  asteroids w1 = [] ->
  exists evs : list event,
    trace (exec (drawTask_pass uCollide seeded portTICK_RATE_MS tcnt0) w)
    = evs ++ SpriteCreate "win.png" 400 300 20 400 300 100 (next_handle w1)
          :: TaskSuspend InputTask :: TaskSuspend BulletTask
          :: TaskSuspend UpdateTask :: trace w1.
Proof.
  cbv zeta. intros Hq He. rewrite (drawTask_pass_hit tcnt0 w h Hq).
  revert Hq He. generalize (exec (drawTask_sync uCollide) w).
  intros w1 _ He.
  destruct (game_over_win tcnt0 w1 He) as [evs Hev]. revert Hev.
  generalize (exec (game_over seeded portTICK_RATE_MS tcnt0) w1).
  intros w2 Hev. unfold vTaskDelay, emit, modify, exec. world_simpl.
  rewrite Hev. exists (TaskDelay (Z.quot FRAME_DELAY_MS portTICK_RATE_MS)
                         :: evs). reflexivity.
Qed.

End Coordinator.

(** * Further properties of the code *)

(** ** The wrap is a shift by one screen *)

Lemma wrap_shift (limit : Z) (c : Q) :
  exists k : Z,
    -1 <= k <= 1 /\ (wrap limit c == c + inject_Z k * inject_Z limit)%Q.
Proof.
  unfold wrap, Qgtb. destruct (Qltb c 0).
  - exists 1. split; [lia|]. change (inject_Z 1) with 1%Q. ring.
  - destruct (Qltb (inject_Z limit) c).
    + exists (-1). split; [lia|]. change (inject_Z (-1)) with (-1)%Q. ring.
    + exists 0. split; [lia|]. change (inject_Z 0) with 0%Q. ring.
Qed.

(** The integration step moves an object by its velocity up to one screen
    width and one screen height, and changes nothing but the position. *)
Theorem integrate_torus (o : object) :
  (exists kx ky : Z,
     -1 <= kx <= 1 /\ -1 <= ky <= 1
     /\ (px (pos (integrate o))
         == px (pos o) + px (vel o) + inject_Z kx * inject_Z SCREEN_W)%Q
     /\ (py (pos (integrate o))
         == py (pos o) + py (vel o) + inject_Z ky * inject_Z SCREEN_H)%Q)
  /\ set_pos (pos o) (integrate o) = o.
Proof.
  split.
  - destruct (wrap_shift SCREEN_W (px (pos o) + px (vel o))) as (kx & Hkx & Hx).
    destruct (wrap_shift SCREEN_H (py (pos o) + py (vel o))) as (ky & Hky & Hy).
    exists kx, ky. unfold integrate. cbn [pos set_pos px py]. auto.
  - destruct o. reflexivity.
Qed.

(** ** The heading of the ship *)

Lemma spin_angle (s : object) :
  0 <= angle s < 360 -> -128 <= a_vel s <= 127 ->
  0 <= angle (spin s) < 360
  /\ (angle (spin s) - (angle s + a_vel s)) mod 360 = 0.
Proof.
  intros Ha Hv. unfold spin.
  assert (E : i16 (angle s + a_vel s) = angle s + a_vel s)
    by (unfold i16; rewrite Z.mod_small; lia).
  rewrite E.
  destruct (360 <=? angle s + a_vel s) eqn:E1.
  - apply Z.leb_le in E1. cbn [angle set_angle].
    assert (E2 : i16 (angle s + a_vel s - 360) = angle s + a_vel s - 360)
      by (unfold i16; rewrite Z.mod_small; lia).
    rewrite E2. split; [lia|].
    replace (angle s + a_vel s - 360 - (angle s + a_vel s)) with (-1 * 360)
      by lia.
    apply Z.mod_mul. lia.
  - apply Z.leb_gt in E1. destruct (angle s + a_vel s <? 0) eqn:E3.
    + apply Z.ltb_lt in E3. cbn [angle set_angle].
      assert (E2 : i16 (angle s + a_vel s + 360) = angle s + a_vel s + 360)
        by (unfold i16; rewrite Z.mod_small; lia).
      rewrite E2. split; [lia|].
      replace (angle s + a_vel s + 360 - (angle s + a_vel s)) with (1 * 360)
        by lia.
      apply Z.mod_mul. lia.
    + apply Z.ltb_ge in E3. cbn [angle set_angle]. split; [lia|].
      rewrite Z.sub_diag. reflexivity.
Qed.

Lemma integrate_angle (o : object) : angle (integrate o) = angle o.
Proof. reflexivity. Qed.

Lemma thrust_angle (sin_deg cos_deg : Z -> Q) (s : object) :
  angle (thrust sin_deg cos_deg s) = angle s.
Proof. unfold thrust. destruct (Qgtb _ _); reflexivity. Qed.

(** A tick of [updateTask] turns the ship by its turn rate and keeps the
    heading from 0 to 359 degrees. *)
Theorem heading_normalised (sin_deg cos_deg : Z -> Q) (portTICK_RATE_MS : Z)
    (w : world) :
  0 <= angle (ship w) < 360 -> -128 <= a_vel (ship w) <= 127 ->
  let w' := exec (updateTask_pass sin_deg cos_deg portTICK_RATE_MS) w in
  0 <= angle (ship w') < 360
  /\ (angle (ship w') - (angle (ship w) + a_vel (ship w))) mod 360 = 0.
Proof.
  intros Ha Hv. cbv zeta. rewrite updateTask_pass_spec. world_simpl.
  rewrite integrate_angle, thrust_angle. apply spin_angle; assumption.
Qed.

(** ** Firing *)

(** A pass of [bulletTask] with the fire button pressed puts one bullet in
    front of the list: at the position of the ship, with age 0, a handle
    never given out before, and velocity [BULLET_VEL] times (-sin, -cos) of
    the heading, so at most [BULLET_VEL] on each axis when sine and cosine
    are within -1 and 1; the task then sleeps for the cooldown.  With the
    button released the bullet list and the handles are unchanged and the
    task sleeps for a frame.  The ship and the asteroids are not touched
    either way. *)
Theorem bulletTask_pass_effect (sin_deg cos_deg : Z -> Q)
    (portTICK_RATE_MS pinb : Z) (w : world) :
  let r := bulletTask_pass sin_deg cos_deg portTICK_RATE_MS pinb w in
  ship (snd r) = ship w /\ asteroids (snd r) = asteroids w
  /\ if SHOOT_BUTTON pinb
     then fst r = Z.quot BULLET_DELAY_MS portTICK_RATE_MS
          /\ exists b : object,
               bullets (snd r) = b :: bullets w
               /\ pos b = pos (ship w) /\ life b = 0
               /\ handle b = next_handle w
               /\ next_handle (snd r) = next_handle w + 1
               /\ vel b = mkPoint (- sin_deg (angle (ship w)) * BULLET_VEL)
                                  (- cos_deg (angle (ship w)) * BULLET_VEL)
               /\ ((-1 <= sin_deg (angle (ship w)) <= 1)%Q ->
                   (- BULLET_VEL <= px (vel b) <= BULLET_VEL)%Q)
               /\ ((-1 <= cos_deg (angle (ship w)) <= 1)%Q ->
                   (- BULLET_VEL <= py (vel b) <= BULLET_VEL)%Q)
     else fst r = Z.quot FRAME_DELAY_MS portTICK_RATE_MS
          /\ bullets (snd r) = bullets w
          /\ next_handle (snd r) = next_handle w.
Proof.
  cbv zeta.
  destruct (bulletTask_pass_spec sin_deg cos_deg portTICK_RATE_MS pinb w)
    as (Hd & Hb & Hs & Ha).
  cbv zeta in Hd, Hb, Hs, Ha.
  split; [exact Hs|]. split; [exact Ha|].
  unfold bulletTask_pass in *. destruct (SHOOT_BUTTON pinb).
  - split; [exact Hd|]. eexists. split; [exact Hb|].
    cbn [pos life handle vel px py]. unfold BULLET_VEL.
    repeat (split; [reflexivity|]). split; intros H; lra.
  - split; [exact Hd|]. split; [exact Hb|]. reflexivity.
Qed.

(** ** The fire rate under any input *)

Lemma bulletTask_run_growth (sin_deg cos_deg : Z -> Q) (portTICK_RATE_MS : Z)
    (pinb : Z -> Z) (till : Z) (fuel : nat) :
  forall (now : Z) (w : world),
    let r := bulletTask_run sin_deg cos_deg portTICK_RATE_MS fuel pinb
               now till w in
    length (bullets (snd r)) = (length (fst r) + length (bullets w))%nat
    /\ Forall (fun t => SHOOT_BUTTON (pinb t) = true) (fst r)
    /\ ship (snd r) = ship w /\ asteroids (snd r) = asteroids w.
Proof.
  induction fuel as [|k IH]; intros now w; cbv zeta.
  - cbn [bulletTask_run]. unfold ret. cbn [fst snd length].
    repeat split; constructor.
  - rewrite bulletTask_run_step. destruct (till <? now).
    + cbn [fst snd length]. repeat split; constructor.
    + destruct (bulletTask_pass_spec sin_deg cos_deg portTICK_RATE_MS
                  (pinb now) w) as (_ & Hb & Hs & Ha).
      cbv zeta in Hb, Hs, Ha. cbv zeta. cbn [fst snd].
      revert Hb Hs Ha.
      generalize (bulletTask_pass sin_deg cos_deg portTICK_RATE_MS
                    (pinb now) w).
      intros [d w1] Hb Hs Ha. cbn [fst snd] in *.
      destruct (IH (now + d * portTICK_RATE_MS) w1) as (Hl & Hf & Hs' & Ha').
      destruct (SHOOT_BUTTON (pinb now)) eqn:E.
      * cbn [length]. rewrite Hl, Hb. cbn [length].
        split; [lia|]. split; [constructor; assumption|].
        split; congruence.
      * rewrite Hl, Hb. split; [reflexivity|]. split; [exact Hf|].
        split; congruence.
Qed.

(** Whatever the fire button does, [bulletTask] makes at most one bullet
    per cooldown between time 0 and time [T]: at most [T / 500 + 1],
    consecutive ones at least 500 ms apart, each at an instant at which the
    button was pressed, and each one more node in the bullet list. *)
Theorem fire_rate_any_input (sin_deg cos_deg : Z -> Q) (portTICK_RATE_MS : Z)
    (pinb : Z -> Z) (T : Z) (fuel : nat) (w : world) :
  0 < portTICK_RATE_MS -> (portTICK_RATE_MS | BULLET_DELAY_MS) ->
  0 <= T ->
  let r := bulletTask_run sin_deg cos_deg portTICK_RATE_MS fuel pinb 0 T w in
  Z.of_nat (length (fst r)) <= T / BULLET_DELAY_MS + 1
  /\ spaced BULLET_DELAY_MS (fst r)
  /\ Forall (fun t => 0 <= t /\ SHOOT_BUTTON (pinb t) = true) (fst r)
  /\ length (bullets (snd r)) = (length (fst r) + length (bullets w))%nat.
Proof.
  intros Hpos Hdiv HT r.
  destruct (bulletTask_run_ceiling sin_deg cos_deg portTICK_RATE_MS pinb T
              Hpos Hdiv fuel 0 w) as (Hle & Hsp & Hall).
  destruct (bulletTask_run_growth sin_deg cos_deg portTICK_RATE_MS pinb T
              fuel 0 w) as (Hlen & Hf & _).
  fold r in Hle, Hsp, Hall, Hlen, Hf.
  assert (E : (T <? 0) = false) by (apply Z.ltb_ge; lia).
  rewrite E, Z.sub_0_r in Hle.
  split; [exact Hle|]. split; [exact Hsp|]. split; [|exact Hlen].
  rewrite Forall_forall in *. intros t Ht. split; auto.
Qed.

(** ** Teardown *)

(** [reset] empties both lists and, in this order, deletes the sprite and
    frees the node of every asteroid, deletes the asteroid group, deletes
    the sprite and frees the node of every bullet, and deletes the sprites
    of the ship and of the background: every node and sprite once, and
    nothing else. *)
Theorem reset_teardown (w : world) :
  let w' := exec reset w in
  bullets w' = [] /\ asteroids w' = []
  /\ ship w' = ship w /\ next_handle w' = next_handle w
  /\ trace w'
     = rev (flat_map (fun o => [SpriteDelete (handle o); PortFree o])
                     (asteroids w)
            ++ [GroupDelete (astGroup w)]
            ++ flat_map (fun o => [SpriteDelete (handle o); PortFree o])
                        (bullets w)
            ++ [SpriteDelete (handle (ship w)); SpriteDelete (background w)])
       ++ trace w.
Proof.
  cbv zeta. rewrite reset_spec. world_simpl. repeat split.
  assert (F : forall l, free_events l
                = rev (flat_map (fun o => [SpriteDelete (handle o); PortFree o])
                                l)).
  { induction l as [|o rest IH]; [reflexivity|].
    cbn [free_events flat_map app]. rewrite IH.
    change (SpriteDelete (handle o) :: PortFree o :: flat_map
              (fun o0 => [SpriteDelete (handle o0); PortFree o0]) rest)
      with ([SpriteDelete (handle o); PortFree o] ++ flat_map
              (fun o0 => [SpriteDelete (handle o0); PortFree o0]) rest).
    rewrite rev_app_distr. reflexivity. }
  rewrite !rev_app_distr, !F. cbn [rev app].
  rewrite <- !app_assoc. reflexivity.
Qed.

(** ** What the decomposition makes *)

Lemma Qtrunc_spread (m r : Z) :
  Qtrunc (spread m r) = Z.quot (Z.rem r (i8 (m * 10)) - 5 * m) 5.
Proof.
  unfold Qtrunc, spread.
  cbn [Qnum Qden Qminus Qplus Qopp Qdiv Qmult Qinv inject_Z Pos.mul].
  f_equal. ring.
Qed.

Lemma astImages_cases (i : Z) :
  astImages i = "a1.png"%string \/ astImages i = "a2.png"%string
  \/ astImages i = "a3.png"%string.
Proof.
  unfold astImages. destruct (i =? 0); [auto|]. destruct (i =? 1); auto.
Qed.

(** One round of the loop of [spawnAsteroid], with bounds [v] and [a]
    that fit the [int8_t] cast. *)
Lemma spawn_one_full (p : point) (s v a : Z) (w : world) :
  0 < v <= 12 -> 0 < a <= 12 -> rng_ok w ->
  let w' := exec (spawn_one p s v a) w in
  exists k : object,
    asteroids w' = k :: asteroids w
    /\ handle k = next_handle w /\ next_handle w' = next_handle w + 1
    /\ pos k = p /\ size k = u8 (s - 1)
    /\ (- inject_Z v <= px (vel k) <= inject_Z v - (1 # 5))%Q
    /\ (- inject_Z v <= py (vel k) <= inject_Z v - (1 # 5))%Q
    /\ 0 <= angle k < 360 /\ - a <= a_vel k <= a - 1
    /\ (exists img : string,
          trace w'
          = GroupAddSprite (astGroup w) (handle k)
              :: SpriteCreate img (px p) (py p) (angle k)
                   (sizeToPix (i8 (s - 1))) (sizeToPix (i8 (s - 1))) 1
                   (handle k)
              :: trace w
          /\ (img = "a1.png"%string \/ img = "a2.png"%string
              \/ img = "a3.png"%string))
    /\ rng_ok w' /\ astGroup w' = astGroup w
    /\ bullets w' = bullets w /\ ship w' = ship w.
Proof.
  intros Hv Ha Hr. unfold spawn_one, createAsteroid. unfold_m. world_simpl.
  eexists. split; [reflexivity|]. cbn [handle pos size vel angle a_vel px py].
  world_simpl.
  pose proof (Hr 0%nat) as R0. pose proof (Hr 1%nat) as R1.
  pose proof (Hr 2%nat) as R2. pose proof (Hr 3%nat) as R3.
  split; [reflexivity|]. split; [reflexivity|].
  split; [destruct p; reflexivity|]. split; [apply u8_i8|].
  split; [apply spread_bounds; assumption|].
  split; [apply spread_bounds; assumption|].
  split.
  { pose proof (Z.rem_bound_pos (rng w 2%nat) 360 R2 ltac:(lia)) as Hb.
    unfold i16. rewrite Z.mod_small; lia. }
  split.
  { rewrite Qtrunc_spread, (i8_small (a * 10)) by lia.
    pose proof (Z.rem_bound_pos (rng w 3%nat) (a * 10) R3 ltac:(lia)) as Hb.
    assert (H1 : Z.quot (-(5 * a)) 5 <= Z.quot (Z.rem (rng w 3%nat) (a * 10) - 5 * a) 5)
      by (apply Z.quot_le_mono; lia).
    assert (H2 : Z.quot (Z.rem (rng w 3%nat) (a * 10) - 5 * a) 5
                 <= Z.quot (5 * a - 1) 5)
      by (apply Z.quot_le_mono; lia).
    assert (H3 : Z.quot (-(5 * a)) 5 = - a).
    { rewrite Z.quot_opp_l by lia. rewrite Z.mul_comm, Z.quot_mul by lia.
      reflexivity. }
    assert (H4 : Z.quot (5 * a - 1) 5 = a - 1).
    { rewrite Z.quot_div_nonneg by lia.
      symmetry. apply (Z.div_unique _ 5 (a - 1) 4); lia. }
    rewrite i8_small; lia. }
  split.
  { eexists. split; [reflexivity|]. apply astImages_cases. }
  split; [intros n; apply Hr|]. repeat split.
Qed.

Lemma sprite_made_extends (w1 w2 : world) (g side : Z) (k : object) :
  extends w1 w2 -> sprite_made w1 g side k -> sprite_made w2 g side k.
Proof.
  intros [evs He] [(img & Hi & H1) H2]. unfold sprite_made. rewrite He.
  split; [exists img; split; [exact Hi|]|]; apply in_or_app; right;
    assumption.
Qed.

Lemma spawn_one_made (p : point) (s v a : Z) (w : world) :
  0 < v <= 12 -> 0 < a <= 12 -> rng_ok w -> -128 <= s - 1 < 128 ->
  let w' := exec (spawn_one p s v a) w in
  exists k : object,
    asteroids w' = k :: asteroids w
    /\ handle k = next_handle w /\ next_handle w' = next_handle w + 1
    /\ pos k = p /\ size k = u8 (s - 1)
    /\ kinematics_ok v a k
    /\ sprite_made w' (astGroup w) (sizeToPix (s - 1)) k
    /\ extends w w'
    /\ rng_ok w' /\ astGroup w' = astGroup w
    /\ bullets w' = bullets w /\ ship w' = ship w.
Proof.
  intros Hv Ha Hr Hs.
  destruct (spawn_one_full p s v a w Hv Ha Hr)
    as (k & H1 & H2 & H3 & H4 & H5 & H6 & H7 & H8 & H9
        & (img & Ht & Hi) & H10 & H11 & H12 & H13).
  cbv zeta in *. exists k. rewrite (i8_small (s - 1)) in Ht by exact Hs.
  split; [exact H1|]. split; [exact H2|]. split; [exact H3|].
  split; [exact H4|]. split; [exact H5|].
  split; [unfold kinematics_ok; tauto|].
  split.
  { unfold sprite_made. rewrite Ht, H4. split.
    - exists img. split; [exact Hi|]. right. left. reflexivity.
    - left. reflexivity. }
  split; [unfold extends; rewrite Ht; eexists [_; _]; reflexivity|].
  split; [exact H10|]. split; [exact H11|]. split; [exact H12 | exact H13].
Qed.

(** The three asteroids a destroyed asteroid of size 2 or 3 breaks
    into. *)
Lemma spawnAsteroid_full (p : point) (s : Z) (w : world) :
  2 <= s <= 3 -> rng_ok w ->
  let w' := exec (spawnAsteroid p s) w in
  exists k1 k2 k3 : object,
    asteroids w' = [k3; k2; k1] ++ asteroids w
    /\ handle k1 = next_handle w /\ handle k2 = next_handle w + 1
    /\ handle k3 = next_handle w + 2
    /\ next_handle w' = next_handle w + 3
    /\ Forall (fun k => pos k = p /\ size k = s - 1
                 /\ kinematics_ok (fst (spawn_limits s))
                                  (snd (spawn_limits s)) k
                 /\ sprite_made w' (astGroup w) (sizeToPix (s - 1)) k)
              [k3; k2; k1]
    /\ extends w w'
    /\ rng_ok w' /\ astGroup w' = astGroup w
    /\ bullets w' = bullets w /\ ship w' = ship w.
Proof.
  intros Hs Hr. cbv zeta. unfold spawnAsteroid.
  assert (E : (1 <? s) = true) by (apply Z.ltb_lt; lia). rewrite E.
  assert (Hlim : 0 < fst (spawn_limits s) <= 12
                 /\ 0 < snd (spawn_limits s) <= 12).
  { assert (Hc : s = 2 \/ s = 3) by lia.
    destruct Hc as [-> | ->]; vm_compute; repeat split; discriminate. }
  destruct (spawn_limits s) as [v a]. cbn [fst snd] in *.
  destruct Hlim as [Hv Ha].
  assert (Hs1 : -128 <= s - 1 < 128) by lia.
  cbn [repeatM]. rewrite !exec_seq, exec_ret.
  destruct (spawn_one_made p s v a w Hv Ha Hr Hs1)
    as (k1 & A1 & Hh1 & N1 & P1 & S1 & K1 & M1 & E1 & R1 & G1 & B1 & Sh1).
  cbv zeta in *. revert A1 N1 M1 E1 R1 G1 B1 Sh1.
  generalize (exec (spawn_one p s v a) w). intros w1 A1 N1 M1 E1 R1 G1 B1 Sh1.
  destruct (spawn_one_made p s v a w1 Hv Ha R1 Hs1)
    as (k2 & A2 & Hh2 & N2 & P2 & S2 & K2 & M2 & E2 & R2 & G2 & B2 & Sh2).
  cbv zeta in *. revert A2 N2 M2 E2 R2 G2 B2 Sh2.
  generalize (exec (spawn_one p s v a) w1). intros w2 A2 N2 M2 E2 R2 G2 B2 Sh2.
  destruct (spawn_one_made p s v a w2 Hv Ha R2 Hs1)
    as (k3 & A3 & Hh3 & N3 & P3 & S3 & K3 & M3 & E3 & R3 & G3 & B3 & Sh3).
  cbv zeta in *. revert A3 N3 M3 E3 R3 G3 B3 Sh3.
  generalize (exec (spawn_one p s v a) w2). intros w3 A3 N3 M3 E3 R3 G3 B3 Sh3.
  rewrite u8_small in S1, S2, S3 by lia.
  exists k1, k2, k3.
  split; [rewrite A3, A2, A1; reflexivity|].
  split; [exact Hh1|]. split; [lia|]. split; [lia|]. split; [lia|].
  split.
  { rewrite G2, G1 in M3. rewrite G1 in M2.
    constructor; [|constructor; [|constructor; [|constructor]]].
    - split; [exact P3|]. split; [exact S3|]. split; [exact K3 | exact M3].
    - split; [exact P2|]. split; [exact S2|]. split; [exact K2|].
      eapply sprite_made_extends; [exact E3 | exact M2].
    - split; [exact P1|]. split; [exact S1|]. split; [exact K1|].
      eapply sprite_made_extends; [exact E3|].
      eapply sprite_made_extends; [exact E2 | exact M1]. }
  split; [eapply extends_trans; [|exact E3];
          eapply extends_trans; [exact E1 | exact E2]|].
  split; [exact R3|]. repeat split; congruence.
Qed.

Lemma kinematics_ok_within (V A : Z) (k : object) :
  kinematics_ok V A k -> kinematics_within V A k.
Proof.
  intros (H1 & H2 & H3 & H4). unfold kinematics_within.
  split; [lra|]. split; [lra|]. split; assumption.
Qed.

(** Breaking an asteroid of size 3 (or 2): the three new asteroids have
    velocity components from -3 to 3 (from -4 to 4), a heading from 0 to
    359 and a turn rate from -6 to 5 (from -9 to 8); each gets a handle
    never given out before and a square sprite of side [AST_SIZE_2]
    ([AST_SIZE_1]), never the fallback size, put into the asteroid
    group. *)
Theorem spawn_kinematics (p : point) (s : Z) (w : world) :
  2 <= s <= 3 -> rng_ok w ->
  let w' := exec (spawnAsteroid p s) w in
  exists k1 k2 k3 : object,
    asteroids w' = [k3; k2; k1] ++ asteroids w
    /\ map handle [k1; k2; k3]
       = [next_handle w; next_handle w + 1; next_handle w + 2]
    /\ next_handle w' = next_handle w + 3
    /\ Forall (fun k =>
                 kinematics_within (if s =? 3 then 3 else 4)
                                   (if s =? 3 then 6 else 9) k
                 /\ sprite_made w' (astGroup w)
                      (if s =? 3 then AST_SIZE_2 else AST_SIZE_1) k)
              [k3; k2; k1].
Proof.
  intros Hs Hr.
  destruct (spawnAsteroid_full p s w Hs Hr)
    as (k1 & k2 & k3 & Ha & H1 & H2 & H3 & Hn & Hall & _).
  cbv zeta. exists k1, k2, k3. split; [exact Ha|].
  split; [cbn [map]; congruence|]. split; [exact Hn|].
  eapply Forall_impl; [|exact Hall]. cbn beta.
  intros k (_ & _ & Hk & Hm). apply kinematics_ok_within in Hk.
  assert (Hc : s = 2 \/ s = 3) by lia.
  destruct Hc as [-> | ->]; split; assumption.
Qed.


Lemma hits_left_same_size (l : list object) (s : Z) :
  Forall (fun k => size k = s) l ->
  hits_left l = Z.of_nat (length l) * hits_to_clear s.
Proof.
  induction 1 as [|a l Ha Hl IH]; [reflexivity|].
  cbn [hits_left fold_right length]. fold (hits_left l).
  rewrite IH, Ha. lia.
Qed.

Section CoordinatorFurther.

Variable uCollide : list event -> Z -> Z -> option Z.
Variable seeded : Z -> nat -> Z.
Variable portTICK_RATE_MS : Z.

(** ** A pass without any collision *)

Lemma draw_bullets_quiet (l : list object) :
  (forall tr h g, uCollide tr h g = None) ->
  forall w : world,
  exists evs : list event,
    draw_bullets uCollide l w = (l, set_trace (evs ++ trace w) w)
    /\ Forall is_draw evs.
Proof.
  intros Hq. induction l as [|b rest IH]; intros w.
  - exists []. split; [|constructor]. cbn [draw_bullets app]. unfold ret.
    rewrite set_trace_same. reflexivity.
  - rewrite draw_bullets_miss by (rewrite bullet_query_spec; apply Hq).
    rewrite bullet_query_spec. cbn [snd].
    destruct (IH (set_trace
                    (SpriteSetPosition (handle b)
                       (u16 (Qtrunc (px (pos b))))
                       (u16 (Qtrunc (py (pos b)))) :: trace w) w))
      as (evs & He & Hd).
    rewrite He. cbn [fst snd]. world_simpl.
    exists (evs ++ [SpriteSetPosition (handle b) (u16 (Qtrunc (px (pos b))))
                      (u16 (Qtrunc (py (pos b))))]).
    split.
    + rewrite <- app_assoc. reflexivity.
    + apply Forall_app. split; [exact Hd|]. repeat constructor.
Qed.

Lemma draw_asteroids_quiet (l : list object) (w : world) :
  exists evs : list event,
    exec (draw_asteroids l) w = set_trace (evs ++ trace w) w
    /\ Forall is_draw evs.
Proof.
  revert w. induction l as [|a rest IH]; intros w.
  - exists []. split; [|constructor]. symmetry. apply set_trace_same.
  - cbn [draw_asteroids]. unfold vSpriteSetPosition, vSpriteSetRotation.
    rewrite !exec_emit.
    destruct (IH (set_trace
                    (SpriteSetRotation (handle a) (angle a)
                       :: trace
                            (set_trace
                               (SpriteSetPosition (handle a)
                                  (u16 (Qtrunc (px (pos a))))
                                  (u16 (Qtrunc (py (pos a)))) :: trace w) w))
                    (set_trace
                       (SpriteSetPosition (handle a)
                          (u16 (Qtrunc (px (pos a))))
                          (u16 (Qtrunc (py (pos a)))) :: trace w) w)))
      as (evs & He & Hd).
    rewrite He. world_simpl.
    exists (evs ++ [SpriteSetRotation (handle a) (angle a);
                    SpriteSetPosition (handle a) (u16 (Qtrunc (px (pos a))))
                      (u16 (Qtrunc (py (pos a))))]).
    split.
    + rewrite <- app_assoc. reflexivity.
    + apply Forall_app. split; [exact Hd|]. repeat constructor.
Qed.

Lemma exec_bind_eq {A B : Type} (c : M A) (k : A -> M B) (w w1 : world)
    (a : A) :
  c w = (a, w1) -> exec (bind c k) w = exec (k a) w1.
Proof. intros H. unfold exec, bind. rewrite H. reflexivity. Qed.

Lemma draw_ship_spec (w : world) :
  exec draw_ship w
  = set_trace
      (SpriteSetPosition (handle (ship w)) (u16 (Qtrunc (px (pos (ship w)))))
         (u16 (Qtrunc (py (pos (ship w)))))
         :: SpriteSetRotation (handle (ship w)) (u16 (angle (ship w)))
         :: trace w) w.
Proof. reflexivity. Qed.

Lemma ship_query_fst (w : world) :
  fst (ship_query uCollide w)
  = uCollide (trace w) (handle (ship w)) (astGroup w).
Proof. reflexivity. Qed.

Lemma drawTask_sync_quiet (w : world) :
  (forall tr h g, uCollide tr h g = None) ->
  exists evs : list event,
    exec (drawTask_sync uCollide) w = set_trace (evs ++ trace w) w
    /\ Forall is_draw evs.
Proof.
  intros Hq. unfold drawTask_sync.
  rewrite exec_seq, draw_ship_spec, exec_get. world_simpl.
  match goal with
  | |- context [exec _ ?u] =>
    destruct (draw_bullets_quiet (bullets w) Hq u) as (e1 & H1 & D1)
  end.
  rewrite (exec_bind_eq _ _ _ _ _ H1).
  rewrite exec_modify, exec_get. world_simpl.
  match goal with
  | |- context [exec (draw_asteroids (asteroids w)) ?u] =>
    destruct (draw_asteroids_quiet (asteroids w) u) as (e2 & H2 & D2)
  end.
  rewrite H2. world_simpl.
  exists (e2 ++ e1
          ++ [SpriteSetPosition (handle (ship w))
                (u16 (Qtrunc (px (pos (ship w)))))
                (u16 (Qtrunc (py (pos (ship w)))));
              SpriteSetRotation (handle (ship w)) (u16 (angle (ship w)))]).
  split.
  - clear. destruct w. cbn. rewrite <- !app_assoc. reflexivity.
  - apply Forall_app. split; [exact D2|].
    apply Forall_app. split; [exact D1|]. repeat constructor.
Qed.

(** When the display reports no collision at all and asteroids are left, a
    pass of [drawTask] changes nothing of the game (ship, bullets,
    asteroids, handles, random stream): all it does is move and turn
    sprites and sleep. *)
Theorem quiet_pass (tcnt0 : Z) (w : world) :
  (forall tr h g, uCollide tr h g = None) ->
  asteroids w <> [] ->
  exists evs : list event,
    exec (drawTask_pass uCollide seeded portTICK_RATE_MS tcnt0) w
    = set_trace (evs ++ trace w) w
    /\ Forall is_draw evs.
Proof.
  intros Hq Hne. unfold drawTask_pass. rewrite exec_seq.
  destruct (drawTask_sync_quiet w Hq) as (e1 & H1 & D1). rewrite H1.
  unfold drawTask_check. rewrite exec_bind, ship_query_world.
  rewrite ship_query_fst, Hq, exec_get. world_simpl.
  destruct (asteroids w) as [|a rest]; [contradiction|].
  rewrite exec_seq, exec_ret. unfold vTaskDelay, emit, modify, exec.
  world_simpl.
  exists (TaskDelay (Z.quot FRAME_DELAY_MS portTICK_RATE_MS) :: e1).
  split; [reflexivity|]. constructor; [exact I | exact D1].
Qed.

(** ** Winning *)

Lemma drawTask_pass_cleared (tcnt0 : Z) (w : world) :
  asteroids (exec (drawTask_sync uCollide) w) = [] ->
  exec (drawTask_pass uCollide seeded portTICK_RATE_MS tcnt0) w
  = exec (vTaskDelay (Z.quot FRAME_DELAY_MS portTICK_RATE_MS))
      (exec (game_over seeded portTICK_RATE_MS tcnt0)
         (exec (drawTask_sync uCollide) w)).
Proof.
  intros He. unfold drawTask_pass. rewrite exec_seq.
  revert He. generalize (exec (drawTask_sync uCollide) w). intros w1 He.
  unfold drawTask_check. rewrite exec_bind, ship_query_world.
  rewrite exec_get, He, exec_seq.
  destruct (fst (ship_query uCollide w1)); reflexivity.
Qed.

Lemma game_over_win_eq (tcnt0 : Z) (w : world) :
  asteroids w = [] ->
  exec (game_over seeded portTICK_RATE_MS tcnt0) w
  = exec (vTaskResume UpdateTask ;; vTaskResume BulletTask ;;
          vTaskResume InputTask)
      (exec (init seeded tcnt0)
         (exec reset
            (set_trace
               (SpriteDelete (next_handle w)
                  :: TaskDelay (Z.quot 3000 portTICK_RATE_MS)
                  :: SpriteCreate "win.png" 400 300 20 400 300 100
                       (next_handle w)
                  :: TaskSuspend InputTask :: TaskSuspend BulletTask
                  :: TaskSuspend UpdateTask :: trace w)
               (set_next_handle (next_handle w + 1) w)))).
Proof.
  intros He. unfold game_over.
  unfold vTaskSuspend. rewrite !exec_emit, exec_get. world_simpl.
  rewrite He, exec_xSpriteCreate.
  unfold vTaskDelay, vSpriteDelete. rewrite !exec_emit.
  world_simpl. rewrite !exec_seq. reflexivity.
Qed.

(** A pass of [drawTask] that ends its bullet loop with no asteroid left,
    whether or not the ship is reported to touch something: the three
    game tasks are suspended, the "win" sprite is shown for the 3 s pause
    and deleted, the bullets and the ship are torn down, and a fresh
    session is set up (no bullets, [INITIAL_ASTEROIDS] asteroids of size
    3, the ship at rest in the middle); then the tasks are resumed. *)
Theorem win_condition (tcnt0 : Z) (w : world) :
  let w1 := exec (drawTask_sync uCollide) w in
  asteroids w1 = [] ->
  let w' := exec (drawTask_pass uCollide seeded portTICK_RATE_MS tcnt0) w in
  (exists evs : list event,
     trace w'
     = TaskDelay (Z.quot FRAME_DELAY_MS portTICK_RATE_MS)
         :: TaskResume InputTask :: TaskResume BulletTask
         :: TaskResume UpdateTask
         :: evs ++ SpriteDelete (next_handle w1)
         :: TaskDelay (Z.quot 3000 portTICK_RATE_MS)
         :: SpriteCreate "win.png" 400 300 20 400 300 100 (next_handle w1)
         :: TaskSuspend InputTask :: TaskSuspend BulletTask
         :: TaskSuspend UpdateTask :: trace w1
     /\ (forall o, In o (bullets w1) ->
                   In (SpriteDelete (handle o)) evs /\ In (PortFree o) evs)
     /\ In (SpriteDelete (handle (ship w1))) evs)
  /\ bullets w' = []
  /\ length (asteroids w') = Z.to_nat INITIAL_ASTEROIDS
  /\ Forall (fun a => size a = 3) (asteroids w')
  /\ pos (ship w') = mkPoint 400 300 /\ vel (ship w') = mkPoint 0 0
  /\ accel (ship w') = 0%Q /\ angle (ship w') = 0 /\ a_vel (ship w') = 0.
Proof.
  cbv zeta. intros He. rewrite (drawTask_pass_cleared tcnt0 w He).
  revert He. generalize (exec (drawTask_sync uCollide) w). intros w1 He.
  rewrite game_over_win_eq by exact He. rewrite reset_spec. world_simpl.
  match goal with
  | |- context [exec (init seeded tcnt0) ?u] =>
    pose proof (init_spec seeded tcnt0 u) as Hi; cbv zeta in Hi;
    revert Hi; generalize (exec (init seeded tcnt0) u)
  end.
  intros w3 (Hb & Hl & Hall & Hp & Hv & Hac & Han & Hav & [e Hev]).
  world_simpl. unfold vTaskResume, vTaskDelay.
  rewrite !exec_emit. unfold exec, ret, emit, modify. world_simpl.
  repeat split; try assumption.
  rewrite Hev.
  exists (e ++ SpriteDelete (background w1)
          :: SpriteDelete (handle (ship w1))
          :: free_events (bullets w1)
          ++ GroupDelete (astGroup w1) :: free_events (asteroids w1)).
  split; [|split].
  - cbn [app]. rewrite <- !app_assoc. cbn [app]. rewrite <- !app_assoc.
    reflexivity.
  - intros o Ho. repeat (rewrite ?in_app_iff; cbn [In]).
    apply In_free_events in Ho as [H1 H2]. split; auto 12.
  - repeat (rewrite ?in_app_iff; cbn [In]). auto 12.
Qed.

End CoordinatorFurther.

Section OneHit.

Variable uCollide : list event -> Z -> Z -> option Z.

(** ** One bullet of the list hits *)

Lemma spawn_one_makes (p : point) (s v a : Z) (w : world) :
  exists evs : list event,
    trace (exec (spawn_one p s v a) w) = evs ++ trace w
    /\ Forall is_make evs.
Proof.
  unfold spawn_one, createAsteroid. unfold_m. world_simpl.
  eexists [_; _]. split; [reflexivity|]. repeat constructor.
Qed.

Lemma repeatM_makes (c : M unit) :
  (forall w : world,
     exists evs : list event,
       trace (exec c w) = evs ++ trace w /\ Forall is_make evs) ->
  forall (n : nat) (w : world),
    exists evs : list event,
      trace (exec (repeatM n c) w) = evs ++ trace w /\ Forall is_make evs.
Proof.
  intros Hc. induction n as [|n IH]; intros w.
  - exists []. split; [reflexivity | constructor].
  - cbn [repeatM]. rewrite exec_seq.
    destruct (Hc w) as (e1 & H1 & F1).
    destruct (IH (exec c w)) as (e2 & H2 & F2).
    exists (e2 ++ e1). split.
    + rewrite H2, H1, app_assoc. reflexivity.
    + apply Forall_app. split; assumption.
Qed.

Lemma spawnAsteroid_makes (p : point) (s : Z) (w : world) :
  exists evs : list event,
    trace (exec (spawnAsteroid p s) w) = evs ++ trace w
    /\ Forall is_make evs.
Proof.
  unfold spawnAsteroid. destruct (1 <? s).
  - destruct (spawn_limits s) as [v a].
    apply repeatM_makes. intros u. apply spawn_one_makes.
  - exists []. split; [reflexivity | constructor].
Qed.

(** The loop over a list in two parts. *)
Lemma draw_bullets_app (l1 l2 : list object) :
  forall w : world,
  draw_bullets uCollide (l1 ++ l2) w
  = (fst (draw_bullets uCollide l1 w)
       ++ fst (draw_bullets uCollide l2 (snd (draw_bullets uCollide l1 w))),
     snd (draw_bullets uCollide l2 (snd (draw_bullets uCollide l1 w)))).
Proof.
  induction l1 as [|x l1 IH]; intros w.
  - cbn [app draw_bullets]. unfold ret. cbn [fst snd app].
    destruct (draw_bullets uCollide l2 w). reflexivity.
  - cbn [app]. destruct (fst (bullet_query uCollide x w)) as [h|] eqn:Hq.
    + rewrite (draw_bullets_hit uCollide x (l1 ++ l2) h w Hq),
        (draw_bullets_hit uCollide x l1 h w Hq).
      apply IH.
    + rewrite (draw_bullets_miss uCollide x (l1 ++ l2) w Hq),
        (draw_bullets_miss uCollide x l1 w Hq).
      cbv zeta. rewrite IH. reflexivity.
Qed.

(** Bullets the display reports clear stay in the list. *)
Lemma draw_bullets_clear (l : list object) :
  (forall tr x g, In x l -> uCollide tr (handle x) g = None) ->
  forall w : world,
  exists evs : list event,
    draw_bullets uCollide l w = (l, set_trace (evs ++ trace w) w)
    /\ Forall is_draw evs.
Proof.
  induction l as [|b rest IH]; intros Hq w.
  - exists []. split; [|constructor]. cbn [draw_bullets app]. unfold ret.
    rewrite set_trace_same. reflexivity.
  - rewrite draw_bullets_miss
      by (rewrite bullet_query_spec; apply Hq; left; reflexivity).
    rewrite bullet_query_spec. cbn [snd].
    destruct (IH (fun tr x g Hx => Hq tr x g (or_intror Hx))
                (set_trace
                   (SpriteSetPosition (handle b)
                      (u16 (Qtrunc (px (pos b))))
                      (u16 (Qtrunc (py (pos b)))) :: trace w) w))
      as (evs & He & Hd).
    rewrite He. cbn [fst snd]. world_simpl.
    exists (evs ++ [SpriteSetPosition (handle b) (u16 (Qtrunc (px (pos b))))
                      (u16 (Qtrunc (py (pos b))))]).
    split.
    + rewrite <- app_assoc. reflexivity.
    + apply Forall_app. split; [exact Hd|]. repeat constructor.
Qed.

(** The pass up to the end-of-game test when the bullet [b] of the list is
    reported to touch [hit] and the other bullets are reported clear: what
    the scan for [hit] leaves, without [b] in the bullet list, and with
    the sprites moved and turned. *)
Lemma drawTask_sync_hit (before after : list object) (b : object) (hit : Z)
    (w : world) :
  bullets w = before ++ b :: after ->
  (forall tr g, uCollide tr (handle b) g = Some hit) ->
  (forall tr x g, In x (before ++ after) ->
                  uCollide tr (handle x) g = None) ->
  exists moved drawn : list event,
    Forall is_draw moved /\ Forall is_draw drawn
    /\ exec (drawTask_sync uCollide) w
       = set_bullets (before ++ after)
           (set_trace
              (drawn ++ trace
                 (exec (scan_asteroids hit [] (asteroids w))
                    (set_trace
                       (PortFree b :: SpriteDelete (handle b)
                          :: moved ++ trace w) w)))
              (exec (scan_asteroids hit [] (asteroids w))
                 (set_trace
                    (PortFree b :: SpriteDelete (handle b)
                       :: moved ++ trace w) w))).
Proof.
  intros Hb Hhit Hclear.
  assert (Hcb : forall tr x g, In x before -> uCollide tr (handle x) g = None)
    by (intros tr x g Hx; apply Hclear, in_or_app; left; exact Hx).
  assert (Hca : forall tr x g, In x after -> uCollide tr (handle x) g = None)
    by (intros tr x g Hx; apply Hclear, in_or_app; right; exact Hx).
  unfold drawTask_sync. rewrite exec_seq, draw_ship_spec, exec_get.
  world_simpl. rewrite Hb, exec_bind. unfold exec at 2.
  rewrite draw_bullets_app.
  match goal with
  | |- context [draw_bullets uCollide before ?u] =>
    destruct (draw_bullets_clear before Hcb u) as (e0 & He0 & Hd0);
    rewrite He0
  end.
  cbn [fst snd]. world_simpl.
  rewrite draw_bullets_hit with (h := hit)
    by (rewrite bullet_query_spec; apply Hhit).
  world_simpl.
  exists (SpriteSetPosition (handle b) (u16 (Qtrunc (px (pos b))))
            (u16 (Qtrunc (py (pos b))))
            :: e0
            ++ [SpriteSetPosition (handle (ship w))
                  (u16 (Qtrunc (px (pos (ship w)))))
                  (u16 (Qtrunc (py (pos (ship w)))));
                SpriteSetRotation (handle (ship w)) (u16 (angle (ship w)))]).
  cbn [app]. rewrite <- !app_assoc. cbn [app].
  match goal with
  | |- context [exec (scan_asteroids hit [] (asteroids w)) ?u] =>
    change u with
      (set_trace
         (PortFree b :: SpriteDelete (handle b)
            :: SpriteSetPosition (handle b) (u16 (Qtrunc (px (pos b))))
                 (u16 (Qtrunc (py (pos b))))
            :: e0
            ++ SpriteSetPosition (handle (ship w))
                 (u16 (Qtrunc (px (pos (ship w)))))
                 (u16 (Qtrunc (py (pos (ship w)))))
            :: SpriteSetRotation (handle (ship w)) (u16 (angle (ship w)))
            :: trace w) w)
  end.
  generalize (exec (scan_asteroids hit [] (asteroids w))
                (set_trace
                   (PortFree b :: SpriteDelete (handle b)
                      :: SpriteSetPosition (handle b)
                           (u16 (Qtrunc (px (pos b))))
                           (u16 (Qtrunc (py (pos b))))
                      :: e0
                      ++ SpriteSetPosition (handle (ship w))
                           (u16 (Qtrunc (px (pos (ship w)))))
                           (u16 (Qtrunc (py (pos (ship w)))))
                      :: SpriteSetRotation (handle (ship w))
                           (u16 (angle (ship w)))
                      :: trace w) w)).
  intros w2.
  destruct (draw_bullets_clear after Hca w2) as (e1 & He1 & Hd1).
  rewrite He1. cbn [fst snd]. rewrite exec_modify, exec_get.
  match goal with
  | |- context [exec (draw_asteroids ?l) ?v] =>
    destruct (draw_asteroids_quiet l v) as (e2 & He2 & Hd2); rewrite He2
  end.
  exists (e2 ++ e1).
  split.
  { constructor; [exact I|]. apply Forall_app. split; [exact Hd0|].
    repeat constructor. }
  split; [apply Forall_app; split; assumption|].
  world_simpl. rewrite <- app_assoc. destruct w2. reflexivity.
Qed.

(** What the scan leaves when the asteroid list has a node with the handle
    looked for. *)
Lemma scan_first_match (hit : Z) (pre suf : list object) (a : object)
    (w : world) :
  asteroids w = pre ++ a :: suf ->
  handle a = hit ->
  Forall (fun x => handle x <> hit) pre ->
  exists (kids : list object) (made : list event),
    asteroids (exec (scan_asteroids hit [] (asteroids w)) w)
    = kids ++ pre ++ suf
    /\ length kids = (if 1 <? size a then 3%nat else 0%nat)
    /\ Forall (fun k => pos k = pos a /\ size k = u8 (size a - 1)) kids
    /\ trace (exec (scan_asteroids hit [] (asteroids w)) w)
       = made ++ PortFree a :: SpriteDelete hit :: trace w
    /\ Forall is_make made.
Proof.
  intros Hasts Ha Hpre. rewrite Hasts.
  rewrite scan_asteroids_match by assumption. cbn [app].
  match goal with
  | |- context [exec (spawnAsteroid (pos a) (size a)) ?u] =>
    destruct (spawnAsteroid_spec (pos a) (size a) u)
      as (kids & Hk & Hlen & Hall & _);
    destruct (spawnAsteroid_makes (pos a) (size a) u) as (made & Ht & Hm);
    cbv zeta in Hk; revert Hk Ht;
    generalize (exec (spawnAsteroid (pos a) (size a)) u)
  end.
  intros w' Hk Ht. world_simpl. exists kids, made.
  split; [exact Hk|]. split; [exact Hlen|].
  split; [eapply Forall_impl; [|exact Hall]; cbn; tauto|].
  split; [rewrite Ht, Ha; reflexivity | exact Hm].
Qed.

(** C9.  The asteroid list has a node with the handle [hit].  The scan
    of [drawTask] for [hit], from whatever state, takes exactly one
    asteroid out of the list, the first in list order with that handle:
    the asteroids before and after it, later ones with the same handle
    included, are in the list as they were and in their order, behind the
    asteroids the decomposition adds; that asteroid's sprite is deleted
    and its node freed, and all the scan does besides is make sprites.
    And this is what a pass leaves: in a pass of [drawTask] up to its
    end-of-game test in which the bullet [b] of the list is reported to
    touch [hit] and the other bullets are reported clear, [b] is out of
    the bullet list, the asteroid list is the one just described, and the
    pass deletes the sprite and frees the node of [b] and of that
    asteroid and of nothing else: all its other calls make sprites, or
    move or turn them. *)
Theorem hit_removes_first_match (before after : list object) (b : object)
    (hit : Z) (pre suf : list object) (a : object) (w : world) :
  asteroids w = pre ++ a :: suf ->
  handle a = hit ->
  Forall (fun x => handle x <> hit) pre ->
  (exists (kids : list object) (made : list event),
     asteroids (exec (scan_asteroids hit [] (asteroids w)) w)
     = kids ++ pre ++ suf
     /\ length kids = (if 1 <? size a then 3%nat else 0%nat)
     /\ Forall (fun k => pos k = pos a /\ size k = u8 (size a - 1)) kids
     /\ trace (exec (scan_asteroids hit [] (asteroids w)) w)
        = made ++ PortFree a :: SpriteDelete hit :: trace w
     /\ Forall is_make made)
  /\ (bullets w = before ++ b :: after ->
      (forall tr g, uCollide tr (handle b) g = Some hit) ->
      (forall tr x g, In x (before ++ after) ->
                      uCollide tr (handle x) g = None) ->
      let w' := exec (drawTask_sync uCollide) w in
      bullets w' = before ++ after
      /\ exists (kids : list object) (moved made drawn : list event),
           asteroids w' = kids ++ pre ++ suf
           /\ length kids = (if 1 <? size a then 3%nat else 0%nat)
           /\ Forall (fun k => pos k = pos a /\ size k = u8 (size a - 1))
                     kids
           /\ trace w'
              = drawn ++ made
                  ++ PortFree a :: SpriteDelete hit
                  :: PortFree b :: SpriteDelete (handle b)
                  :: moved ++ trace w
           /\ Forall is_draw moved /\ Forall is_make made
           /\ Forall is_draw drawn).
Proof.
  intros Hasts Ha Hpre.
  split; [exact (scan_first_match hit pre suf a w Hasts Ha Hpre)|].
  intros Hb Hhit Hclear w'. subst w'.
  destruct (drawTask_sync_hit before after b hit w Hb Hhit Hclear)
    as (moved & drawn & Hmv & Hd & E).
  rewrite E. clear E.
  match goal with
  | |- context [exec (scan_asteroids hit [] (asteroids w)) ?u] =>
    destruct (scan_first_match hit pre suf a u Hasts Ha Hpre)
      as (kids & made & Hk & Hlen & Hall & Ht & Hm);
    revert Hk Ht; world_simpl;
    generalize (exec (scan_asteroids hit [] (asteroids w)) u)
  end.
  intros w2 Hk Ht. world_simpl.
  split; [reflexivity|]. exists kids, moved, made, drawn.
  split; [exact Hk|]. split; [exact Hlen|]. split; [exact Hall|].
  split; [rewrite Ht; reflexivity|]. repeat split; assumption.
Qed.

(** ** A hit on a sprite that is no asteroid of the list *)


(** ** Hits left *)


End OneHit.

(** ** The start of a session *)

Lemma start_coordinate (half r1 r2 : Z) :
  DEAD_ZONE_OVER_2 < half <= 16383 -> 0 <= r1 -> 0 <= r2 ->
  start_ok half (i16 (Z.rem r1 (half - DEAD_ZONE_OVER_2)
                      + Z.rem r2 2 * (half + DEAD_ZONE_OVER_2))).
Proof.
  intros Hd R0 R1. unfold DEAD_ZONE_OVER_2 in *.
  pose proof (Z.rem_bound_pos r1 (half - 120) R0 ltac:(lia)) as B0.
  pose proof (Z.rem_bound_pos r2 2 R1 ltac:(lia)) as B1.
  unfold start_ok, i16, DEAD_ZONE_OVER_2.
  assert (Hc : Z.rem r2 2 = 0 \/ Z.rem r2 2 = 1) by lia.
  destruct Hc as [E | E]; rewrite E; rewrite Z.mod_small by lia; lia.
Qed.

(** [getRandStartPosVal]: for a half extent above the dead zone that fits
    [int16_t] when doubled, the coordinate is on the screen and outside
    the dead zone around the middle, on either side of it; two values of
    [rand()] are used up. *)
Theorem getRandStartPosVal_safe (dimOver2 : Z) (w : world) :
  DEAD_ZONE_OVER_2 < dimOver2 <= 16383 -> rng_ok w ->
  start_ok dimOver2 (fst (getRandStartPosVal dimOver2 w))
  /\ snd (getRandStartPosVal dimOver2 w)
     = set_rng (fun n => rng w (S (S n))) w.
Proof.
  intros Hd Hr. unfold getRandStartPosVal. unfold_m. world_simpl.
  split; [apply start_coordinate; [exact Hd | apply Hr | apply Hr]|].
  destruct w; reflexivity.
Qed.

Lemma avel_bounds (a r : Z) :
  0 <= r -> 0 < a <= 12 -> - a <= i8 (Qtrunc (spread a r)) <= a - 1.
Proof.
  intros Hr Ha. rewrite Qtrunc_spread, (i8_small (a * 10)) by lia.
  pose proof (Z.rem_bound_pos r (a * 10) Hr ltac:(lia)) as Hb.
  assert (H1 : Z.quot (-(5 * a)) 5 <= Z.quot (Z.rem r (a * 10) - 5 * a) 5)
    by (apply Z.quot_le_mono; lia).
  assert (H2 : Z.quot (Z.rem r (a * 10) - 5 * a) 5 <= Z.quot (5 * a - 1) 5)
    by (apply Z.quot_le_mono; lia).
  assert (H3 : Z.quot (-(5 * a)) 5 = - a).
  { rewrite Z.quot_opp_l by lia. rewrite Z.mul_comm, Z.quot_mul by lia.
    reflexivity. }
  assert (H4 : Z.quot (5 * a - 1) 5 = a - 1).
  { rewrite Z.quot_div_nonneg by lia.
    symmetry. apply (Z.div_unique _ 5 (a - 1) 4); lia. }
  rewrite i8_small; lia.
Qed.

(** One round of the loop of [init]. *)
Lemma init_one_full (w : world) :
  rng_ok w ->
  let w' := exec init_one w in
  exists k : object,
    asteroids w' = k :: asteroids w
    /\ handle k = next_handle w /\ next_handle w' = next_handle w + 1
    /\ size k = 3 /\ placed_start k /\ kinematics_ok 2 3 k
    /\ sprite_made w' (astGroup w) AST_SIZE_3 k
    /\ extends w w'
    /\ rng_ok w' /\ astGroup w' = astGroup w /\ background w' = background w
    /\ bullets w' = bullets w /\ ship w' = ship w.
Proof.
  intros Hr.
  unfold init_one, getRandStartPosVal, rand_spreadQ, createAsteroid.
  unfold_m. world_simpl.
  eexists. split; [reflexivity|].
  cbn [handle pos size vel angle a_vel px py]. world_simpl.
  split; [reflexivity|]. split; [reflexivity|]. split; [reflexivity|].
  split.
  { eexists _, _. split; [reflexivity|].
    split; (apply start_coordinate;
            [vm_compute; split; [reflexivity | discriminate]
            | apply Hr | apply Hr]). }
  split.
  { unfold kinematics_ok. cbn [vel angle a_vel px py].
    change (spreadQ AST_MAX_VEL_3) with (spread 2).
    change (spreadQ AST_MAX_AVEL_3) with (spread 3).
    split; [apply (spread_bounds 2); [apply Hr | lia]|].
    split; [apply (spread_bounds 2); [apply Hr | lia]|].
    split.
    - pose proof (Z.rem_bound_pos (rng w 6%nat) 360 (Hr 6%nat) ltac:(lia)).
      unfold i16. rewrite Z.mod_small; lia.
    - apply (avel_bounds 3); [apply Hr | lia]. }
  split.
  { unfold sprite_made. cbn [trace handle pos angle px py]. split.
    - eexists. split; [apply astImages_cases|]. right. left. reflexivity.
    - left. reflexivity. }
  split; [eexists [_; _]; reflexivity|].
  split; [intros n; apply Hr|]. repeat split.
Qed.

Lemma init_loop_full (n : nat) :
  forall w : world,
  rng_ok w ->
  let w' := exec (repeatM n init_one) w in
  exists kids : list object,
    asteroids w' = kids ++ asteroids w /\ length kids = n
    /\ Forall (fun k => size k = 3 /\ placed_start k /\ kinematics_ok 2 3 k
                 /\ sprite_made w' (astGroup w) AST_SIZE_3 k
                 /\ next_handle w <= handle k < next_handle w') kids
    /\ NoDup (map handle kids)
    /\ next_handle w' = next_handle w + Z.of_nat n
    /\ extends w w'
    /\ rng_ok w' /\ astGroup w' = astGroup w /\ background w' = background w
    /\ bullets w' = bullets w /\ ship w' = ship w.
Proof.
  induction n as [|n IH]; intros w Hr; cbv zeta.
  - exists []. cbn [repeatM]. rewrite exec_ret. cbn [app length map Z.of_nat].
    repeat split; try constructor; auto using extends_refl; lia.
  - cbn [repeatM]. rewrite exec_seq.
    destruct (init_one_full w Hr)
      as (k & A1 & Hh & N1 & S1 & P1 & K1 & M1 & E1 & R1 & G1 & Bg1 & B1
          & Sh1).
    cbv zeta in *. revert A1 N1 M1 E1 R1 G1 Bg1 B1 Sh1.
    generalize (exec init_one w). intros w1 A1 N1 M1 E1 R1 G1 Bg1 B1 Sh1.
    destruct (IH w1 R1)
      as (kids & A2 & L2 & F2 & D2 & N2 & E2 & R2 & G2 & Bg2 & B2 & Sh2).
    cbv zeta in *. revert A2 F2 N2 E2 R2 G2 Bg2 B2 Sh2.
    generalize (exec (repeatM n init_one) w1).
    intros w2 A2 F2 N2 E2 R2 G2 Bg2 B2 Sh2.
    exists (kids ++ [k]).
    split; [rewrite A2, A1, <- app_assoc; reflexivity|].
    split; [rewrite length_app, L2; cbn; lia|].
    split.
    { apply Forall_app. split.
      - eapply Forall_impl; [|exact F2]. cbn beta.
        intros x (X1 & X2 & X3 & X4 & X5). rewrite G1 in X4.
        repeat (split; [assumption|]). lia.
      - constructor; [|constructor].
        split; [exact S1|]. split; [exact P1|]. split; [exact K1|].
        split; [eapply sprite_made_extends; [exact E2 | exact M1]|]. lia. }
    split.
    { rewrite map_app. cbn [map]. apply NoDup_app.
      - exact D2.
      - constructor; [intros []|constructor].
      - intros h Hin [Hk | []]. subst h.
        apply in_map_iff in Hin as (x & Hx & Hin).
        rewrite Forall_forall in F2. apply F2 in Hin. lia. }
    split; [lia|].
    split; [eapply extends_trans; eassumption|].
    split; [exact R2|]. repeat split; congruence.
Qed.

Section SessionStart.

Variable seeded : Z -> nat -> Z.

(** What [init] leaves behind, field by field. *)
Lemma init_full (tcnt0 : Z) (w : world) :
  (forall n, 0 <= seeded tcnt0 n) ->
  let w' := exec (init seeded tcnt0) w in
  bullets w' = []
  /\ length (asteroids w') = Z.to_nat INITIAL_ASTEROIDS
  /\ hits_left (asteroids w') = 65
  /\ Forall (fun k => size k = 3 /\ placed_start k /\ kinematics_ok 2 3 k
               /\ sprite_made w' (astGroup w') AST_SIZE_3 k
               /\ next_handle w + 2 <= handle k < next_handle w + 7)
            (asteroids w')
  /\ NoDup (map handle (asteroids w'))
  /\ background w' = next_handle w /\ astGroup w' = next_handle w + 1
  /\ handle (ship w') = next_handle w + 7
  /\ next_handle w' = next_handle w + 8
  /\ pos (ship w') = mkPoint 400 300 /\ vel (ship w') = mkPoint 0 0
  /\ accel (ship w') = 0%Q /\ angle (ship w') = 0 /\ a_vel (ship w') = 0
  /\ rng_ok w' /\ extends w w'.
Proof.
  intros Hseed. cbv zeta. unfold init.
  rewrite !exec_modify, exec_xSpriteCreate, exec_modify.
  unfold srand. rewrite exec_modify, exec_xGroupCreate, exec_modify, exec_seq.
  world_simpl.
  match goal with
  | |- context [exec (repeatM _ init_one) ?u] =>
    assert (Hr0 : rng_ok u) by (intros n; apply Hseed);
    assert (Hb0 : bullets u = []) by reflexivity;
    assert (Ha0 : asteroids u = []) by reflexivity;
    assert (Hn0 : next_handle u = next_handle w + 2)
      by (world_simpl; lia);
    assert (Hg0 : astGroup u = next_handle w + 1) by reflexivity;
    assert (Hbg0 : background u = next_handle w) by reflexivity;
    assert (He0 : extends w u)
      by (unfold extends; world_simpl; eexists [_; _]; reflexivity);
    revert Hr0 Hb0 Ha0 Hn0 Hg0 Hbg0 He0; generalize u
  end.
  intros w0 Hr0 Hb0 Ha0 Hn0 Hg0 Hbg0 He0.
  pose proof (init_loop_full (Z.to_nat INITIAL_ASTEROIDS) w0 Hr0) as Hloop.
  cbv zeta in Hloop. revert Hloop.
  generalize (exec (repeatM (Z.to_nat INITIAL_ASTEROIDS) init_one) w0).
  intros w1 (kids & Ha & Hl & Hall & Hnd & Hn & He & Hr & Hg & Hbg & Hb & Hsh).
  rewrite exec_xSpriteCreate, exec_get, exec_modify_last. world_simpl.
  cbn [pos vel accel angle a_vel handle set_a_vel set_angle set_accel set_vel
       set_pos set_handle].
  rewrite Ha0, app_nil_r in Ha.
  rewrite Hb, Ha, Hb0, Hg, Hg0, Hbg, Hbg0, Hn, Hn0.
  change (Z.of_nat (Z.to_nat INITIAL_ASTEROIDS)) with 5.
  split; [reflexivity|]. split; [exact Hl|].
  split.
  { rewrite (hits_left_same_size kids 3), Hl; [reflexivity|].
    eapply Forall_impl; [|exact Hall]. cbn. tauto. }
  split.
  { eapply Forall_impl; [|exact Hall]. cbn beta.
    intros k (X1 & X2 & X3 & X4 & X5).
    rewrite Hn, Hn0 in X5. rewrite Hg0 in X4.
    change (Z.of_nat (Z.to_nat INITIAL_ASTEROIDS)) with 5 in X5.
    split; [exact X1|]. split; [exact X2|]. split; [exact X3|].
    split; [|lia].
    destruct X4 as [(img & Hi & H1) H2]. unfold sprite_made. world_simpl.
    split; [exists img; split; [exact Hi|]|]; right; assumption. }
  split; [exact Hnd|].
  repeat (split; [reflexivity || lia|]).
  split; [exact Hr|].
  eapply extends_trans; [exact He0|].
  destruct He as [evs He]. unfold extends. world_simpl. rewrite He.
  exists (SpriteCreate "ship.png" 400 300 0 SHIP_SIZE SHIP_SIZE 1
            (next_handle w + 2 + 5) :: evs).
  reflexivity.
Qed.

(** [init] from any state, with [rand()] giving values from 0 on after
    [srand]: no bullets; [INITIAL_ASTEROIDS] asteroids of size 3 (65 hits
    to clear), each on the screen and at least [DEAD_ZONE_OVER_2] from
    the middle on both axes, with velocity components from -2 to 1.8, a
    heading from 0 to 359 and a turn rate from -3 to 2, and with a square
    sprite of side [AST_SIZE_3] in the new asteroid group; the ship at
    rest in the middle with heading 0; background, group, asteroids and
    ship get eight handles never given out before. *)
Theorem init_session (tcnt0 : Z) (w : world) :
  (forall n, 0 <= seeded tcnt0 n) ->
  let w' := exec (init seeded tcnt0) w in
  bullets w' = []
  /\ length (asteroids w') = Z.to_nat INITIAL_ASTEROIDS
  /\ hits_left (asteroids w') = 65
  /\ Forall (fun k => size k = 3 /\ placed_start k /\ kinematics_ok 2 3 k
               /\ sprite_made w' (astGroup w') AST_SIZE_3 k
               /\ next_handle w + 2 <= handle k < next_handle w + 7)
            (asteroids w')
  /\ NoDup (map handle (asteroids w'))
  /\ background w' = next_handle w /\ astGroup w' = next_handle w + 1
  /\ handle (ship w') = next_handle w + 7
  /\ next_handle w' = next_handle w + 8
  /\ pos (ship w') = mkPoint 400 300 /\ vel (ship w') = mkPoint 0 0
  /\ accel (ship w') = 0%Q /\ angle (ship w') = 0 /\ a_vel (ship w') = 0
  /\ rng_ok w' /\ extends w w'.
Proof.
  exact (init_full tcnt0 w).
Qed.

End SessionStart.

(** ** What holds between passes *)

Lemma first_match_split (hit : Z) (l : list object) :
  Forall (fun x => handle x <> hit) l
  \/ exists (pre suf : list object) (a : object),
       l = pre ++ a :: suf /\ handle a = hit
       /\ Forall (fun x => handle x <> hit) pre.
Proof.
  induction l as [|x l IH]; [left; constructor|].
  destruct (Z.eq_dec (handle x) hit) as [E | E].
  - right. exists [], l, x. repeat split; [exact E | constructor].
  - destruct IH as [IH | (pre & suf & a & Hl & Ha & Hp)].
    + left. constructor; assumption.
    + right. exists (x :: pre), suf, a. rewrite Hl.
      repeat split; [exact Ha | constructor; assumption].
Qed.

Lemma kinematics_slow (V A : Z) (k : object) :
  0 <= V <= 4 -> kinematics_ok V A k ->
  (-4 <= px (vel k) <= 4)%Q /\ (-4 <= py (vel k) <= 4)%Q.
Proof.
  intros HV ((H1 & H2) & (H3 & H4) & _).
  assert (Hq : (0 <= inject_Z V <= 4)%Q).
  { change 0%Q with (inject_Z 0). change 4%Q with (inject_Z 4).
    rewrite <- !Zle_Qle. exact HV. }
  split; split; lra.
Qed.

Lemma placed_start_on_screen (k : object) : placed_start k -> on_screen (pos k).
Proof.
  intros (x & y & Hp & Hx & Hy). rewrite Hp. unfold on_screen. cbn [px py].
  unfold start_ok in *. change (Z.shiftr SCREEN_W 1) with 400 in Hx.
  change (Z.shiftr SCREEN_H 1) with 300 in Hy.
  unfold DEAD_ZONE_OVER_2, SCREEN_W, SCREEN_H in *.
  change 0%Q with (inject_Z 0). rewrite <- !Zle_Qle. lia.
Qed.

(** The scan for the asteroid that was hit keeps the asteroids valid. *)
Lemma scan_keeps_asteroids (hit : Z) (w : world) :
  Forall asteroid_ok (asteroids w) -> rng_ok w ->
  let w' := exec (scan_asteroids hit [] (asteroids w)) w in
  Forall asteroid_ok (asteroids w') /\ rng_ok w'
  /\ ship w' = ship w /\ bullets w' = bullets w.
Proof.
  intros Hall Hr. cbv zeta.
  destruct (first_match_split hit (asteroids w))
    as [Hmiss | (pre & suf & a & Hl & Ha & Hp)].
  - unfold exec. rewrite scan_asteroids_miss by exact Hmiss. cbn [snd].
    repeat split; assumption.
  - rewrite Hl, (scan_asteroids_match hit pre suf [] a w Hp Ha). cbn [app].
    rewrite Hl in Hall. apply Forall_app in Hall as [Vpre Vrest].
    inversion Vrest as [|? ? Va Vsuf]; subst.
    destruct Va as (Vs & Vp & Vv).
    assert (Hc : size a = 1 \/ 2 <= size a <= 3) by (unfold valid_size in Vs; lia).
    destruct Hc as [E | E].
    + unfold spawnAsteroid. rewrite E. change (1 <? 1) with false.
      cbv iota. rewrite exec_ret. world_simpl.
      repeat split; [apply Forall_app; split; assumption | exact Hr].
    + match goal with
      | |- context [exec (spawnAsteroid (pos a) (size a)) ?u] =>
        destruct (spawnAsteroid_full (pos a) (size a) u E Hr)
          as (k1 & k2 & k3 & Hk & _ & _ & _ & _ & Hkids & _ & Hr' & _
              & Hb & Hs);
        cbv zeta in Hk, Hkids, Hr', Hb, Hs; revert Hk Hkids Hr' Hb Hs;
        generalize (exec (spawnAsteroid (pos a) (size a)) u)
      end.
      intros w' Hk Hkids Hr' Hb Hs. world_simpl.
      split; [|repeat split; assumption].
      rewrite Hk. apply Forall_app. split.
      * eapply Forall_impl; [|exact Hkids]. cbn beta.
        intros k (Kp & Ks & Kk & _).
        split; [unfold valid_size; lia|]. split; [rewrite Kp; exact Vp|].
        apply (kinematics_slow _ _ k) in Kk; [exact Kk|].
        assert (Hc : size a = 2 \/ size a = 3) by lia.
        destruct Hc as [-> | ->]; vm_compute; split; discriminate.
      * apply Forall_app; split; assumption.
Qed.

Lemma integrate_on_screen (o : object) :
  on_screen (pos o) ->
  (-6 <= px (vel o) <= 6)%Q -> (-6 <= py (vel o) <= 6)%Q ->
  on_screen (pos (integrate o)).
Proof.
  intros Hp Hx Hy. apply (integrate_placed o). split; [exact Hp|].
  unfold slow, SCREEN_W, SCREEN_H.
  change (inject_Z 800) with 800%Q. change (inject_Z 600) with 600%Q.
  split; lra.
Qed.

Lemma spin_a_vel (s : object) : a_vel (spin s) = a_vel s.
Proof.
  unfold spin. destruct (360 <=? _); [reflexivity|].
  destruct (_ <? 0); reflexivity.
Qed.

Lemma spin_accel (s : object) : accel (spin s) = accel s.
Proof.
  unfold spin. destruct (360 <=? _); [reflexivity|].
  destruct (_ <? 0); reflexivity.
Qed.

Lemma thrust_a_vel (sin_deg cos_deg : Z -> Q) (s : object) :
  a_vel (thrust sin_deg cos_deg s) = a_vel s.
Proof. unfold thrust. destruct (Qgtb _ _); reflexivity. Qed.

Lemma thrust_accel (sin_deg cos_deg : Z -> Q) (s : object) :
  accel (thrust sin_deg cos_deg s) = accel s.
Proof. unfold thrust. destruct (Qgtb _ _); reflexivity. Qed.

Lemma integrate_fields (o : object) :
  a_vel (integrate o) = a_vel o /\ accel (integrate o) = accel o
  /\ vel (integrate o) = vel o.
Proof. repeat split. Qed.

Lemma survivors_ok (l : list object) :
  Forall bullet_ok l -> Forall bullet_ok (survivors l).
Proof.
  intros H. rewrite Forall_forall in *. intros b' Hb'.
  apply In_survivors in Hb' as (b & Hin & He & ->).
  destruct (H b Hin) as (Hp & Hx & Hy & Hl).
  assert (Hage : life (age b) = life b + FRAME_DELAY_MS).
  { apply age_life. unfold BULLET_LIFE_MS in Hl. lia. }
  unfold expired in He. apply Z.leb_gt in He.
  split; [apply integrate_on_screen; assumption|].
  split; [exact Hx|]. split; [exact Hy|].
  change (life (integrate (age b))) with (life (age b)).
  rewrite Hage in *. unfold FRAME_DELAY_MS in *. lia.
Qed.

Section Between.

Variable sin_deg cos_deg : Z -> Q.
Variable uCollide : list event -> Z -> Z -> option Z.
Variable seeded : Z -> nat -> Z.
Variable portTICK_RATE_MS : Z.

Hypothesis trig_bounded :
  forall a : Z, (-1 <= sin_deg a <= 1)%Q /\ (-1 <= cos_deg a <= 1)%Q.
Hypothesis rand_from_0 : forall (seed : Z) (n : nat), 0 <= seeded seed n.

Lemma inputTask_keeps (pinb : Z) (w : world) :
  game_ok w -> game_ok (exec (inputTask_pass pinb) w).
Proof.
  intros ((Hp & Ha & _ & _ & Hv) & Hb & Hr & Hg).
  unfold inputTask_pass. unfold_m. world_simpl.
  split; [|repeat split; assumption].
  destruct (LEFT_BUTTON pinb), (RIGHT_BUTTON pinb), (ACCEL_BUTTON pinb);
    (split; [exact Hp|]; split; [exact Ha|];
     split; [cbn; tauto|]; split; [cbn; tauto | exact Hv]).
Qed.

Lemma bulletTask_keeps (pinb : Z) (w : world) :
  game_ok w ->
  game_ok (exec (bulletTask_pass sin_deg cos_deg portTICK_RATE_MS pinb) w).
Proof.
  intros (Hs & Hb & Hr & Hg).
  destruct (bulletTask_pass_spec sin_deg cos_deg portTICK_RATE_MS pinb w)
    as (_ & Eb & Es & Ea).
  cbv zeta in Eb, Es, Ea. unfold exec.
  assert (Er : rng (snd (bulletTask_pass sin_deg cos_deg portTICK_RATE_MS
                           pinb w)) = rng w).
  { unfold bulletTask_pass. destruct (SHOOT_BUTTON pinb); reflexivity. }
  revert Eb Es Ea Er.
  generalize (snd (bulletTask_pass sin_deg cos_deg portTICK_RATE_MS pinb w)).
  intros w' Eb Es Ea Er.
  split; [rewrite Es; exact Hs|]. split; [|split].
  - rewrite Eb. destruct (SHOOT_BUTTON pinb); [|exact Hb].
    constructor; [|exact Hb].
    destruct Hs as (Hp & _).
    destruct (trig_bounded (angle (ship w))) as [Hsin Hcos].
    unfold bullet_ok, BULLET_VEL, BULLET_LIFE_MS. cbn [pos vel life px py].
    split; [exact Hp|]. split; [lra|]. split; [lra | lia].
  - rewrite Ea. exact Hr.
  - intros n. rewrite Er. apply Hg.
Qed.

Lemma updateTask_keeps (w : world) :
  game_ok w ->
  game_ok (exec (updateTask_pass sin_deg cos_deg portTICK_RATE_MS) w).
Proof.
  intros ((Hp & Ha & Hav & Hac & Hv) & Hb & Hr & Hg).
  rewrite updateTask_pass_spec. unfold game_ok. world_simpl.
  split; [|split; [apply survivors_ok; exact Hb | split; [|exact Hg]]].
  - split.
    { apply (integrate_placed (thrust sin_deg cos_deg (spin (ship w)))).
      split; [rewrite thrust_pos, spin_pos; exact Hp | apply thrust_slow]. }
    rewrite integrate_angle, thrust_angle.
    split; [apply spin_angle; [exact Ha | lia]|].
    split.
    { rewrite (proj1 (integrate_fields _)), thrust_a_vel, spin_a_vel.
      exact Hav. }
    split.
    { rewrite (proj1 (proj2 (integrate_fields _))), thrust_accel, spin_accel.
      exact Hac. }
    rewrite (proj2 (proj2 (integrate_fields _))).
    eapply Qle_trans; [apply thrust_speed | unfold SHIP_MAX_VEL; lra].
  - apply Forall_map. eapply Forall_impl; [|exact Hr].
    intros a (Vs & Vp & Vx & Vy).
    split; [exact Vs|]. split; [|split; assumption].
    apply integrate_on_screen; [exact Vp | lra | lra].
Qed.

Lemma draw_bullets_keeps (l : list object) :
  forall w : world,
  Forall asteroid_ok (asteroids w) -> rng_ok w ->
  let r := draw_bullets uCollide l w in
  Forall asteroid_ok (asteroids (snd r)) /\ rng_ok (snd r)
  /\ ship (snd r) = ship w /\ bullets (snd r) = bullets w
  /\ (forall P : object -> Prop, Forall P l -> Forall P (fst r)).
Proof.
  induction l as [|b rest IH]; intros w Ha Hr; cbv zeta.
  - cbn [draw_bullets]. unfold ret. cbn [fst snd]. repeat split; auto.
  - destruct (fst (bullet_query uCollide b w)) as [h|] eqn:Hq.
    + rewrite (draw_bullets_hit uCollide b rest h w Hq).
      match goal with
      | |- context [exec (scan_asteroids h [] (asteroids w)) ?u] =>
        destruct (scan_keeps_asteroids h u Ha Hr) as (Ha' & Hr' & Hs' & Hb');
        cbv zeta in Ha', Hr', Hs', Hb'; world_simpl;
        revert Ha' Hr' Hs' Hb';
        generalize (exec (scan_asteroids h [] (asteroids w)) u)
      end.
      intros w1 Ha' Hr' Hs' Hb'.
      destruct (IH w1 Ha' Hr') as (A & R & S & B & F).
      split; [exact A|]. split; [exact R|]. split; [congruence|].
      split; [congruence|].
      intros P HP. inversion HP; subst. apply F. assumption.
    + rewrite (draw_bullets_miss uCollide b rest w Hq). cbv zeta.
      rewrite bullet_query_spec. cbn [fst snd].
      match goal with
      | |- context [draw_bullets uCollide rest ?u] =>
        destruct (IH u Ha Hr) as (A & R & S & B & F)
      end.
      split; [exact A|]. split; [exact R|]. split; [exact S|].
      split; [exact B|].
      intros P HP. inversion HP; subst. constructor; [assumption|].
      apply F. assumption.
Qed.

Lemma drawTask_sync_keeps (w : world) :
  game_ok w -> game_ok (exec (drawTask_sync uCollide) w).
Proof.
  intros (Hs & Hb & Ha & Hr). unfold drawTask_sync.
  rewrite exec_seq, draw_ship_spec, exec_get. world_simpl.
  match goal with
  | |- context [exec _ ?u] =>
    destruct (draw_bullets_keeps (bullets w) u Ha Hr) as (A & R & S & B & F);
    cbv zeta in A, R, S, B, F; rewrite exec_bind; unfold exec at 2;
    specialize (F bullet_ok Hb); revert A R S B F;
    generalize (draw_bullets uCollide (bullets w) u)
  end.
  intros [bs w1] A R S B F. cbn [fst snd] in *.
  rewrite exec_modify, exec_get. world_simpl.
  destruct (draw_asteroids_only_trace (asteroids w1) (set_bullets bs w1))
    as [evs He].
  rewrite He. unfold game_ok. world_simpl.
  split; [rewrite S; exact Hs|]. split; [exact F|]. split; [exact A | exact R].
Qed.

Lemma game_over_keeps (tcnt0 : Z) (w : world) :
  game_ok (exec (game_over seeded portTICK_RATE_MS tcnt0) w).
Proof.
  unfold game_over. unfold vTaskSuspend. rewrite !exec_emit, exec_get.
  rewrite exec_bind.
  match goal with
  | |- context [exec (vTaskDelay _ ;; _) ?u] => generalize u
  end.
  intros w1. unfold vTaskDelay, vSpriteDelete. rewrite !exec_emit, !exec_seq.
  match goal with
  | |- context [exec (init seeded tcnt0) ?u] =>
    pose proof (init_full seeded tcnt0 u (rand_from_0 tcnt0)) as Hi;
    cbv zeta in Hi; revert Hi; generalize (exec (init seeded tcnt0) u)
  end.
  intros w3 (Hb & _ & _ & Hall & _ & _ & _ & _ & _ & Hp & Hv & Hac & Han
             & Hav & Hr & _).
  unfold vTaskResume, emit, modify, exec, bind, ret, game_ok. world_simpl.
  split; [|split; [rewrite Hb; constructor | split; [|exact Hr]]].
  - unfold ship_ok. rewrite Hp, Hv, Hac, Han, Hav. cbn [px py].
    split; [unfold on_screen, SCREEN_W, SCREEN_H; cbn [px py];
            change (inject_Z 800) with 800%Q;
            change (inject_Z 600) with 600%Q; lra|].
    split; [lia|]. split; [tauto|]. split; [tauto|].
    unfold SHIP_MAX_VEL. lra.
  - eapply Forall_impl; [|exact Hall]. cbn beta.
    intros k (Ks & Kp & Kk & _).
    split; [unfold valid_size; lia|].
    split; [apply placed_start_on_screen; exact Kp|].
    apply (kinematics_slow 2 3 k); [lia | exact Kk].
Qed.

Lemma drawTask_keeps (tcnt0 : Z) (w : world) :
  game_ok w ->
  game_ok (exec (drawTask_pass uCollide seeded portTICK_RATE_MS tcnt0) w).
Proof.
  intros Hok. apply drawTask_sync_keeps in Hok.
  unfold drawTask_pass. rewrite exec_seq. revert Hok.
  generalize (exec (drawTask_sync uCollide) w). intros w1 Hok.
  unfold drawTask_check. rewrite exec_bind, ship_query_world, exec_get.
  rewrite exec_seq. unfold vTaskDelay, emit. rewrite exec_modify_last.
  assert (K : forall u, game_ok u ->
                        game_ok (set_trace (TaskDelay
                          (Z.quot FRAME_DELAY_MS portTICK_RATE_MS)
                          :: trace u) u)) by (intros u Hu; exact Hu).
  apply K.
  destruct (fst (ship_query uCollide w1)), (asteroids w1);
    try apply game_over_keeps.
  rewrite exec_ret. exact Hok.
Qed.

Lemma drawTask_start_keeps (tcnt0 : Z) (w : world) :
  game_ok (exec (drawTask_start seeded tcnt0) w).
Proof.
  unfold drawTask_start. unfold vTaskSuspend. rewrite !exec_emit, exec_seq.
  match goal with
  | |- context [exec (init seeded tcnt0) ?u] =>
    pose proof (init_full seeded tcnt0 u (rand_from_0 tcnt0)) as Hi;
    cbv zeta in Hi; revert Hi; generalize (exec (init seeded tcnt0) u)
  end.
  intros w3 (Hb & _ & _ & Hall & _ & _ & _ & _ & _ & Hp & Hv & Hac & Han
             & Hav & Hr & _).
  unfold vTaskResume, emit, modify, exec, bind, ret, game_ok. world_simpl.
  split; [|split; [rewrite Hb; constructor | split; [|exact Hr]]].
  - unfold ship_ok. rewrite Hp, Hv, Hac, Han, Hav. cbn [px py].
    split; [unfold on_screen, SCREEN_W, SCREEN_H; cbn [px py];
            change (inject_Z 800) with 800%Q;
            change (inject_Z 600) with 600%Q; lra|].
    split; [lia|]. split; [tauto|]. split; [tauto|].
    unfold SHIP_MAX_VEL. lra.
  - eapply Forall_impl; [|exact Hall]. cbn beta.
    intros k (Ks & Kp & Kk & _).
    split; [unfold valid_size; lia|].
    split; [apply placed_start_on_screen; exact Kp|].
    apply (kinematics_slow 2 3 k); [lia | exact Kk].
Qed.

(** What holds between passes is kept by every pass.  A pass of any of
    the four tasks, run from its start to its end on a state of the
    following kind, leaves a state of that kind, and the start of
    [drawTask] leaves one from any state, when sine and cosine stay
    within -1 and 1 and [rand()] gives values from 0 on: every asteroid
    has a size from 1 to 3, is on the screen (edges included) and moves
    by at most 4 per tick on each axis; every bullet is on the screen,
    moves by at most 6 per tick on each axis and has an age below the
    time to live; the ship is on the screen with a heading from 0 to 359,
    a turn rate of 6, -6 or 0, a thrust of [SHIP_ACCEL] or 0 and a speed
    of at most [SHIP_MAX_VEL]. *)
Theorem game_ok_kept (pinb tcnt0 : Z) (w : world) :
  game_ok (exec (drawTask_start seeded tcnt0) w)
  /\ (game_ok w ->
      game_ok (exec (inputTask_pass pinb) w)
      /\ game_ok (exec (bulletTask_pass sin_deg cos_deg portTICK_RATE_MS
                          pinb) w)
      /\ game_ok (exec (updateTask_pass sin_deg cos_deg portTICK_RATE_MS) w)
      /\ game_ok (exec (drawTask_pass uCollide seeded portTICK_RATE_MS
                          tcnt0) w)).
Proof.
  split; [apply drawTask_start_keeps|]. intros H.
  split; [apply inputTask_keeps; exact H|].
  split; [apply bulletTask_keeps; exact H|].
  split; [apply updateTask_keeps; exact H | apply drawTask_keeps; exact H].
Qed.

End Between.

(** ** Sprites on the display *)

Lemma book_perm (hs hs' : list Z) (tr : list event) (n : Z) :
  Permutation hs hs' -> book hs tr n -> book hs' tr n.
Proof.
  intros P (D & I & B & T). split; [|split; [|split]].
  - eapply Permutation_NoDup; eassumption.
  - intros h. rewrite <- I. split; apply Permutation_in;
      [apply Permutation_sym|]; exact P.
  - exact B.
  - exact T.
Qed.

Lemma book_create (hs : list Z) (tr : list event) (n : Z) (img : string)
    (x y : Q) (rot w h depth : Z) :
  book hs tr n ->
  book (n :: hs) (SpriteCreate img x y rot w h depth n :: tr) (n + 1).
Proof.
  intros (D & I & B & T). split; [|split; [|split]].
  - constructor; [|exact D]. intros Hin. apply I, B in Hin. lia.
  - intros k. cbn [alive In]. rewrite orb_true_iff, Z.eqb_eq, I. tauto.
  - intros k. cbn [alive]. rewrite orb_true_iff, Z.eqb_eq.
    intros [<- | Hk]; [lia|]. apply B in Hk. lia.
  - split; [exact T|]. destruct (alive tr n) eqn:E; [|reflexivity].
    apply B in E. lia.
Qed.

Lemma book_delete (hs : list Z) (tr : list event) (n h : Z) :
  book (h :: hs) tr n -> book hs (SpriteDelete h :: tr) n.
Proof.
  intros (D & I & B & T). inversion D as [|? ? Hnot D']; subst.
  split; [exact D'|]. split; [|split].
  - intros k. cbn [alive]. rewrite andb_true_iff, negb_true_iff, Z.eqb_neq.
    rewrite <- I. cbn [In]. split.
    + intros Hin. split; [intros ->; contradiction | right; exact Hin].
    + intros (Hne & [-> | Hin]); [contradiction | exact Hin].
  - intros k. cbn [alive]. rewrite andb_true_iff. intros (_ & Hk).
    apply B, Hk.
  - split; [exact T|]. apply I. left. reflexivity.
Qed.

Lemma book_group (hs : list Z) (tr : list event) (n : Z) :
  book hs tr n -> book hs (GroupCreate n :: tr) (n + 1).
Proof.
  intros (D & I & B & T). split; [exact D|]. split; [exact I|].
  split; [|split; [exact T | exact Logic.I]].
  intros k Hk. apply B in Hk. lia.
Qed.

Lemma book_harmless1 (e : event) (hs : list Z) (tr : list event) (n : Z) :
  harmless hs e -> book hs tr n -> book hs (e :: tr) n.
Proof.
  intros He (D & I & B & T).
  destruct e; cbn [harmless] in He; try contradiction;
    (split; [exact D|]; split; [exact I|]; split; [exact B|]);
    (split; [exact T|]); try exact Logic.I; apply I; exact He.
Qed.

Lemma book_harmless (evs : list event) (hs : list Z) (tr : list event)
    (n : Z) :
  Forall (harmless hs) evs -> book hs tr n -> book hs (evs ++ tr) n.
Proof.
  induction 1 as [|e evs He _ IH]; intros H; [exact H|].
  cbn [app]. apply book_harmless1; [exact He | apply IH, H].
Qed.

Ltac skip_event := apply book_harmless1; [exact Logic.I|].

Lemma book_free (l : list object) :
  forall (hs : list Z) (tr : list event) (n : Z),
  book (map handle l ++ hs) tr n -> book hs (free_events l ++ tr) n.
Proof.
  induction l as [|o rest IH]; intros hs tr n H; [exact H|].
  cbn [free_events]. rewrite <- app_assoc. apply IH. cbn [app].
  skip_event. apply book_delete. exact H.
Qed.

Lemma handle_age (b : object) : handle (age b) = handle b.
Proof. reflexivity. Qed.

Lemma handle_integrate (o : object) : handle (integrate o) = handle o.
Proof. reflexivity. Qed.

Lemma handle_spin (s : object) : handle (spin s) = handle s.
Proof.
  unfold spin. cbv zeta.
  destruct (360 <=? _); [reflexivity|]. destruct (_ <? 0); reflexivity.
Qed.

Lemma handle_thrust (sin_deg cos_deg : Z -> Q) (s : object) :
  handle (thrust sin_deg cos_deg s) = handle s.
Proof. unfold thrust. cbv zeta. destruct (Qgtb _ _); reflexivity. Qed.

Lemma book_expiry (l : list object) :
  forall (hs : list Z) (tr : list event) (n : Z),
  book (hs ++ map handle l) tr n ->
  book (hs ++ map handle (survivors l)) (expiry_events l ++ tr) n.
Proof.
  induction l as [|b rest IH]; intros hs tr n H; [exact H|].
  cbn [expiry_events]. unfold survivors. cbn [filter map] in *.
  rewrite <- app_assoc. destruct (expired b); cbn [negb app map].
  - apply IH. skip_event. apply book_delete.
    eapply book_perm; [|exact H]. symmetry. apply Permutation_middle.
  - rewrite handle_integrate, handle_age.
    change (hs ++ handle b :: ?t) with (hs ++ [handle b] ++ t).
    rewrite app_assoc. apply (IH (hs ++ [handle b]) tr n).
    rewrite <- app_assoc. exact H.
Qed.

Lemma repeatM_keeps (P : world -> Prop) (c : M unit) :
  (forall w : world, P w -> P (exec c w)) ->
  forall (n : nat) (w : world), P w -> P (exec (repeatM n c) w).
Proof.
  intros Hc. induction n as [|n IH]; intros w Hw; [exact Hw|].
  cbn [repeatM]. rewrite exec_seq. apply IH, Hc, Hw.
Qed.

Lemma rocks_book_cons (others : list Z) (w0 w w' : world) (k : object)
    (img : string) (x y : Q) (rot sw sh depth g : Z) :
  rocks_book others w0 w ->
  asteroids w' = k :: asteroids w -> handle k = next_handle w ->
  trace w' = GroupAddSprite g (next_handle w)
               :: SpriteCreate img x y rot sw sh depth (next_handle w)
               :: trace w ->
  next_handle w' = next_handle w + 1 ->
  ship w' = ship w -> background w' = background w ->
  bullets w' = bullets w ->
  rocks_book others w0 w'.
Proof.
  intros (H & Hs & Hbg & Hb) Ha Hk Ht Hn Hs' Hbg' Hb'. unfold rocks_book.
  rewrite Ha, Ht, Hn, Hs', Hbg', Hb'.
  split; [|auto]. cbn [map]. rewrite Hk.
  apply book_harmless1;
    [cbn [harmless]; apply in_or_app; right; left; reflexivity|].
  eapply book_perm; [apply Permutation_middle|].
  apply (book_create _ _ _ img x y rot sw sh depth) in H. exact H.
Qed.

Lemma spawn_one_book (others : list Z) (w0 : world) (p : point)
    (s v a : Z) (w : world) :
  rocks_book others w0 w -> rocks_book others w0 (exec (spawn_one p s v a) w).
Proof.
  intros H. unfold spawn_one, createAsteroid. unfold_m. world_simpl.
  eapply rocks_book_cons; [exact H | cbn; reflexivity ..].
Qed.

Lemma spawnAsteroid_book (others : list Z) (w0 : world) (p : point)
    (s : Z) (w : world) :
  rocks_book others w0 w -> rocks_book others w0 (exec (spawnAsteroid p s) w).
Proof.
  intros H. unfold spawnAsteroid. destruct (1 <? s); [|exact H].
  destruct (spawn_limits s) as [v a].
  apply repeatM_keeps; [|exact H]. intros u. apply spawn_one_book.
Qed.

Lemma init_one_book (others : list Z) (w0 w : world) :
  rocks_book others w0 w -> rocks_book others w0 (exec init_one w).
Proof.
  intros H. unfold init_one, getRandStartPosVal, rand_spreadQ, createAsteroid.
  unfold_m. world_simpl.
  eapply rocks_book_cons; [exact H | cbn; reflexivity ..].
Qed.

Lemma scan_book (others : list Z) (w0 : world) (hit : Z) (w : world) :
  rocks_book others w0 w ->
  rocks_book others w0 (exec (scan_asteroids hit [] (asteroids w)) w).
Proof.
  intros H.
  destruct (first_match_split hit (asteroids w))
    as [Hmiss | (pre & suf & a & Hl & Ha & Hpre)].
  - unfold exec. rewrite scan_asteroids_miss by exact Hmiss. exact H.
  - rewrite Hl, (scan_asteroids_match hit pre suf [] a w Hpre Ha).
    cbn [app]. apply spawnAsteroid_book.
    destruct H as (H & Hs & Hbg & Hb). unfold rocks_book. world_simpl.
    split; [|auto]. rewrite Hl in H. rewrite map_app in *. cbn [map] in H.
    skip_event. apply book_delete.
    eapply book_perm; [|exact H].
    rewrite !app_assoc. symmetry. apply Permutation_middle.
Qed.

Lemma draw_asteroids_harmless (hs : list Z) (l : list object) :
  incl (map handle l) hs ->
  forall w : world,
  exists evs : list event,
    exec (draw_asteroids l) w = set_trace (evs ++ trace w) w
    /\ Forall (harmless hs) evs.
Proof.
  induction l as [|a rest IH]; intros Hi w.
  - exists []. split; [|constructor]. symmetry. apply set_trace_same.
  - cbn [draw_asteroids]. unfold vSpriteSetPosition, vSpriteSetRotation.
    rewrite !exec_emit. world_simpl.
    assert (Ha : In (handle a) hs) by (apply Hi; left; reflexivity).
    assert (Hr : incl (map handle rest) hs)
      by (intros x Hx; apply Hi; right; exact Hx).
    match goal with
    | |- context [exec (draw_asteroids rest) ?u] =>
      destruct (IH Hr u) as (evs & He & Hd); rewrite He
    end.
    world_simpl.
    exists (evs ++ [SpriteSetRotation (handle a) (angle a);
                    SpriteSetPosition (handle a) (u16 (Qtrunc (px (pos a))))
                      (u16 (Qtrunc (py (pos a))))]).
    split.
    + rewrite <- app_assoc. reflexivity.
    + apply Forall_app. split; [exact Hd|].
      constructor; [exact Ha|]. constructor; [exact Ha | constructor].
Qed.

Section Display.

Variable uCollide : list event -> Z -> Z -> option Z.

Lemma draw_bullets_book (l : list object) :
  forall (others : list Z) (w0 w : world),
  rocks_book (others ++ map handle l) w0 w ->
  rocks_book (others ++ map handle (fst (draw_bullets uCollide l w))) w0
    (snd (draw_bullets uCollide l w)).
Proof.
  induction l as [|b rest IH]; intros others w0 w H.
  - exact H.
  - destruct (fst (bullet_query uCollide b w)) as [h|] eqn:Hq.
    + rewrite (draw_bullets_hit uCollide b rest h w Hq).
      apply IH.
      match goal with
      | |- context [exec (scan_asteroids h [] (asteroids w)) ?u] =>
        apply (scan_book (others ++ map handle rest) w0 h u)
      end.
      destruct H as (H & Hs & Hbg & Hb). unfold rocks_book. world_simpl.
      split; [|auto]. skip_event. apply book_delete.
      apply book_harmless1; [left; reflexivity|].
      eapply book_perm; [|exact H]. cbn [map].
      rewrite <- !app_assoc. cbn [app]. symmetry.
      apply Permutation_middle.
    + rewrite (draw_bullets_miss uCollide b rest w Hq). cbv zeta.
      rewrite bullet_query_spec. cbn [fst snd map].
      change (others ++ handle b :: ?t) with (others ++ [handle b] ++ t).
      rewrite app_assoc. apply IH. rewrite <- app_assoc.
      destruct H as (H & Hs & Hbg & Hb). unfold rocks_book. world_simpl.
      split; [|auto]. cbn [map] in H.
      apply book_harmless1; [|exact H].
      cbn [harmless]. apply in_or_app. left. apply in_or_app. right.
      left. reflexivity.
Qed.

End Display.

Lemma held_perm (s g : Z) (bs asts : list Z) :
  Permutation (s :: g :: bs ++ asts) (asts ++ bs ++ [s; g]).
Proof.
  change (s :: g :: bs ++ asts) with ([s; g] ++ bs ++ asts).
  rewrite (Permutation_app_comm asts), <- app_assoc.
  rewrite (Permutation_app_comm [s; g]), <- app_assoc.
  apply Permutation_app_head, Permutation_app_comm.
Qed.

Lemma resume_book (a b c : task) (w : world) :
  sprites_ok w ->
  sprites_ok (exec (vTaskResume a ;; vTaskResume b ;; vTaskResume c) w).
Proof.
  intros H. unfold vTaskResume. rewrite !exec_emit.
  unfold emit. rewrite exec_modify_last. unfold sprites_ok, held.
  world_simpl. do 3 skip_event. exact H.
Qed.

Section Bookkeeping.

Variable sin_deg cos_deg : Z -> Q.
Variable uCollide : list event -> Z -> Z -> option Z.
Variable seeded : Z -> nat -> Z.
Variable portTICK_RATE_MS : Z.

Lemma inputTask_book (pinb : Z) (w : world) :
  sprites_ok w -> sprites_ok (exec (inputTask_pass pinb) w).
Proof.
  intros H. unfold inputTask_pass. unfold_m. world_simpl.
  destruct (LEFT_BUTTON pinb), (RIGHT_BUTTON pinb), (ACCEL_BUTTON pinb);
    exact H.
Qed.

Lemma bulletTask_book (pinb : Z) (w : world) :
  sprites_ok w ->
  sprites_ok (exec (bulletTask_pass sin_deg cos_deg portTICK_RATE_MS pinb) w).
Proof.
  intros H. unfold bulletTask_pass.
  destruct (SHOOT_BUTTON pinb).
  - unfold createBullet. unfold_m. world_simpl.
    unfold sprites_ok, held in *. world_simpl. cbn [map handle]. skip_event.
    eapply book_perm; [|apply book_create; exact H].
    exact (Permutation_middle [handle (ship w); background w] _
             (next_handle w)).
  - unfold_m. world_simpl. unfold sprites_ok, held in *. world_simpl.
    skip_event. exact H.
Qed.

Lemma updateTask_book (w : world) :
  sprites_ok w ->
  sprites_ok (exec (updateTask_pass sin_deg cos_deg portTICK_RATE_MS) w).
Proof.
  intros H. rewrite updateTask_pass_spec. unfold sprites_ok, held in *.
  world_simpl. skip_event.
  rewrite handle_integrate, handle_thrust, handle_spin, map_map.
  change (map (fun x => handle (integrate x)) (asteroids w))
    with (map handle (asteroids w)).
  apply (book_perm ((handle (ship w) :: background w
                       :: map handle (asteroids w))
                    ++ map handle (survivors (bullets w)))).
  { cbn [app]. do 2 apply perm_skip. apply Permutation_app_comm. }
  apply book_expiry. eapply book_perm; [|exact H].
  cbn [app]. do 2 apply perm_skip. apply Permutation_app_comm.
Qed.

Lemma drawTask_sync_book (w : world) :
  sprites_ok w -> sprites_ok (exec (drawTask_sync uCollide) w).
Proof.
  intros H. unfold drawTask_sync.
  rewrite exec_seq, draw_ship_spec, exec_get. world_simpl.
  match goal with
  | |- context [exec _ ?u] =>
    assert (Hu : rocks_book ([handle (ship w); background w]
                             ++ map handle (bullets w)) w u);
    [|apply (draw_bullets_book uCollide) in Hu;
      rewrite exec_bind; unfold exec at 2; revert Hu;
      generalize (draw_bullets uCollide (bullets w) u)]
  end.
  { split; [|auto]. world_simpl.
    do 2 (apply book_harmless1; [left; reflexivity|]). exact H. }
  intros [bs w1] (Hb & Hs & Hbg & _). cbn [fst snd] in *.
  rewrite exec_modify, exec_get. world_simpl.
  destruct (draw_asteroids_harmless
              (([handle (ship w); background w] ++ map handle bs)
               ++ map handle (asteroids w1))
              (asteroids w1)
              ltac:(intros x Hx; apply in_or_app; right; exact Hx)
              (set_bullets bs w1))
    as (evs & He & Hd).
  rewrite He. unfold sprites_ok, held. world_simpl. rewrite Hs, Hbg.
  apply book_harmless; [exact Hd | exact Hb].
Qed.

Lemma init_book (tcnt0 : Z) (w : world) :
  book [] (trace w) (next_handle w) -> sprites_ok (exec (init seeded tcnt0) w).
Proof.
  intros H. unfold init.
  rewrite !exec_modify, exec_xSpriteCreate, exec_modify.
  unfold srand. rewrite exec_modify, exec_xGroupCreate, exec_modify, exec_seq.
  world_simpl.
  match goal with
  | |- context [exec (repeatM _ init_one) ?u] =>
    assert (Hu : rocks_book [next_handle w] u u)
      by (split; [|auto]; world_simpl; apply book_group, book_create, H);
    assert (Hbg : background u = next_handle w) by reflexivity;
    assert (Hbl : bullets u = []) by reflexivity;
    revert Hu Hbg Hbl; generalize u
  end.
  intros u Hu Hbg Hbl.
  apply (repeatM_keeps _ init_one (init_one_book [next_handle w] u)
           (Z.to_nat INITIAL_ASTEROIDS)) in Hu.
  revert Hu. generalize (exec (repeatM (Z.to_nat INITIAL_ASTEROIDS) init_one) u).
  intros w1 (Hb1 & _ & Hbg1 & Hbl1).
  rewrite exec_xSpriteCreate, exec_get, exec_modify_last.
  unfold sprites_ok, held. world_simpl.
  cbn [handle set_a_vel set_angle set_accel set_vel set_pos set_handle].
  rewrite Hbg1, Hbg, Hbl1, Hbl. apply book_create. exact Hb1.
Qed.

Lemma game_over_book (tcnt0 : Z) (w : world) :
  sprites_ok w ->
  sprites_ok (exec (game_over seeded portTICK_RATE_MS tcnt0) w).
Proof.
  intros H. unfold game_over. unfold vTaskSuspend.
  rewrite !exec_emit, exec_get. world_simpl.
  assert (K : forall (img : string) (rot : Z),
    sprites_ok
      (exec (h <- xSpriteCreate img (inject_Z (Z.shiftr SCREEN_W 1))
                   (inject_Z (Z.shiftr SCREEN_H 1)) rot
                   (Z.shiftr SCREEN_W 1) (Z.shiftr SCREEN_H 1) 100 ;;
             vTaskDelay (Z.quot 3000 portTICK_RATE_MS) ;;
             vSpriteDelete h ;;
             reset ;;
             init seeded tcnt0 ;;
             vTaskResume UpdateTask ;;
             vTaskResume BulletTask ;;
             vTaskResume InputTask)
         (set_trace (TaskSuspend InputTask :: TaskSuspend BulletTask
                       :: TaskSuspend UpdateTask :: trace w) w))).
  { intros img rot. rewrite exec_xSpriteCreate.
    unfold vTaskDelay, vSpriteDelete.
    rewrite !exec_emit, (exec_seq reset), (exec_seq (init seeded tcnt0)).
    apply resume_book, init_book. rewrite reset_spec. world_simpl.
    do 2 apply book_delete. apply book_free. skip_event. apply book_free.
    apply book_delete. skip_event. apply book_create. do 3 skip_event.
    eapply book_perm; [|exact H]. apply held_perm. }
  destruct (asteroids w); apply K.
Qed.

Lemma drawTask_book (tcnt0 : Z) (w : world) :
  sprites_ok w ->
  sprites_ok (exec (drawTask_pass uCollide seeded portTICK_RATE_MS tcnt0) w).
Proof.
  intros H. apply drawTask_sync_book in H.
  unfold drawTask_pass. rewrite exec_seq. revert H.
  generalize (exec (drawTask_sync uCollide) w). intros w1 H.
  unfold drawTask_check. rewrite exec_bind, ship_query_world, exec_get.
  rewrite exec_seq. unfold vTaskDelay, emit. rewrite exec_modify_last.
  assert (K : forall u, sprites_ok u ->
                        sprites_ok (set_trace (TaskDelay
                          (Z.quot FRAME_DELAY_MS portTICK_RATE_MS)
                          :: trace u) u)).
  { intros u Hu. unfold sprites_ok, held in *. world_simpl. skip_event.
    exact Hu. }
  apply K.
  destruct (fst (ship_query uCollide w1)), (asteroids w1);
    try (apply game_over_book; exact H).
  rewrite exec_ret. exact H.
Qed.

Lemma drawTask_start_book (tcnt0 : Z) (w : world) :
  (forall h : Z, alive (trace w) h = false) -> tidy (trace w) ->
  sprites_ok (exec (drawTask_start seeded tcnt0) w).
Proof.
  intros H T. unfold drawTask_start. unfold vTaskSuspend.
  rewrite !exec_emit, exec_seq. apply resume_book, init_book. world_simpl.
  do 3 skip_event. split; [constructor|].
  split; [intros h; rewrite H; split; [intros [] | discriminate]|].
  split; [intros h; rewrite H; discriminate | exact T].
Qed.

(** The lists and the display agree, and every pass keeps it so.  On a
    state in which the handles of the ship, of the background, of the
    bullets and of the asteroids are all different and are those of the
    sprites on the display (made and not deleted since), and whose trace
    is tidy, a pass of any of the four tasks that runs from its start to
    its end leaves such a state: within the pass every deletion, move,
    turn and entry into a group is of a sprite that is on the display at
    that moment, so none is deleted twice or used after its deletion, and
    every sprite made and not deleted in the pass ends up in a list (the
    "win" or "lose" sprite is made and deleted within the pass).  The
    start of [drawTask] leaves such a state when no sprite is on the
    display before it. *)
Theorem sprites_kept (pinb tcnt0 : Z) (w : world) :
  ((forall h : Z, alive (trace w) h = false) -> tidy (trace w) ->
   sprites_ok (exec (drawTask_start seeded tcnt0) w))
  /\ (sprites_ok w ->
      sprites_ok (exec (inputTask_pass pinb) w)
      /\ sprites_ok (exec (bulletTask_pass sin_deg cos_deg portTICK_RATE_MS
                             pinb) w)
      /\ sprites_ok (exec (updateTask_pass sin_deg cos_deg portTICK_RATE_MS)
                       w)
      /\ sprites_ok (exec (drawTask_pass uCollide seeded portTICK_RATE_MS
                             tcnt0) w)).
Proof.
  split; [apply drawTask_start_book|]. intros H.
  split; [apply inputTask_book; exact H|].
  split; [apply bulletTask_book; exact H|].
  split; [apply updateTask_book; exact H | apply drawTask_book; exact H].
Qed.

(** A reset that met one handle twice in the lists would delete a sprite
    that is gone: a trace with such a second deletion is not tidy. *)
Lemma tidy_no_double_delete (h : Z) (tr : list event) :
  ~ tidy (SpriteDelete h :: SpriteDelete h :: tr).
Proof.
  cbn [tidy alive]. intros (_ & H). rewrite Z.eqb_refl in H. discriminate H.
Qed.

End Bookkeeping.

(** ** The serial driver *)

Lemma testbit_bv (k n : Z) :
  0 <= k -> 0 <= n -> Z.testbit (Z.shiftl 1 k) n = (k =? n).
Proof.
  intros Hk Hn. rewrite Z.shiftl_1_l. apply Z.pow2_bits_eqb. exact Hk.
Qed.

Lemma testbit_u8 (z n : Z) :
  0 <= n -> Z.testbit (u8 z) n = (n <? 8) && Z.testbit z n.
Proof.
  intros Hn. unfold u8. change 256 with (2 ^ 8).
  destruct (n <? 8) eqn:E.
  - apply Z.ltb_lt in E. rewrite Z.mod_pow2_bits_low by lia. reflexivity.
  - apply Z.ltb_ge in E. rewrite Z.mod_pow2_bits_high by lia. reflexivity.
Qed.

Lemma bytes_of_u16 (z : Z) :
  0 <= z -> u8 (Z.shiftr z 8) * 256 + u8 z = z mod 65536.
Proof.
  intros Hz. unfold u8. rewrite Z.shiftr_div_pow2 by lia.
  change (2 ^ 8) with 256.
  pose proof (Z.div_mod z 256 ltac:(lia)) as H1.
  pose proof (Z.mod_pos_bound z 256 ltac:(lia)) as H2.
  pose proof (Z.mod_pos_bound (z / 256) 256 ltac:(lia)) as H3.
  apply Z.mod_unique_pos with (q := z / 256 / 256); [lia|].
  pose proof (Z.div_mod (z / 256) 256 ltac:(lia)) as H4. lia.
Qed.

(** The divisor.  For a baud rate other than 0, [USART_Init] stores
    into [UBRR0H] and [UBRR0L] the high and the low byte of
    [clk_speedin / 16 / baudin - 1] when that is from 0 to 65535; when the
    clock is below 16 times the baud rate the subtraction wraps around and
    both registers get 255.  The queue is created empty. *)
Theorem USART_Init_divisor (RXEN0 TXEN0 UCSZ01 UCSZ00 U2X0 : Z)
    (baudin clk_speedin : Z) (s : usart) :
  0 < baudin < 65536 -> 0 <= clk_speedin < 4294967296 ->
  exists s' : usart,
    USART_Init RXEN0 TXEN0 UCSZ01 UCSZ00 U2X0 baudin clk_speedin s = Ok s'
    /\ xUsartQueue s' = Some []
    /\ 0 <= UBRR0H s' < 256 /\ 0 <= UBRR0L s' < 256
    /\ (16 * baudin <= clk_speedin ->
        clk_speedin / 16 / baudin <= 65536 ->
        UBRR0H s' * 256 + UBRR0L s' = clk_speedin / 16 / baudin - 1)
    /\ (clk_speedin < 16 * baudin -> UBRR0H s' = 255 /\ UBRR0L s' = 255).
Proof.
  intros Hb Hc. unfold USART_Init.
  destruct (baudin =? 0) eqn:E; [apply Z.eqb_eq in E; lia|].
  eexists. split; [reflexivity|]. cbn [xUsartQueue UBRR0H UBRR0L].
  split; [reflexivity|].
  split; [apply Z.mod_pos_bound; lia|].
  split; [apply Z.mod_pos_bound; lia|].
  assert (Hq : 0 <= clk_speedin / 16 / baudin < 4294967296).
  { split; [apply Z.div_pos; [apply Z.div_pos|]; lia|].
    apply Z.div_lt_upper_bound; [lia|].
    apply Z.div_lt_upper_bound; nia. }
  split.
  - intros H16 Hle.
    assert (1 <= clk_speedin / 16 / baudin).
    { apply Z.div_le_lower_bound; [lia|].
      apply Z.div_le_lower_bound; lia. }
    unfold u32. rewrite (Z.mod_small (_ - 1)) by lia.
    rewrite bytes_of_u16 by lia. apply Z.mod_small. lia.
  - intros Hlt.
    assert (Hz : clk_speedin / 16 / baudin = 0).
    { apply Z.div_small. split; [apply Z.div_pos; lia|].
      apply Z.div_lt_upper_bound; lia. }
    rewrite Hz. split; reflexivity.
Qed.

(** The control registers.  [USART_Init] leaves in [UCSR0B] the bits
    [RXEN0] and [TXEN0] and no other, in [UCSR0C] the bits [UCSZ01] and
    [UCSZ00] and no other, and in [UCSR0A] what was there with the bit
    [U2X0] cleared. *)
Theorem USART_Init_control (RXEN0 TXEN0 UCSZ01 UCSZ00 U2X0 : Z)
    (baudin clk_speedin : Z) (s : usart) :
  baudin <> 0 ->
  0 <= RXEN0 -> 0 <= TXEN0 -> 0 <= UCSZ01 -> 0 <= UCSZ00 -> 0 <= U2X0 ->
  exists s' : usart,
    USART_Init RXEN0 TXEN0 UCSZ01 UCSZ00 U2X0 baudin clk_speedin s = Ok s'
    /\ forall n : Z, 0 <= n < 8 ->
       Z.testbit (UCSR0B s') n = (RXEN0 =? n) || (TXEN0 =? n)
       /\ Z.testbit (UCSR0C s') n = (UCSZ01 =? n) || (UCSZ00 =? n)
       /\ Z.testbit (UCSR0A s') n
          = Z.testbit (UCSR0A s) n && negb (U2X0 =? n).
Proof.
  intros Hb H1 H2 H3 H4 H5. unfold USART_Init.
  destruct (baudin =? 0) eqn:E; [apply Z.eqb_eq in E; contradiction|].
  eexists. split; [reflexivity|]. intros n Hn.
  cbn [UCSR0A UCSR0B UCSR0C].
  rewrite !testbit_u8 by lia.
  rewrite (proj2 (Z.ltb_lt n 8)) by lia. cbn [andb].
  rewrite !Z.lor_spec, Z.land_spec, Z.lnot_spec by lia.
  rewrite !testbit_bv by lia. repeat split.
Qed.

Section UsartFurther.

Variable RXC0 UDRE0 : Z.
Variable status : nat -> Z.
Variable received : nat -> Z.
Variable null_receive : usart -> result (Z * usart).

Lemma wait_bit_first (bit : Z) (k : nat) :
  forall fuel n : nat,
  (k < fuel)%nat ->
  Z.land (status (n + k)%nat) (Z.shiftl 1 bit) <> 0 ->
  (forall j : nat, (j < k)%nat ->
                   Z.land (status (n + j)%nat) (Z.shiftl 1 bit) = 0) ->
  wait_bit status bit fuel n = Ok (S (n + k)).
Proof.
  induction k as [|k IH]; intros fuel n Hf Hset Hclear;
    (destruct fuel as [|fuel]; [lia|]); cbn [wait_bit].
  - rewrite Nat.add_0_r in *.
    destruct (Z.land (status n) (Z.shiftl 1 bit) =? 0) eqn:E;
      [apply Z.eqb_eq in E; contradiction | reflexivity].
  - rewrite (proj2 (Z.eqb_eq _ _))
      by (rewrite <- (Nat.add_0_r n); apply Hclear; lia).
    rewrite (IH fuel (S n)); [f_equal; f_equal; lia | lia | |].
    + replace (S n + k)%nat with (n + S k)%nat by lia. exact Hset.
    + intros j Hj. replace (S n + j)%nat with (n + S j)%nat by lia.
      apply Hclear. lia.
Qed.

Lemma wait_bit_within (bit : Z) :
  forall fuel n : nat,
  (exists k : nat, (k < fuel)%nat
                   /\ Z.land (status (n + k)%nat) (Z.shiftl 1 bit) <> 0) ->
  exists m : nat, wait_bit status bit fuel n = Ok m.
Proof.
  induction fuel as [|fuel IH]; intros n (k & Hk & Hset); [lia|].
  cbn [wait_bit].
  destruct (Z.land (status n) (Z.shiftl 1 bit) =? 0) eqn:E;
    [|eexists; reflexivity].
  apply Z.eqb_eq in E. apply IH.
  destruct k as [|k]; [rewrite Nat.add_0_r in Hset; contradiction|].
  exists k. split; [lia|].
  replace (S n + k)%nat with (n + S k)%nat by lia. exact Hset.
Qed.

(** Polling for a received byte.  When the bit [RXC0] first shows at the
    read number [k] (from 0) after the call and the loop is given more
    than [k] rounds, [USART_Read] makes [k + 1] reads of the status
    register, returns the byte the data register then holds and changes
    nothing else. *)
Theorem USART_Read_first (fuel k : nat) (s : usart) :
  (k < fuel)%nat ->
  Z.land (status (polls s + k)%nat) (Z.shiftl 1 RXC0) <> 0 ->
  (forall j : nat, (j < k)%nat ->
                   Z.land (status (polls s + j)%nat) (Z.shiftl 1 RXC0) = 0) ->
  USART_Read RXC0 status received fuel s
  = Ok (u8 (received (S (polls s + k))),
        mkUsart (UBRR0H s) (UBRR0L s) (UCSR0A s) (UCSR0B s) (UCSR0C s)
          (xUsartQueue s) (UDR0 s) (S (polls s + k))).
Proof.
  intros Hf Hset Hclear. unfold USART_Read.
  rewrite (wait_bit_first RXC0 k fuel (polls s) Hf Hset Hclear).
  reflexivity.
Qed.

Lemma USART_Write_all_queue (l : list Z) :
  forall (s : usart) (q : list Z),
  xUsartQueue s = Some q ->
  (Z.of_nat (length q) <= USART_QUEUE_LENGTH) ->
  exists s' : usart,
    USART_Write_all l s = Ok s'
    /\ xUsartQueue s'
       = Some (q ++ firstn (Z.to_nat USART_QUEUE_LENGTH - length q) l)
    /\ UDR0 s' = UDR0 s /\ polls s' = polls s.
Proof.
  induction l as [|d rest IH]; intros s q Hq Hlen.
  - exists s. rewrite firstn_nil, app_nil_r. auto.
  - cbn [USART_Write_all]. unfold USART_Write. rewrite Hq.
    unfold xQueueSendToBack.
    destruct (Z.of_nat (length q) <? USART_QUEUE_LENGTH) eqn:E.
    + apply Z.ltb_lt in E.
      match goal with
      | |- context [USART_Write_all rest ?u] =>
        destruct (IH u (q ++ [d]) eq_refl) as (s' & H1 & H2 & H3 & H4)
      end.
      { rewrite length_app. cbn [length]. lia. }
      exists s'. split; [exact H1|]. split; [|auto].
      rewrite H2, length_app, <- app_assoc. cbn [length app].
      replace (Z.to_nat USART_QUEUE_LENGTH - length q)%nat
        with (S (Z.to_nat USART_QUEUE_LENGTH - (length q + 1)))%nat by lia.
      reflexivity.
    + apply Z.ltb_ge in E.
      match goal with
      | |- context [USART_Write_all rest ?u] =>
        destruct (IH u q eq_refl Hlen) as (s' & H1 & H2 & H3 & H4)
      end.
      exists s'. split; [exact H1|]. split; [|auto].
      rewrite H2.
      replace (Z.to_nat USART_QUEUE_LENGTH - length q)%nat with 0%nat by lia.
      reflexivity.
Qed.

Lemma USART_Write_Task_drains (K : nat) (q : list Z) :
  ready_within status UDRE0 K ->
  forall s : usart,
  xUsartQueue s = Some q ->
  exists s' : usart,
    USART_Write_Task_run UDRE0 status null_receive (length q) K s = Ok s'
    /\ xUsartQueue s' = Some [] /\ UDR0 s' = rev q ++ UDR0 s.
Proof.
  intros Hready. induction q as [|d q IH]; intros s Hq.
  - exists s. auto.
  - cbn [length USART_Write_Task_run]. unfold USART_Write_Task_pass.
    rewrite Hq. unfold USART_Write_Unprotected. cbn [polls].
    destruct (wait_bit_within UDRE0 K (polls s) (Hready (polls s)))
      as [m Hm].
    rewrite Hm.
    match goal with
    | |- context [USART_Write_Task_run _ _ _ _ _ ?u] =>
      destruct (IH u eq_refl) as (s' & H1 & H2 & H3)
    end.
    exists s'. split; [exact H1|]. split; [exact H2|].
    rewrite H3. cbn [UDR0 rev]. rewrite <- app_assoc. reflexivity.
Qed.

(** From [USART_Write] to the wire.  With the queue created and empty
    and a transmitter whose buffer comes free within [K] reads of the
    status register: after [USART_Write] has been called for each byte of
    a list, as many passes of [USART_Write_Task] as the queue holds bytes
    all return, leave the queue empty and have stored into [UDR0] the
    first 150 bytes of the list in the order they were given, and nothing
    of the rest of the list. *)
Theorem transmit_in_order (K : nat) (l : list Z) (s : usart) :
  ready_within status UDRE0 K ->
  xUsartQueue s = Some [] ->
  exists s1 s2 : usart,
    USART_Write_all l s = Ok s1
    /\ xUsartQueue s1 = Some (firstn 150 l)
    /\ USART_Write_Task_run UDRE0 status null_receive
         (Nat.min 150 (length l)) K s1 = Ok s2
    /\ xUsartQueue s2 = Some []
    /\ UDR0 s2 = rev (firstn 150 l) ++ UDR0 s.
Proof.
  intros Hready Hq.
  destruct (USART_Write_all_queue l s [] Hq) as (s1 & H1 & H2 & H3 & _).
  { cbn. unfold USART_QUEUE_LENGTH. lia. }
  cbn [app length] in H2.
  change (Z.to_nat USART_QUEUE_LENGTH - 0)%nat with 150%nat in H2.
  destruct (USART_Write_Task_drains K (firstn 150 l) Hready s1 H2)
    as (s2 & H4 & H5 & H6).
  rewrite length_firstn in H4.
  exists s1, s2. rewrite H3 in H6. auto.
Qed.

Lemma wait_bit_bounds (bit : Z) :
  forall fuel n m : nat,
  wait_bit status bit fuel n = Ok m -> (n < m <= n + fuel)%nat.
Proof.
  induction fuel as [|fuel IH]; intros n m H; cbn [wait_bit] in H;
    [discriminate|].
  destruct (Z.land (status n) (Z.shiftl 1 bit) =? 0).
  - apply IH in H. lia.
  - injection H as <-. lia.
Qed.

(** Nothing is sent that was not queued.  With the queue created, a
    pass of [USART_Write_Task] that returns has taken the oldest byte out
    of the queue and stored that byte, and no other, into [UDR0], after
    at least one read of the status register; it does return when a byte
    is queued and the transmitter shows its buffer empty within the
    rounds the polling loop is given, and it does not return on an empty
    queue. *)
Theorem USART_Write_Task_sends_queued (fuel : nat) (q : list Z) (s : usart) :
  xUsartQueue s = Some q ->
  (forall s' : usart,
     USART_Write_Task_pass UDRE0 status null_receive fuel s = Ok s' ->
     exists (d : Z) (q' : list Z),
       q = d :: q' /\ xUsartQueue s' = Some q'
       /\ UDR0 s' = d :: UDR0 s
       /\ (polls s < polls s' <= polls s + fuel)%nat)
  /\ (q = [] ->
      USART_Write_Task_pass UDRE0 status null_receive fuel s
      = Stopped QueueEmpty)
  /\ (q <> [] ->
      (exists k : nat,
         (k < fuel)%nat
         /\ Z.land (status (polls s + k)%nat) (Z.shiftl 1 UDRE0) <> 0) ->
      exists s' : usart,
        USART_Write_Task_pass UDRE0 status null_receive fuel s = Ok s').
Proof.
  unfold USART_Write_Task_pass, USART_Write_Unprotected. intros ->.
  cbn [polls]. split; [|split].
  - intros s'. destruct q as [|d q]; [discriminate|].
    destruct (wait_bit status UDRE0 fuel (polls s)) as [m|] eqn:E;
      [|discriminate].
    intros H. injection H as <-. exists d, q. cbn [xUsartQueue UDR0 polls].
    apply wait_bit_bounds in E. auto.
  - intros ->. reflexivity.
  - intros Hq Hready. destruct q as [|d q]; [contradiction|].
    destruct (wait_bit_within UDRE0 fuel (polls s) Hready) as [m Hm].
    rewrite Hm. eexists. reflexivity.
Qed.

End UsartFurther.

(** * The statements on sample states *)

Lemma spawnAsteroid_decomposition_witness :
  1 <= 3 <= 3
  /\ exists kids : list object,
       asteroids (exec (spawnAsteroid (mkPoint 400 300) 3) world0)
       = kids ++ asteroids world0
       /\ length kids = 3%nat
       /\ Forall (fun k => size k = 3 - 1 /\ pos k = mkPoint 400 300
                           /\ size k <> 0) kids.
Proof.
  split; [lia|].
  apply (spawnAsteroid_decomposition (mkPoint 400 300) 3 world0). lia.
Defined.

Lemma inputTask_intent_witness :
  a_vel (ship (exec (inputTask_pass left_and_thrust) world0)) = 6
  /\ accel (ship (exec (inputTask_pass left_and_thrust) world0)) = SHIP_ACCEL.
Proof.
  destruct (inputTask_intent left_and_thrust world0 true false true false
              eq_refl eq_refl eq_refl eq_refl) as (H1 & H2 & _).
  split; [exact H1 | exact H2].
Defined.

Lemma world_edge_on_screen : world_on_screen world_edge.
Proof.
  unfold world_on_screen, placed, on_screen, slow, world_edge.
  cbn. repeat split; repeat constructor; unfold Qle, Qlt; cbn; lia.
Defined.

Lemma wrap_keeps_on_screen_witness :
  world_on_screen world_edge
  /\ world_on_screen
       (Nat.iter 3 (exec (updateTask_pass flat flat 1)) world_edge).
Proof.
  split; [exact world_edge_on_screen|].
  apply (wrap_keeps_on_screen flat flat 1 3 world_edge world_edge_on_screen).
Defined.

(** The half-open range is not kept: ship, bullet and asteroid at x = 799
    moving right by 1 are inside the screen, and a tick later they sit at
    x = 800, which the wrap leaves alone because it tests [> SCREEN_W]. *)
Lemma wrap_reaches_far_edge :
  world_inside_screen world_edge
  /\ (px (pos (ship (exec (updateTask_pass flat flat 1) world_edge)))
      == inject_Z SCREEN_W)%Q
  /\ ~ world_inside_screen (exec (updateTask_pass flat flat 1) world_edge).
Proof.
  split; [|split].
  - unfold world_inside_screen, placed_inside, inside_screen, slow, world_edge.
    cbn. repeat split; repeat constructor; unfold Qle, Qlt; cbn; lia.
  - vm_compute. reflexivity.
  - intros [[[_ Hx] _] _]. vm_compute in Hx. discriminate Hx.
Qed.

Lemma size3_hit_scenario_witness :
  length (asteroids (exec (drawTask_sync display_hit) world_hit)) = 3%nat
  /\ Forall (fun k => size k = 2 /\ pos k = mkPoint 400 300
               /\ (-3 <= px (vel k) <= 3)%Q
               /\ (-3 <= py (vel k) <= 3)%Q)
            (asteroids (exec (drawTask_sync display_hit) world_hit))
  /\ bullets (exec (drawTask_sync display_hit) world_hit) = [].
Proof.
  apply (size3_hit_scenario display_hit world_hit rock3 shot7
           eq_refl eq_refl eq_refl eq_refl).
  - intros n. cbn. lia.
  - reflexivity.
Defined.

(** The bound 2 does not hold for the children of a size 3 asteroid, on
    either side: when [rand()] returns 0 they move at -3 on both axes, and
    when it returns 29 they move at more than 2. *)
Lemma size3_hit_velocity_outside :
  bullets world_hit = [shot7] /\ asteroids world_hit = [rock3]
  /\ size rock3 = 3 /\ pos rock3 = mkPoint 400 300
  /\ fst (bullet_query display_hit shot7 (exec draw_ship world_hit))
     = Some (handle rock3)
  /\ (exists k : object,
        In k (asteroids (exec (drawTask_sync display_hit) world_hit))
        /\ (px (vel k) == -3)%Q
        /\ ~ (-2 <= px (vel k) <= 2)%Q)
  /\ (exists k : object,
        In k (asteroids (exec (drawTask_sync display_hit) world_hit_high))
        /\ (2 < px (vel k))%Q
        /\ ~ (-2 <= px (vel k) <= 2)%Q).
Proof.
  repeat (split; [vm_compute; reflexivity|]).
  split.
  - exists (hd rock3
              (asteroids (exec (drawTask_sync display_hit) world_hit))).
    split; [|split].
    + vm_compute. left. reflexivity.
    + vm_compute. reflexivity.
    + intros [H _]. vm_compute in H. apply H. reflexivity.
  - exists (hd rock3
              (asteroids (exec (drawTask_sync display_hit) world_hit_high))).
    split; [|split].
    + vm_compute. left. reflexivity.
    + vm_compute. reflexivity.
    + intros [_ H]. vm_compute in H. apply H. reflexivity.
Qed.

Lemma lose_condition_witness :
  fst (ship_query display_crash (exec (drawTask_sync display_crash) world_crash))
  = Some 3
  /\ length (asteroids (exec (drawTask_sync display_crash) world_crash))
     = 2%nat
  /\ bullets (exec (drawTask_pass display_crash counting 1 42) world_crash)
     = []
  /\ length (asteroids
               (exec (drawTask_pass display_crash counting 1 42) world_crash))
     = 5%nat
  /\ In (SpriteCreate "lose.png" 400 300 0 400 300 100 10)
        (trace (exec (drawTask_pass display_crash counting 1 42) world_crash)).
Proof.
  split; [reflexivity|]. split; [reflexivity|].
  destruct (lose_condition display_crash counting 1 42 world_crash 3
              eq_refl (or_intror (or_introl eq_refl)))
    as ((evs & Ht & _) & Hb & Hl & _).
  split; [exact Hb|]. split; [exact Hl|].
  rewrite Ht. apply in_or_app. right. right. right. left. reflexivity.
Defined.

Lemma world_shots_handles : NoDup (map handle (bullets world_shots)).
Proof.
  cbn. constructor.
  - intros [H | []]. discriminate H.
  - constructor; [intros [] | constructor].
Defined.

Lemma bullet_expiry_witness :
  (~ In 8 (map handle (bullets (exec (updateTask_pass flat flat 1) world_shots)))
   /\ In (SpriteDelete 8)
         (trace (exec (updateTask_pass flat flat 1) world_shots))
   /\ In (PortFree (age shot_old))
         (trace (exec (updateTask_pass flat flat 1) world_shots)))
  /\ In (integrate (age shot_young))
        (bullets (exec (updateTask_pass flat flat 1) world_shots))
  /\ life (age shot_young) = 990.
Proof.
  destruct (bullet_expiry flat flat 1 world_shots shot_old
              (or_introl eq_refl) world_shots_handles)
    as (_ & Hold & _).
  { cbn. unfold BULLET_LIFE_MS. lia. }
  destruct (bullet_expiry flat flat 1 world_shots shot_young
              (or_intror (or_introl eq_refl)) world_shots_handles)
    as (Hage & _ & Hyoung & _).
  { cbn. unfold BULLET_LIFE_MS. lia. }
  split.
  - apply Hold. cbn. unfold BULLET_LIFE_MS, FRAME_DELAY_MS. lia.
  - split; [|exact Hage].
    apply Hyoung. cbn. unfold BULLET_LIFE_MS, FRAME_DELAY_MS. lia.
Defined.



Lemma volley_hit (tr : list event) (g : Z) :
  display_hit tr (handle shot7) g = Some 3.
Proof. reflexivity. Defined.

Lemma volley_clear (tr : list event) (x : object) (g : Z) :
  In x ([shot_young] ++ [shot_old]) -> display_hit tr (handle x) g = None.
Proof. intros [<- | [<- | []]]; reflexivity. Defined.

Lemma hit_removes_first_match_witness :
  bullets (exec (drawTask_sync display_hit) world_volley)
  = [shot_young] ++ [shot_old]
  /\ exists (kids : list object),
       asteroids (exec (drawTask_sync display_hit) world_volley)
       = kids ++ [rock4] ++ [rock3']
       /\ length kids = 3%nat.
Proof.
  destruct (hit_removes_first_match display_hit [shot_young] [shot_old]
              shot7 3 [rock4] [rock3'] rock3 world_volley
              eq_refl eq_refl)
    as (_ & H).
  - constructor; [|constructor]. cbn. intros H. discriminate H.
  - destruct (H eq_refl volley_hit volley_clear)
      as (Hb & kids & moved & made & drawn & Ha & Hl & _).
    split; [exact Hb|]. exists kids. split; [exact Ha | exact Hl].
Defined.

Lemma expiry_frame_witness :
  In (PortFree (age shot_old))
     (trace (exec (updateTask_pass flat flat 1) world_shots))
  /\ pos (age shot_old) = pos shot_old
  /\ bullets (exec (updateTask_pass flat flat 1) world_shots)
     = bullets (exec (updateTask_pass flat flat 1)
                  (set_bullets [shot_young] world_shots)).
Proof.
  destruct (expiry_frame flat flat 1 world_shots [] [shot_young] shot_old
              eq_refl)
    as (Hf & Hp & _ & Hb & _).
  - vm_compute. intros H. discriminate H.
  - split; [exact Hf|]. split; [exact Hp | exact Hb].
Defined.

(** ** Further statements on sample states *)

Lemma heading_normalised_witness :
  angle (ship (exec (updateTask_pass flat flat 1) world_turning)) = 4.
Proof.
  destruct (heading_normalised flat flat 1 world_turning) as [H1 H2].
  - cbn. lia.
  - cbn. lia.
  - cbv zeta in H1, H2. cbn [world_turning ship set_ship angle a_vel
      set_a_vel set_angle] in H2.
    apply Z.mod_divide in H2; [|lia]. destruct H2 as [q Hq]. lia.
Defined.

Lemma bulletTask_pass_effect_witness :
  exists b : object,
    bullets (snd (bulletTask_pass flat plus_one 1 0 world0))
    = b :: bullets world0
    /\ pos b = pos (ship world0) /\ life b = 0
    /\ (- BULLET_VEL <= py (vel b) <= BULLET_VEL)%Q.
Proof.
  pose proof (bulletTask_pass_effect flat plus_one 1 0 world0) as H.
  cbv zeta in H. destruct H as (_ & _ & H).
  change (SHOOT_BUTTON 0) with true in H. cbv iota in H.
  destruct H as (_ & b & Hb & Hp & Hl & _ & _ & _ & _ & Hy).
  exists b. split; [exact Hb|]. split; [exact Hp|]. split; [exact Hl|].
  apply Hy. vm_compute. split; discriminate.
Defined.

Lemma fire_rate_any_input_witness :
  Z.of_nat (length (fst (bulletTask_run flat flat 1 200 held_700 0 1700 world0)))
  <= 1700 / BULLET_DELAY_MS + 1
  /\ spaced BULLET_DELAY_MS
       (fst (bulletTask_run flat flat 1 200 held_700 0 1700 world0)).
Proof.
  destruct (fire_rate_any_input flat flat 1 held_700 1700 200 world0)
    as (H1 & H2 & _).
  - lia.
  - exists 500. reflexivity.
  - lia.
  - split; [exact H1 | exact H2].
Defined.


Lemma quiet_pass_witness :
  exists evs : list event,
    exec (drawTask_pass display_none counting_up 1 42) world_crash
    = set_trace (evs ++ trace world_crash) world_crash
    /\ Forall is_draw evs.
Proof.
  apply (quiet_pass display_none counting_up 1 42 world_crash).
  - intros tr h g. reflexivity.
  - intros H. discriminate H.
Defined.

Lemma win_condition_witness :
  asteroids (exec (drawTask_sync display_hit) world_last) = []
  /\ bullets (exec (drawTask_pass display_hit counting_up 1 42) world_last)
     = []
  /\ length (asteroids
               (exec (drawTask_pass display_hit counting_up 1 42) world_last))
     = 5%nat.
Proof.
  assert (H : asteroids (exec (drawTask_sync display_hit) world_last) = [])
    by (vm_compute; reflexivity).
  split; [exact H|].
  destruct (win_condition display_hit counting_up 1 42 world_last H)
    as (_ & Hb & Hl & _).
  split; [exact Hb | exact Hl].
Defined.

Lemma world0_rng : rng_ok world0.
Proof. intros n. cbn. lia. Defined.

Lemma spawn_kinematics_witness :
  exists k1 k2 k3 : object,
    asteroids (exec (spawnAsteroid (mkPoint 400 300) 2) world0)
    = [k3; k2; k1] ++ asteroids world0
    /\ Forall (kinematics_within 4 9) [k3; k2; k1].
Proof.
  destruct (spawn_kinematics (mkPoint 400 300) 2 world0)
    as (k1 & k2 & k3 & Ha & _ & _ & Hall).
  - lia.
  - exact world0_rng.
  - exists k1, k2, k3. split; [exact Ha|].
    eapply Forall_impl; [|exact Hall]. cbn beta. intros k [Hk _]. exact Hk.
Defined.


Lemma getRandStartPosVal_safe_witness :
  start_ok 400 (fst (getRandStartPosVal 400 world0)).
Proof.
  apply (getRandStartPosVal_safe 400 world0).
  - unfold DEAD_ZONE_OVER_2. lia.
  - exact world0_rng.
Defined.

Lemma counting_up_from_0 (seed : Z) (n : nat) : 0 <= counting_up seed n.
Proof. unfold counting_up. lia. Defined.

Lemma init_session_witness :
  length (asteroids (exec (init counting_up 42) world0)) = 5%nat
  /\ hits_left (asteroids (exec (init counting_up 42) world0)) = 65
  /\ Forall placed_start (asteroids (exec (init counting_up 42) world0)).
Proof.
  destruct (init_session counting_up 42 world0 (counting_up_from_0 42))
    as (_ & Hl & Hh & Hall & _).
  split; [exact Hl|]. split; [exact Hh|].
  eapply Forall_impl; [|exact Hall]. cbn beta. intros k (_ & Hk & _).
  exact Hk.
Defined.

Lemma flat_bounded (a : Z) : (-1 <= flat a <= 1)%Q /\ (-1 <= flat a <= 1)%Q.
Proof. unfold flat. split; split; discriminate. Defined.

Lemma game_ok_kept_witness :
  game_ok
    (exec (drawTask_pass display_none counting_up 1 7)
       (exec (updateTask_pass flat flat 1)
          (exec (bulletTask_pass flat flat 1 0)
             (exec (inputTask_pass left_and_thrust)
                (exec (drawTask_start counting_up 42) world0))))).
Proof.
  pose proof (fun p t w =>
                game_ok_kept flat flat display_none counting_up 1
                  flat_bounded counting_up_from_0 p t w) as K.
  pose proof (proj1 (K 0 42 world0)) as H0.
  pose proof (proj1 (proj2 (K left_and_thrust 0 _) H0)) as H1.
  pose proof (proj1 (proj2 (proj2 (K 0 0 _) H1))) as H2.
  pose proof (proj1 (proj2 (proj2 (proj2 (K 0 0 _) H2)))) as H3.
  exact (proj2 (proj2 (proj2 (proj2 (K 0 7 _) H3)))).
Defined.

Lemma bullet_lifetime_witness :
  (exists b' : object,
     bullets (Nat.iter 99 (exec (updateTask_pass flat flat 1)) world_shot)
     = [b'] /\ life b' = 990)
  /\ bullets (Nat.iter 100 (exec (updateTask_pass flat flat 1)) world_shot)
     = [].
Proof.
  split.
  - destruct (bullet_lifetime flat flat 1 shot7 world_shot 99 eq_refl eq_refl)
      as [H _].
    destruct H as (b' & Hb & _ & Hl); [lia|].
    exists b'. split; [exact Hb | exact Hl].
  - destruct (bullet_lifetime flat flat 1 shot7 world_shot 100 eq_refl eq_refl)
      as [_ H].
    apply H. lia.
Defined.

Lemma sprites_kept_witness :
  sprites_ok
    (exec (drawTask_pass display_hit counting_up 1 7)
       (exec (bulletTask_pass flat flat 1 0)
          (exec (drawTask_start counting_up 42) world0))).
Proof.
  pose proof (fun p t w =>
                sprites_kept flat flat display_hit counting_up 1 p t w) as K.
  pose proof (proj1 (K 0 42 world0) (fun h => eq_refl) I) as H0.
  pose proof (proj1 (proj2 (proj2 (K 0 0 _) H0))) as H1.
  exact (proj2 (proj2 (proj2 (proj2 (K 0 7 _) H1)))).
Defined.

Lemma USART_Init_divisor_witness :
  exists s' : usart,
    USART_Init 4 3 2 1 1 9600 16000000 usart0 = Ok s'
    /\ UBRR0H s' = 0 /\ UBRR0L s' = 103.
Proof.
  destruct (USART_Init_divisor 4 3 2 1 1 9600 16000000 usart0)
    as (s' & H & _ & Hh & Hl & Hd & _); [lia | lia |].
  exists s'. split; [exact H|].
  assert (E : UBRR0H s' * 256 + UBRR0L s' = 103)
    by (rewrite Hd; [reflexivity | lia | vm_compute; discriminate]).
  lia.
Defined.

Lemma USART_Init_control_witness :
  exists s' : usart,
    USART_Init 4 3 2 1 1 9600 16000000 usart0 = Ok s'
    /\ Z.testbit (UCSR0A s') 1 = false /\ Z.testbit (UCSR0A s') 5 = true.
Proof.
  destruct (USART_Init_control 4 3 2 1 1 9600 16000000 usart0)
    as (s' & H & Hbits); [lia | lia | lia | lia | lia | lia |].
  exists s'. split; [exact H|].
  split; [apply (Hbits 1) | apply (Hbits 5)]; lia.
Defined.

Lemma USART_Read_first_witness :
  USART_Read 7 status_slow (fun n => Z.of_nat n + 64) 3 usart0
  = Ok (67, mkUsart 0 0 34 0 6 None [] 3).
Proof.
  apply (USART_Read_first 7 status_slow (fun n => Z.of_nat n + 64) 3 2 usart0).
  - lia.
  - vm_compute. discriminate.
  - intros j Hj. destruct j as [|[|j]]; [reflexivity | reflexivity | lia].
Defined.

Lemma status_slow_ready : ready_within status_slow 5 3.
Proof.
  intros n. unfold status_slow.
  destruct (Nat.eq_dec (n mod 3) 2) as [E | E].
  - exists 0%nat. split; [lia|]. rewrite Nat.add_0_r.
    rewrite (proj2 (Nat.eqb_eq _ _) E). vm_compute. discriminate.
  - destruct (Nat.eq_dec (n mod 3) 1) as [E1 | E1].
    + exists 1%nat. split; [lia|].
      assert (E2 : ((n + 1) mod 3 = 2)%nat)
        by (rewrite Nat.Div0.add_mod, E1; reflexivity).
      rewrite (proj2 (Nat.eqb_eq _ _) E2). vm_compute. discriminate.
    + exists 2%nat. split; [lia|].
      pose proof (Nat.mod_upper_bound n 3 ltac:(lia)) as Hb.
      assert (E0 : (n mod 3 = 0)%nat) by lia.
      assert (E2 : ((n + 2) mod 3 = 2)%nat)
        by (rewrite Nat.Div0.add_mod, E0; reflexivity).
      rewrite (proj2 (Nat.eqb_eq _ _) E2). vm_compute. discriminate.
Defined.

Lemma transmit_in_order_witness :
  exists s1 s2 : usart,
    USART_Write_all [72; 105; 33] usart_open = Ok s1
    /\ USART_Write_Task_run 5 status_slow null_receive_stuck 3 3 s1 = Ok s2
    /\ xUsartQueue s2 = Some [] /\ UDR0 s2 = [33; 105; 72].
Proof.
  destruct (transmit_in_order 5 status_slow null_receive_stuck 3
              [72; 105; 33] usart_open status_slow_ready eq_refl)
    as (s1 & s2 & H1 & _ & H2 & H3 & H4).
  exists s1, s2. auto.
Defined.

Lemma USART_Write_Task_sends_queued_witness :
  USART_Write_Task_pass 5 status_slow null_receive_stuck 5 usart_queued
  = Ok usart_sent
  /\ exists (d : Z) (q' : list Z),
       [72; 105] = d :: q'
       /\ xUsartQueue usart_sent = Some q'
       /\ UDR0 usart_sent = d :: UDR0 usart_queued
       /\ (polls usart_queued < polls usart_sent
           <= polls usart_queued + 5)%nat.
Proof.
  split; [reflexivity|].
  apply (proj1 (USART_Write_Task_sends_queued 5 status_slow
                  null_receive_stuck 5 [72; 105] usart_queued eq_refl)).
  reflexivity.
Defined.
